(** * w0rmw00d.py: the per-tick simulation of the arcade game

    A shallow embedding of [src/w0rmw00d.py]: the player's movement and
    attack state machines ([Player]), the falling actors ([MatrixCharacter],
    [Enemy], [Pill]), the round logic of the session object ([Game]), the
    depth scale of the player's picture and the in-game console
    ([InGameConsole]).

    Numbers.  Python integers are [Z].  Python floats ([pos], [vx], the
    knockback velocity, [drop_speed]) are modelled by exact rationals [Q];
    every operation re-normalises its result with [Qred], so that equal
    values are equal terms and long runs evaluate.  [int(x)] is truncation
    toward zero.  The rounding of the doubles is not modelled; the one
    statement that depends on it, the decay of the knockback, says so and
    states by the side what the doubles themselves do ([Doubles]).

    pygame.  A sprite group is the list of its members, in insertion
    order; [kill()] clears the [alive] flag of a sprite and the groups
    drop it.  A rectangle is an integer [Rect]; [colliderect] is the open
    overlap test of two rectangles of positive size.  The coordinates of
    a [Rect] are unbounded, where pygame keeps 32-bit integers and raises
    once a coordinate leaves them: a player who flies in the mode "math"
    for some hundreds of millions of ticks stops the program, and the
    model goes on.  Which picture of
    the player is shown ([frames], [active_set], [frame_index],
    [animation_timer], [image]) is left out: no physics, combat or round
    code reads it.  Of the sprite the model keeps the size of its
    rectangle, taken to be the same for all frames of one player (the
    placeholder frames are all 48 by 48); that size and the float square
    root are the [Platform] the session runs on.  The rescaling of the
    picture by depth is modelled by itself ([apply_depth_scale]) and not
    fed back into the rectangle: no session sets the 3D flag, and the
    statements over several ticks of a player outside a session take it
    to be off where the rectangle matters.

    The file has the model first, then the notions and the concrete play
    that the statements use, then the properties, claim by claim, and
    after them the further properties of the code. *)

From Stdlib Require Import ZArith QArith Qabs Qminmax Bool List Lia Lqa.
Import ListNotations.

Local Open Scope Z_scope.

(** ** Numbers *)

(** Python's [int(x)] on a float: truncation toward zero. *)
Definition Qtrunc (q : Q) : Z := Z.quot (Qnum q) (Z.pos (Qden q)).

Definition Qltb (a b : Q) : bool := negb (Qle_bool b a).
Definition Qleb (a b : Q) : bool := Qle_bool a b.

Definition ZtoQ (z : Z) : Q := inject_Z z.

(** Arithmetic on normal forms. *)
Definition qadd (a b : Q) : Q := Qred (a + b).
Definition qsub (a b : Q) : Q := Qred (a - b).
Definition qmul (a b : Q) : Q := Qred (a * b).
Definition qdiv (a b : Q) : Q := Qred (a / b).
Definition qmax (a b : Q) : Q := Qred (Qmax a b).
Definition qmin (a b : Q) : Q := Qred (Qmin a b).

(** ** Module-level constants and globals *)

Definition SCREEN_WIDTH : Z := 1000.
Definition SCREEN_HEIGHT : Z := 700.
Definition MATRIX_HEIGHT : Z := 500.

Inductive game_state : Type :=
| STATE_MENU
| STATE_PLAYING
| STATE_GAME_OVER
| STATE_ROUND_COMPLETE.

(** The keys of [get_random_string()], the values of [current_mode]. *)
Inductive mode : Type :=
| mode_default | mode_numbers | mode_hex | mode_binary | mode_japanese | mode_math.

Definition MIN_DEPTH : Q := 0%Q.
Definition MAX_DEPTH : Q := 100%Q.

(** The three mutable globals of the module. *)
Record Globals : Type := mkGlobals {
  drop_speed : Q;
  current_mode : mode;
  enable_3d : bool
}.

Definition initial_globals : Globals :=
  {| drop_speed := 2%Q; current_mode := mode_default; enable_3d := false |}.

Definition game_state_eqb (a b : game_state) : bool :=
  match a, b with
  | STATE_MENU, STATE_MENU
  | STATE_PLAYING, STATE_PLAYING
  | STATE_GAME_OVER, STATE_GAME_OVER
  | STATE_ROUND_COMPLETE, STATE_ROUND_COMPLETE => true
  | _, _ => false
  end.

Definition is_math (m : mode) : bool :=
  match m with mode_math => true | _ => false end.

(** ** pygame rectangles *)

Record Rect : Type := mkRect { left : Z; top : Z; width : Z; height : Z }.

Definition right (r : Rect) : Z := left r + width r.
Definition bottom (r : Rect) : Z := top r + height r.

(** [Surface.get_rect(center=(cx, cy))] for a surface of size [w] by [h]. *)
Definition rect_center (cx cy w h : Z) : Rect :=
  mkRect (cx - w / 2) (cy - h / 2) w h.

Definition colliderect (a b : Rect) : bool :=
  (0 <? width a) && (0 <? height a) && (0 <? width b) && (0 <? height b)
  && (left a <? right b) && (left b <? right a)
  && (top a <? bottom b) && (top b <? bottom a).

(** ** Input sampled for one tick *)

(** The entries of [pygame.key.get_pressed()] that the game reads. *)
Record Keys : Type := mkKeys {
  K_a : bool; K_d : bool; K_w : bool; K_s : bool; K_SPACE : bool
}.

Definition no_keys : Keys := mkKeys false false false false false.

Inductive direction : Type := dir_left | dir_right | dir_up | dir_down.

Definition direction_eqb (a b : direction) : bool :=
  match a, b with
  | dir_left, dir_left | dir_right, dir_right
  | dir_up, dir_up | dir_down, dir_down => true
  | _, _ => false
  end.

(** ** class Player *)

Module Player.

(** The attributes that [__init__] sets once and nothing changes. *)
Definition speed : Q := 6%Q.
Definition gravity : Z := 1.
Definition jump_strength : Z := -16.
Definition max_jumps : Z := 2.
Definition depth_speed : Q := 3%Q.
Definition attack_duration : Z := 15.
Definition attack_cooldown_duration : Z := 20.
Definition attack_range : Z := 80.
Definition attack_parry_window : Z := 3.

Record t : Type := mk {
  pos_x : Q; pos_y : Q; pos_z : Q;
  rect_width : Z; rect_height : Z;
  side_view : bool;
  vy : Z;
  vx : Q;
  on_ground : bool;
  facing : direction;
  last_direction : option direction;   (* unset until the first key *)
  any_dir_pressed : bool;
  jumps_left : Z;
  on_wall : bool;
  wall_dir : option direction;
  prev_up_pressed : bool;
  left_pressed : bool; right_pressed : bool; up_pressed : bool;
  is_jumping : bool;
  is_attacking : bool;
  attack_timer : Z;
  attack_cooldown : Z
}.

(** [Player(x, y)], for frames of size [w] by [h]. *)
Definition init (x y : Z) (w h : Z) : t :=
  {| pos_x := ZtoQ x; pos_y := ZtoQ y; pos_z := 0%Q;
     rect_width := w; rect_height := h;
     side_view := true;
     vy := 0; vx := 0%Q;
     on_ground := false;
     facing := dir_down; last_direction := None; any_dir_pressed := false;
     jumps_left := max_jumps;
     on_wall := false; wall_dir := None;
     prev_up_pressed := false;
     left_pressed := false; right_pressed := false; up_pressed := false;
     is_jumping := false;
     is_attacking := false; attack_timer := 0; attack_cooldown := 0 |}.

(** [self.rect] after [sync_rect()]. *)
Definition rect (p : t) : Rect :=
  rect_center (Qtrunc (pos_x p)) (Qtrunc (pos_y p)) (rect_width p) (rect_height p).

Definition half_w (p : t) : Q := qdiv (ZtoQ (rect_width p)) 2.
Definition half_h (p : t) : Q := qdiv (ZtoQ (rect_height p)) 2.

(** The jump taken on a rising edge of the up control, in the order of
    the source: ground jump, wall jump, air jump.  Gives the new
    [(vy, vx, on_ground, on_wall, jumps_left)]. *)
Definition jump (p : t) : Z * Q * bool * bool * Z :=
  if on_ground p then
    (jump_strength, vx p, false, on_wall p, jumps_left p)
  else if on_wall p then
    (Qtrunc (ZtoQ jump_strength * (9 # 10)),
     match wall_dir p with
     | Some dir_left => 10%Q
     | Some dir_right => (-10)%Q
     | _ => vx p
     end,
     on_ground p, false, jumps_left p)
  else if 0 <? jumps_left p then
    (jump_strength, vx p, on_ground p, on_wall p, jumps_left p - 1)
  else
    (vy p, vx p, on_ground p, on_wall p, jumps_left p).

(** [handle_input(keys)].  The returned flag [moved] is dropped: the
    only caller ignores it. *)
Definition handle_input (G : Globals) (keys : Keys) (p : t) : t :=
  let left_pressed' := K_a keys in
  let right_pressed' := K_d keys in
  let up0 := if enable_3d G then false else K_w keys || K_SPACE keys in
  let forward_pressed := if enable_3d G then K_w keys else false in
  let backward_pressed := if enable_3d G then K_s keys else false in
  let down_pressed := false in
  (* depth movement *)
  let z1 := if enable_3d G && forward_pressed
            then qmax MIN_DEPTH (qsub (pos_z p) depth_speed) else pos_z p in
  let z2 := if enable_3d G && backward_pressed
            then qmin MAX_DEPTH (qadd z1 depth_speed) else z1 in
  let up_pressed' := if enable_3d G && K_SPACE keys then true else up0 in
  let can_fly := is_math (current_mode G) in
  let hw := half_w p in
  let hh := half_h p in
  (* left and right *)
  let x1 := if left_pressed' && Qltb 0 (qsub (pos_x p) hw)
            then qsub (pos_x p) speed else pos_x p in
  let x2 := if right_pressed' && Qltb (qadd x1 hw) (ZtoQ SCREEN_WIDTH)
            then qadd x1 speed else x1 in
  (* vertical control *)
  let '(vy', vx', on_ground', on_wall', jumps_left') :=
    if side_view p then
      if can_fly then
        if up_pressed' then (-6, vx p, false, on_wall p, jumps_left p)
        else (vy p, vx p, on_ground p, on_wall p, jumps_left p)
      else if up_pressed' && negb (prev_up_pressed p) then jump p
      else (vy p, vx p, on_ground p, on_wall p, jumps_left p)
    else (vy p, vx p, on_ground p, on_wall p, jumps_left p) in
  let y1 := if side_view p then pos_y p
            else if up_pressed' && Qltb 0 (qsub (pos_y p) hh)
                 then qsub (pos_y p) speed else pos_y p in
  let y2 := if side_view p then y1
            else if down_pressed && Qltb (qadd y1 hh) (ZtoQ MATRIX_HEIGHT)
                 then qadd y1 speed else y1 in
  (* direction of the frame set *)
  let d :=
    if side_view p then
      if left_pressed' then dir_left
      else if right_pressed' then dir_right
      else if negb on_ground' || up_pressed' then dir_up
      else dir_down
    else
      if left_pressed' then dir_left
      else if right_pressed' then dir_right
      else if up_pressed' then dir_up
      else dir_down in
  let any := left_pressed' || right_pressed' || up_pressed' in
  {| pos_x := x2; pos_y := y2; pos_z := z2;
     rect_width := rect_width p; rect_height := rect_height p;
     side_view := side_view p;
     vy := vy'; vx := vx';
     on_ground := on_ground';
     facing := if any then d else facing p;
     last_direction := if any then Some d else last_direction p;
     any_dir_pressed := any;
     jumps_left := jumps_left';
     on_wall := on_wall'; wall_dir := wall_dir p;
     prev_up_pressed := up_pressed';
     left_pressed := left_pressed'; right_pressed := right_pressed';
     up_pressed := up_pressed';
     is_jumping := is_jumping p;
     is_attacking := is_attacking p;
     attack_timer := attack_timer p;
     attack_cooldown := attack_cooldown p |}.

(** [start_attack()]. *)
Definition start_attack (p : t) : t :=
  {| pos_x := pos_x p; pos_y := pos_y p; pos_z := pos_z p;
     rect_width := rect_width p; rect_height := rect_height p;
     side_view := side_view p;
     vy := vy p; vx := vx p;
     on_ground := on_ground p;
     facing := facing p; last_direction := last_direction p;
     any_dir_pressed := any_dir_pressed p;
     jumps_left := jumps_left p;
     on_wall := on_wall p; wall_dir := wall_dir p;
     prev_up_pressed := prev_up_pressed p;
     left_pressed := left_pressed p; right_pressed := right_pressed p;
     up_pressed := up_pressed p;
     is_jumping := is_jumping p;
     is_attacking := true;
     attack_timer := 0;
     attack_cooldown := attack_cooldown p |}.

(** [handle_mouse_attack(mouse_buttons)]; [button0] is [mouse_buttons[0]]. *)
Definition handle_mouse_attack (button0 : bool) (p : t) : t :=
  if button0 && negb (is_attacking p) && (attack_cooldown p =? 0)
  then start_attack p else p.

(** [get_attack_hitbox()]. *)
Definition get_attack_hitbox (p : t) : option Rect :=
  if negb (is_attacking p) then None
  else
    let hitbox_width := attack_range in
    let hitbox_height := height (rect p) in
    let no_last := match last_direction p with None => true | Some _ => false end in
    if direction_eqb (facing p) dir_right || (no_last && right_pressed p) then
      Some (mkRect (right (rect p)) (top (rect p)) hitbox_width hitbox_height)
    else if direction_eqb (facing p) dir_left || left_pressed p then
      Some (mkRect (left (rect p) - hitbox_width) (top (rect p)) hitbox_width hitbox_height)
    else if direction_eqb (facing p) dir_up then
      Some (mkRect (left (rect p)) (top (rect p) - hitbox_width) hitbox_height hitbox_width)
    else
      Some (mkRect (left (rect p)) (bottom (rect p)) hitbox_height hitbox_width).

(** [update()]: the cooldown, then the attack branch, which returns,
    then the side-view physics. *)
Definition update (G : Globals) (p : t) : t :=
  let cooldown1 :=
    if 0 <? attack_cooldown p then attack_cooldown p - 1 else attack_cooldown p in
  if is_attacking p then
    let timer1 := attack_timer p + 1 in
    let ended := attack_duration <=? timer1 in
    {| pos_x := pos_x p; pos_y := pos_y p; pos_z := pos_z p;
       rect_width := rect_width p; rect_height := rect_height p;
       side_view := side_view p;
       vy := vy p; vx := vx p;
       on_ground := on_ground p;
       facing := facing p; last_direction := last_direction p;
       any_dir_pressed := any_dir_pressed p;
       jumps_left := jumps_left p;
       on_wall := on_wall p; wall_dir := wall_dir p;
       prev_up_pressed := prev_up_pressed p;
       left_pressed := left_pressed p; right_pressed := right_pressed p;
       up_pressed := up_pressed p;
       is_jumping := is_jumping p;
       is_attacking := negb ended;
       attack_timer := if ended then 0 else timer1;
       attack_cooldown := if ended then attack_cooldown_duration else cooldown1 |}
  else if side_view p then
    (* horizontal impulse *)
    let moving := Qltb (1 # 2) (Qabs (vx p)) in
    let x1 := if moving then qadd (pos_x p) (vx p) else pos_x p in
    let vx1 := if moving then qmul (vx p) (85 # 100) else 0%Q in
    (* clamp to the field *)
    let hw := half_w p in
    let low := Qltb (qsub x1 hw) 0 in
    let high := Qltb (ZtoQ SCREEN_WIDTH) (qadd x1 hw) in
    let x2 := if low then hw
              else if high then qsub (ZtoQ SCREEN_WIDTH) hw else x1 in
    let vx2 := if low || high then 0%Q else vx1 in
    (* wall slide *)
    let at_left := negb (on_ground p) && left_pressed p && Qleb (qsub x2 hw) 0 in
    let at_right := negb (on_ground p) && negb at_left
                    && right_pressed p && Qleb (ZtoQ SCREEN_WIDTH) (qadd x2 hw) in
    let on_wall' := at_left || at_right in
    let wall_dir' := if at_left then Some dir_left
                     else if at_right then Some dir_right else None in
    let vy1 := if on_wall' then Z.min (vy p) 3 else vy p in
    (* gravity *)
    let vy2 := if negb (is_math (current_mode G) && up_pressed p)
               then vy1 + gravity else vy1 in
    let y1 := qadd (pos_y p) (ZtoQ vy2) in
    (* ground *)
    let hh := half_h p in
    let landed := Qleb (ZtoQ MATRIX_HEIGHT) (qadd y1 hh) in
    {| pos_x := x2;
       pos_y := if landed then qsub (ZtoQ MATRIX_HEIGHT) hh else y1;
       pos_z := pos_z p;
       rect_width := rect_width p; rect_height := rect_height p;
       side_view := side_view p;
       vy := if landed then 0 else vy2;
       vx := vx2;
       on_ground := landed;
       facing := facing p; last_direction := last_direction p;
       any_dir_pressed := any_dir_pressed p;
       jumps_left := if landed then max_jumps else jumps_left p;
       on_wall := on_wall'; wall_dir := wall_dir';
       prev_up_pressed := prev_up_pressed p;
       left_pressed := left_pressed p; right_pressed := right_pressed p;
       up_pressed := up_pressed p;
       is_jumping := if landed then false
                     else if negb on_wall' then true else is_jumping p;
       is_attacking := is_attacking p;
       attack_timer := attack_timer p;
       attack_cooldown := cooldown1 |}
  else
    {| pos_x := pos_x p; pos_y := pos_y p; pos_z := pos_z p;
       rect_width := rect_width p; rect_height := rect_height p;
       side_view := side_view p;
       vy := vy p; vx := vx p;
       on_ground := on_ground p;
       facing := facing p; last_direction := last_direction p;
       any_dir_pressed := any_dir_pressed p;
       jumps_left := jumps_left p;
       on_wall := on_wall p; wall_dir := wall_dir p;
       prev_up_pressed := prev_up_pressed p;
       left_pressed := left_pressed p; right_pressed := right_pressed p;
       up_pressed := up_pressed p;
       is_jumping := is_jumping p;
       is_attacking := is_attacking p;
       attack_timer := attack_timer p;
       attack_cooldown := cooldown1 |}.

End Player.

(** ** class MatrixCharacter *)

Module MatrixCharacter.

Record t : Type := mk {
  pos_x : Q; pos_y : Q;
  rect_width : Z; rect_height : Z;     (* size of the rendered glyph *)
  point_value : Z;
  speed : Q;
  alive : bool
}.

(** [MatrixCharacter(x, y, char, point_value)]; [w] by [h] is the size
    of the rendered [char]. *)
Definition init (G : Globals) (x y w h : Z) (point_value : Z) : t :=
  mk (ZtoQ x) (ZtoQ y) w h point_value (drop_speed G) true.

Definition rect (c : t) : Rect :=
  mkRect (Qtrunc (pos_x c)) (Qtrunc (pos_y c)) (rect_width c) (rect_height c).

Definition update (c : t) : t :=
  let y := qadd (pos_y c) (speed c) in
  mk (pos_x c) y (rect_width c) (rect_height c) (point_value c) (speed c)
     (alive c && negb (Qltb (ZtoQ MATRIX_HEIGHT) y)).

End MatrixCharacter.

(** ** class Enemy *)

Module Enemy.

Definition knockback_decay : Q := 95 # 100.

Record t : Type := mk {
  pos_x : Q; pos_y : Q;
  rect_width : Z; rect_height : Z;     (* size of the rendered X *)
  speed : Q;
  knocked_back : bool;
  knockback_vx : Q;
  knockback_vy : Q;
  was_hit_by_player : bool;
  alive : bool
}.

Definition init (G : Globals) (x y w h : Z) : t :=
  {| pos_x := ZtoQ x; pos_y := ZtoQ y; rect_width := w; rect_height := h;
     speed := qadd (drop_speed G) 1;
     knocked_back := false; knockback_vx := 0%Q; knockback_vy := 0%Q;
     was_hit_by_player := false; alive := true |}.

Definition rect (e : t) : Rect :=
  mkRect (Qtrunc (pos_x e)) (Qtrunc (pos_y e)) (rect_width e) (rect_height e).

(** The test that ends a knocked-back enemy. *)
Definition off_screen (x y : Q) : bool :=
  Qltb x (-50) || Qltb (ZtoQ (SCREEN_WIDTH + 50)) x
  || Qltb y (-50) || Qltb (ZtoQ (SCREEN_HEIGHT + 50)) y.

Definition update (e : t) : t :=
  if knocked_back e then
    let x := qadd (pos_x e) (knockback_vx e) in
    let y := qadd (pos_y e) (knockback_vy e) in
    {| pos_x := x; pos_y := y;
       rect_width := rect_width e; rect_height := rect_height e;
       speed := speed e;
       knocked_back := knocked_back e;
       knockback_vx := qmul (knockback_vx e) knockback_decay;
       knockback_vy := qmul (knockback_vy e) knockback_decay;
       was_hit_by_player := was_hit_by_player e;
       alive := alive e && negb (off_screen x y) |}
  else
    let y := qadd (pos_y e) (speed e) in
    {| pos_x := pos_x e; pos_y := y;
       rect_width := rect_width e; rect_height := rect_height e;
       speed := speed e;
       knocked_back := knocked_back e;
       knockback_vx := knockback_vx e;
       knockback_vy := knockback_vy e;
       was_hit_by_player := was_hit_by_player e;
       alive := alive e && negb (Qltb (ZtoQ MATRIX_HEIGHT) y) |}.

Definition apply_knockback (direction_x direction_y : Q) (force : Q) (e : t) : t :=
  {| pos_x := pos_x e; pos_y := pos_y e;
     rect_width := rect_width e; rect_height := rect_height e;
     speed := speed e;
     knocked_back := true;
     knockback_vx := qmul direction_x force;
     knockback_vy := qmul direction_y force;
     was_hit_by_player := true;
     alive := alive e |}.

(** Square of the magnitude of the knockback velocity. *)
Definition knockback_speed2 (e : t) : Q :=
  (knockback_vx e * knockback_vx e + knockback_vy e * knockback_vy e)%Q.

End Enemy.

(** ** class Pill *)

Inductive pill_type : Type := red | blue.

Module Pill.

Record t : Type := mk {
  kind : pill_type;                   (* [pill_type] in the source *)
  pos_x : Q; pos_y : Q;
  speed : Q;
  alive : bool
}.

Definition width : Z := 30.
Definition height : Z := 15.

Definition init (G : Globals) (x y : Z) (k : pill_type) : t :=
  mk k (ZtoQ x) (ZtoQ y) (qsub (drop_speed G) (1 # 2)) true.

Definition rect (c : t) : Rect :=
  mkRect (Qtrunc (pos_x c)) (Qtrunc (pos_y c)) width height.

Definition update (c : t) : t :=
  let y := qadd (pos_y c) (speed c) in
  mk (kind c) (pos_x c) y (speed c)
     (alive c && negb (Qltb (ZtoQ MATRIX_HEIGHT) y)).

End Pill.

(** ** What the game takes from outside *)

(** The collaborators of the simulation: the size of the player's frames,
    as [load_player_frames()] delivers them, and the float square root
    behind [(dx**2 + dy**2)**0.5]. *)
Record Platform : Type := mkPlatform {
  frame_width : Z;
  frame_height : Z;
  hypot : Q -> Q -> Q
}.

(** Pending pygame events, reduced to what the game distinguishes.  Events
    that the open console or chat box consumes are not listed. *)
Inductive Key : Type := K_ESCAPE | K_SPACE_down | K_mode (m : mode) | K_other.
Inductive Event : Type := QUIT | KEYDOWN (k : Key).

(** What [spawn_characters()] draws from [random] on one call, with the
    sizes of the rendered glyphs: [(x, y, w, h)] for each collectible and
    for the enemy, if one is drawn. *)
Record Draws : Type := mkDraws {
  new_characters : list (Z * Z * Z * Z);
  new_enemy : option (Z * Z * Z * Z)
}.

(** One pass of the main loop: the events polled before the update, the
    sampled keys and mouse button, the random draws, and the events polled
    by the drawing code. *)
Record Frame : Type := mkFrame {
  events : list Event;
  keys : Keys;
  button0 : bool;
  draws : Draws;
  draw_events : list Event
}.

(** ** class Game *)

Module Game.

Record t : Type := mk {
  running : bool;
  state : game_state;
  player : option Player.t;
  characters : list MatrixCharacter.t;
  enemies : list Enemy.t;
  pills : list Pill.t;
  score : Z;
  keys_collected : Z;
  health : Z;
  spawn_timer : Z;
  game_time : Z;
  current_round : Z;
  pill_offered : bool;
  globals : Globals                  (* the module's globals *)
}.

(** [Game()]. *)
Definition init : t :=
  {| running := true; state := STATE_MENU; player := None;
     characters := []; enemies := []; pills := [];
     score := 0; keys_collected := 0; health := 100;
     spawn_timer := 0; game_time := 0; current_round := 1;
     pill_offered := false;
     globals := initial_globals |}.

Section WithPlatform.

Variable P : Platform.

(** [start_game()]. *)
Definition start_game (g : t) : t :=
  let p := Player.init (SCREEN_WIDTH / 2) (MATRIX_HEIGHT - 100)
                       (frame_width P) (frame_height P) in
  let p' := Player.mk
              (Player.pos_x p)
              (qsub (ZtoQ MATRIX_HEIGHT) (Player.half_h p))
              (Player.pos_z p)
              (Player.rect_width p) (Player.rect_height p)
              (Player.side_view p) (Player.vy p) (Player.vx p)
              (Player.on_ground p) (Player.facing p)
              (Player.last_direction p) (Player.any_dir_pressed p)
              (Player.jumps_left p) (Player.on_wall p) (Player.wall_dir p)
              (Player.prev_up_pressed p) (Player.left_pressed p)
              (Player.right_pressed p) (Player.up_pressed p)
              (Player.is_jumping p) (Player.is_attacking p)
              (Player.attack_timer p) (Player.attack_cooldown p) in
  {| running := running g; state := STATE_PLAYING; player := Some p';
     characters := []; enemies := []; pills := [];
     score := 0; keys_collected := 0; health := 100;
     spawn_timer := 0; game_time := 0; current_round := 1;
     pill_offered := false;
     globals := globals g |}.

(** [start_next_round()]. *)
Definition start_next_round (g : t) : t :=
  {| running := running g; state := STATE_PLAYING; player := player g;
     characters := []; enemies := []; pills := [];
     score := score g; keys_collected := keys_collected g; health := 100;
     spawn_timer := 0; game_time := game_time g;
     current_round := current_round g + 1;
     pill_offered := pill_offered g;
     globals := mkGlobals (qadd (drop_speed (globals g)) 1)
                          (current_mode (globals g))
                          (enable_3d (globals g)) |}.

(** [spawn_pills()]: the group of pills with the two it adds. *)
Definition spawn_pills (G : Globals) (ps : list Pill.t) : list Pill.t :=
  ps ++ [ Pill.init G (SCREEN_WIDTH / 3) (-50) red;
          Pill.init G ((SCREEN_WIDTH * 2) / 3) (-50) blue ].

(** [spawn_characters()]: the new collectibles and the new enemy. *)
Definition spawn_characters (G : Globals) (d : Draws)
  : list MatrixCharacter.t * list Enemy.t :=
  (map (fun '(x, y, w, h) => MatrixCharacter.init G x y w h 1) (new_characters d),
   match new_enemy d with
   | Some (x, y, w, h) => [Enemy.init G x y w h]
   | None => []
   end).

(** *** The passes of [update()] *)

(** The award for the enemies that the update pass removed after the
    player had hit them: the difference of the group before and after. *)
Definition destroyed_by_player (e : Enemy.t) : bool :=
  negb (Enemy.alive (Enemy.update e)) && Enemy.was_hit_by_player e.

Definition award (before : list Enemy.t) : Z :=
  10 * Z.of_nat (length (filter destroyed_by_player before)).

(** Collision with the collectibles: what is left of the group, and
    the points and the count gained. *)
Definition collect_characters (p : Player.t) (cs : list MatrixCharacter.t)
  : list MatrixCharacter.t * Z * Z :=
  fold_left
    (fun '(rest, points, count) c =>
       if colliderect (Player.rect p) (MatrixCharacter.rect c)
       then (rest, points + MatrixCharacter.point_value c, count + 1)
       else (rest ++ [c], points, count))
    cs ([], 0, 0).

(** The direction from the player to the enemy, normalised. *)
Definition knock_direction (p : Player.t) (e : Enemy.t) : Q * Q :=
  let dx := qsub (Enemy.pos_x e) (Player.pos_x p) in
  let dy := qsub (Enemy.pos_y e) (Player.pos_y p) in
  let distance := qmax 1 (hypot P dx dy) in
  (qdiv dx distance, qdiv dy distance).

Definition parrying (p : Player.t) : bool :=
  Player.is_attacking p && (Player.attack_timer p <=? Player.attack_parry_window).

(** One turn of the loop over the enemies that touch the player. *)
Definition resolve_contact (p : Player.t) (acc : list Enemy.t * Z * game_state)
           (e : Enemy.t) : list Enemy.t * Z * game_state :=
  let '(done, health, st) := acc in
  if colliderect (Player.rect p) (Enemy.rect e) then
    let '(knock_dir_x, knock_dir_y) := knock_direction p e in
    if parrying p then
      (done ++ [Enemy.apply_knockback knock_dir_x knock_dir_y 40 e], health, st)
    else
      let health' := health - 10 in
      (done ++ [Enemy.apply_knockback knock_dir_x knock_dir_y 30 e],
       health',
       if health' <=? 0 then STATE_GAME_OVER else st)
  else (done ++ [e], health, st).

Definition resolve_contacts (p : Player.t) (es : list Enemy.t)
           (health : Z) (st : game_state) : list Enemy.t * Z * game_state :=
  fold_left (resolve_contact p) es ([], health, st).

(** The hit at range: enemies in the hitbox that do not touch the player. *)
Definition facing_direction (p : Player.t) : Q * Q :=
  if direction_eqb (Player.facing p) dir_right || Player.right_pressed p
  then (1, 0)%Q
  else if direction_eqb (Player.facing p) dir_left || Player.left_pressed p
  then (-1, 0)%Q
  else if direction_eqb (Player.facing p) dir_up then (0, -1)%Q
  else (0, 1)%Q.

Definition ranged_attack (p : Player.t) (es : list Enemy.t) : list Enemy.t :=
  if Player.is_attacking p then
    match Player.get_attack_hitbox p with
    | Some attack_hitbox =>
        map (fun e =>
               if colliderect attack_hitbox (Enemy.rect e)
                  && negb (colliderect (Player.rect p) (Enemy.rect e))
               then let '(knock_dir_x, knock_dir_y) := facing_direction p in
                    Enemy.apply_knockback knock_dir_x knock_dir_y 35 e
               else e)
            es
    | None => es
    end
  else es.

(** Collision with the pills, over the members the group had when the
    loop began: the group left, the 3D flag and the player's depth. *)
Definition collect_pills (p : Player.t) (ps : list Pill.t) (flag : bool)
  : list Pill.t * bool * Q :=
  fold_left
    (fun '(rest, flag, z) c =>
       if colliderect (Player.rect p) (Pill.rect c) then
         match Pill.kind c with
         | red => ([], true, z)
         | blue => ([], false, 0%Q)
         end
       else (rest, flag, z))
    ps (ps, flag, Player.pos_z p).

(** The ambient ramp of the difficulty. *)
Definition ramp (game_time : Z) (speed : Q) : Q :=
  if game_time mod 300 =? 0 then qmin (qadd speed (1 # 2)) 10 else speed.

Definition set_pos_z (z : Q) (p : Player.t) : Player.t :=
  Player.mk (Player.pos_x p) (Player.pos_y p) z
            (Player.rect_width p) (Player.rect_height p)
            (Player.side_view p) (Player.vy p) (Player.vx p)
            (Player.on_ground p) (Player.facing p)
            (Player.last_direction p) (Player.any_dir_pressed p)
            (Player.jumps_left p) (Player.on_wall p) (Player.wall_dir p)
            (Player.prev_up_pressed p) (Player.left_pressed p)
            (Player.right_pressed p) (Player.up_pressed p)
            (Player.is_jumping p) (Player.is_attacking p)
            (Player.attack_timer p) (Player.attack_cooldown p).


(** [update()], one tick.  [None] is the failure of the source on a
    session that plays without a player ([self.player] is [None]). *)
Definition update (f : Frame) (g : t) : option t :=
  if negb (game_state_eqb (state g) STATE_PLAYING) then Some g
  else
    match player g with
    | None => None
    | Some p0 =>
        let G := globals g in
        let p := Player.handle_mouse_attack (button0 f)
                   (Player.handle_input G (keys f) p0) in
        (* all_sprites.update() *)
        let p := Player.update G p in
        let cs := filter MatrixCharacter.alive
                         (map MatrixCharacter.update (characters g)) in
        let es := filter Enemy.alive (map Enemy.update (enemies g)) in
        let ps := filter Pill.alive (map Pill.update (pills g)) in
        (* ten points for each enemy destroyed by the player *)
        let score1 := score g + award (enemies g) in
        if 200 <=? score1 then
          Some {| running := running g; state := STATE_ROUND_COMPLETE;
                  player := Some p;
                  characters := cs; enemies := es; pills := ps;
                  score := score1; keys_collected := keys_collected g;
                  health := health g;
                  spawn_timer := spawn_timer g; game_time := game_time g;
                  current_round := current_round g;
                  pill_offered := pill_offered g;
                  globals := G |}
        else
          (* the pills, once per round, from 999 points on *)
          let offer := negb (pill_offered g) && (999 <=? score1) in
          let ps := if offer then spawn_pills G ps else ps in
          (* new characters *)
          let timer1 := spawn_timer g + 1 in
          let spawn := 20 <? timer1 in
          let '(new_cs, new_es) :=
            if spawn then spawn_characters G (draws f) else ([], []) in
          let cs := cs ++ new_cs in
          let es := es ++ new_es in
          (* collectibles *)
          let '(cs, points, count) := collect_characters p cs in
          (* enemies that touch the player, then the hit at range *)
          let '(es, health1, st) :=
            resolve_contacts p es (health g) STATE_PLAYING in
          let es := ranged_attack p es in
          (* pills *)
          let '(ps, flag, z) := collect_pills p ps (enable_3d G) in
          (* difficulty *)
          let game_time1 := game_time g + 1 in
          Some {| running := running g;
                  state := if health1 <=? 0 then STATE_GAME_OVER else st;
                  player := Some (set_pos_z z p);
                  characters := cs; enemies := es; pills := ps;
                  score := score1 + points;
                  keys_collected := keys_collected g + count;
                  health := health1;
                  spawn_timer := if spawn then 0 else timer1;
                  game_time := game_time1;
                  current_round := current_round g;
                  pill_offered := pill_offered g || offer;
                  globals := mkGlobals (ramp game_time1 (drop_speed G))
                                       (current_mode G) flag |}
    end.

(** *** Events and the main loop *)

Definition set_running (b : bool) (g : t) : t :=
  mk b (state g) (player g) (characters g) (enemies g) (pills g)
     (score g) (keys_collected g) (health g) (spawn_timer g) (game_time g)
     (current_round g) (pill_offered g) (globals g).

Definition set_state (s : game_state) (g : t) : t :=
  mk (running g) s (player g) (characters g) (enemies g) (pills g)
     (score g) (keys_collected g) (health g) (spawn_timer g) (game_time g)
     (current_round g) (pill_offered g) (globals g).

(** Back to the menu: the state and the two groups that are emptied. *)
Definition to_menu (g : t) : t :=
  mk (running g) STATE_MENU (player g) [] [] (pills g)
     (score g) (keys_collected g) (health g) (spawn_timer g) (game_time g)
     (current_round g) (pill_offered g) (globals g).

Definition set_mode (m : mode) (g : t) : t :=
  mk (running g) (state g) (player g) (characters g) (enemies g) (pills g)
     (score g) (keys_collected g) (health g) (spawn_timer g) (game_time g)
     (current_round g) (pill_offered g)
     (mkGlobals (drop_speed (globals g)) m (enable_3d (globals g))).

(** [handle_events()]. *)
Definition handle_event (g : t) (ev : Event) : t :=
  match ev with
  | QUIT => set_running false g
  | KEYDOWN K_ESCAPE => to_menu g
  | KEYDOWN (K_mode m) => set_mode m g
  | KEYDOWN _ => g
  end.

Definition handle_events (evs : list Event) (g : t) : t :=
  fold_left handle_event evs g.

(** [show_menu()], one poll of its loop. *)
Definition show_menu (evs : list Event) (g : t) : t :=
  fold_left
    (fun g ev =>
       match ev with
       | QUIT => set_running false g
       | KEYDOWN K_ESCAPE => set_running false g
       | KEYDOWN _ => start_game g
       end)
    evs g.

(** The event loop of [draw_round_complete()]. *)
Definition draw_round_complete (evs : list Event) (g : t) : t :=
  fold_left
    (fun g ev =>
       match ev with
       | QUIT => set_running false g
       | KEYDOWN K_SPACE_down =>
           if 3 <=? current_round g then set_state STATE_GAME_OVER g
           else start_next_round g
       | KEYDOWN _ => g
       end)
    evs g.

(** The event loop of [draw_game_over()]. *)
Definition draw_game_over (evs : list Event) (g : t) : t :=
  fold_left
    (fun g ev =>
       match ev with
       | QUIT => set_running false g
       | KEYDOWN K_SPACE_down => to_menu g
       | KEYDOWN _ => g
       end)
    evs g.

(** [draw()], as far as it changes the session. *)
Definition draw (evs : list Event) (g : t) : t :=
  match state g with
  | STATE_GAME_OVER => draw_game_over evs g
  | STATE_ROUND_COMPLETE => draw_round_complete evs g
  | _ => g
  end.

(** One pass of the loop of [run()]. *)
Definition step (f : Frame) (g : t) : option t :=
  match state g with
  | STATE_MENU => Some (show_menu (events f) g)
  | STATE_PLAYING =>
      option_map (draw (draw_events f)) (update f (handle_events (events f) g))
  | STATE_GAME_OVER | STATE_ROUND_COMPLETE => Some (draw (draw_events f) g)
  end.

(** [run()] over the frames given, while [running] holds. *)
Fixpoint run (fs : list Frame) (g : t) : option t :=
  match fs with
  | [] => Some g
  | f :: fs' =>
      if running g then
        match step f g with
        | Some g' => run fs' g'
        | None => None
        end
      else Some g
  end.

End WithPlatform.

End Game.

(** ** The player within one tick *)

(** What [Game.update] does to the player before the collision passes. *)
Definition player_tick (G : Globals) (keys : Keys) (button0 : bool)
           (p : Player.t) : Player.t :=
  Player.update G (Player.handle_mouse_attack button0 (Player.handle_input G keys p)).

(** The sampled input of the player for one tick, with the globals then. *)
Definition PlayerInput : Type := (Globals * Keys * bool)%type.

Definition player_run (inputs : list PlayerInput) (p : Player.t) : Player.t :=
  fold_left (fun p '(G, keys, button0) => player_tick G keys button0 p) inputs p.

(** The three states of the attack, read off the attributes. *)
Inductive attack_state : Type := Idle | Attacking | Cooldown.

Definition attack_state_of (p : Player.t) : attack_state :=
  if Player.is_attacking p then Attacking
  else if 0 <? Player.attack_cooldown p then Cooldown
  else Idle.

(** The moves of the attack state machine over one tick. *)
Definition attack_move (p p' : Player.t) : Prop :=
  match attack_state_of p, attack_state_of p' with
  | Idle, Idle => True
  | Idle, Attacking => Player.attack_timer p' = 1
  | Attacking, Attacking => Player.attack_timer p' = Player.attack_timer p + 1
  | Attacking, Cooldown =>
      Player.attack_timer p + 1 = Player.attack_duration
      /\ Player.attack_cooldown p' = Player.attack_cooldown_duration
  | Cooldown, Cooldown =>
      Player.attack_cooldown p' = Player.attack_cooldown p - 1
  | Cooldown, Idle => Player.attack_cooldown p = 1
  | _, _ => False
  end.

(** The ranges of the two counters in each state. *)
Definition attack_ok (p : Player.t) : Prop :=
  match attack_state_of p with
  | Idle => Player.attack_timer p = 0 /\ Player.attack_cooldown p = 0
  | Attacking =>
      0 <= Player.attack_timer p < Player.attack_duration
      /\ Player.attack_cooldown p = 0
  | Cooldown =>
      Player.attack_timer p = 0
      /\ 0 < Player.attack_cooldown p <= Player.attack_cooldown_duration
  end.

(** ** A concrete platform and concrete play *)

(** The square root to 53 binary digits, rounded down. *)
Definition sqrt_approx (q : Q) : Q :=
  Qred (Z.sqrt (Qnum q * 2 ^ 106 / Z.pos (Qden q)) # 2 ^ 53).

(** No image files: every frame is a 48 by 48 placeholder. *)
Definition placeholder_platform : Platform :=
  {| frame_width := 48; frame_height := 48;
     hypot := fun dx dy => sqrt_approx (dx * dx + dy * dy) |}.

(** The ranges of the draws of [spawn_characters()], and glyphs of
    positive size. *)
Definition draws_ok (d : Draws) : bool :=
  (1 <=? Z.of_nat (length (new_characters d)))
  && (Z.of_nat (length (new_characters d)) <=? 3)
  && forallb (fun '(x, y, w, h) =>
                (0 <=? x) && (x <=? SCREEN_WIDTH - 20)
                && (-50 <=? y) && (y <=? -10) && (0 <? w) && (0 <? h))
             (new_characters d)
  && match new_enemy d with
     | Some (x, y, w, h) =>
         (0 <=? x) && (x <=? SCREEN_WIDTH - 30)
         && (-50 <=? y) && (y <=? -10) && (0 <? w) && (0 <? h)
     | None => true
     end.

Definition frame_ok (f : Frame) : bool := draws_ok (draws f).

Definition key_w : Keys := mkKeys false false true false false.
Definition key_a : Keys := mkKeys true false false false false.
Definition key_a_w : Keys := mkKeys true false true false false.

(** One collectible drawn far from the player, no enemy. *)
Definition far_draws : Draws := mkDraws [(0, -10, 11, 23)] None.
(** One collectible drawn above the player's starting place, no enemy. *)
Definition near_draws : Draws := mkDraws [(490, -10, 11, 23)] None.

Definition any_key : Frame := mkFrame [KEYDOWN K_other] no_keys false far_draws [].
Definition idle : Frame := mkFrame [] no_keys false far_draws [].
Definition hold (k : Keys) : Frame := mkFrame [] k false far_draws [].
Definition click (k : Keys) : Frame := mkFrame [] k true far_draws [].
Definition collect : Frame := mkFrame [] no_keys false near_draws [].
Definition confirm : Frame :=
  mkFrame [] no_keys false near_draws [KEYDOWN K_SPACE_down].

(** Menu, a landing tick, a jump, then a click in the air. *)
Definition jump_then_click : list Frame :=
  [any_key; idle; hold key_w; click no_keys].

(** Menu, then the left key held for eighty ticks, with a click on the last. *)
Definition walk_left_then_click : list Frame :=
  any_key :: repeat (hold key_a) 79 ++ [click key_a].

(** Menu, a walk to the left wall and a jump there, with the left key held
    on through the slide. *)
Definition to_left_wall : list Frame :=
  any_key :: repeat (hold key_a) 80 ++ [hold key_a_w; hold key_a; hold key_a].

(** Standing still under a column of collectibles. *)
Definition collecting (n : nat) : list Frame := any_key :: repeat collect n.

(** A first game through its three rounds (each later round is complete on
    its first tick, the score being kept), the game-over screen, the menu,
    and a second game. *)
Definition second_game (n : nat) : list Frame :=
  collecting 4253
  ++ [confirm; idle; confirm; idle; confirm; confirm; any_key]
  ++ repeat collect n.

(** The mode "math" chosen and the up key held for 84 ticks of flight; on
    the last one an enemy is drawn at the place the player reaches. *)
Definition take_off : Frame :=
  mkFrame [KEYDOWN (K_mode mode_math)] key_w false far_draws [].
Definition spawn_on_player : Frame :=
  mkFrame [] key_w false (mkDraws [(0, -10, 11, 23)] (Some (500, -28, 14, 28))) [].
Definition enemy_on_player : list Frame :=
  any_key :: take_off :: repeat (hold key_w) 82 ++ [spawn_on_player].

(** ** Notions used in the statements *)

(** Contact of an enemy with the player's rectangle, and what the contact
    pass of [update] makes of a touching enemy. *)
Definition touching (p : Player.t) (e : Enemy.t) : bool :=
  colliderect (Player.rect p) (Enemy.rect e).

Definition knocked (P : Platform) (p : Player.t) (force : Q) (e : Enemy.t) : Enemy.t :=
  Enemy.apply_knockback (fst (Game.knock_direction P p e))
                        (snd (Game.knock_direction P p e)) force e.

Definition contact_result (P : Platform) (p : Player.t) (e : Enemy.t) : Enemy.t :=
  if touching p e then knocked P p (if Game.parrying p then 40 else 30)%Q e else e.



(** The contacts of one pass that cost health. *)
Definition misses (p : Player.t) (es : list Enemy.t) : Z :=
  if Game.parrying p then 0 else Z.of_nat (length (filter (touching p) es)).

(** No pill in the session, none offered, the 3D flag down. *)
Definition no_pill (g : Game.t) : Prop :=
  Game.pills g = [] /\ Game.pill_offered g = false
  /\ enable_3d (Game.globals g) = false.

Definition has_player (g : Game.t) : Prop := Game.player g <> None.

Definition session_ok (g : Game.t) : Prop :=
  no_pill g /\ (Game.state g <> STATE_MENU -> has_player g).

(** A session in play with a collectible and an enemy about to touch the
    grounded player. *)
Definition contact_state (score health : Z) : Game.t :=
  {| Game.running := true; Game.state := STATE_PLAYING;
     Game.player :=
       Some (Player.mk 500 476 0 48 48 true 0 0 true dir_down None false 2
                       false None false false false false false false 0 0);
     Game.characters := [MatrixCharacter.mk 490 460 11 23 1 2 true];
     Game.enemies := [Enemy.init initial_globals 490 440 14 28];
     Game.pills := [];
     Game.score := score; Game.keys_collected := 0; Game.health := health;
     Game.spawn_timer := 0; Game.game_time := 1000; Game.current_round := 1;
     Game.pill_offered := false;
     Game.globals := initial_globals |}.

(** On the last ten points of health, one point short of 200. *)
Definition last_stand : Game.t := contact_state 199 10.

(** The session one tick before the score reaches 200 under the column
    of collectibles. *)
Definition before_200 :=
  Eval vm_compute in
    match Game.run placeholder_platform (collecting 4251) Game.init with
    | Some g => g
    | None => Game.init
    end.



(** The player of the session after the given frames. *)
Definition player_after (fs : list Frame) : option Player.t :=
  match Game.run placeholder_platform fs Game.init with
  | Some g => Game.player g
  | None => None
  end.

(** The player in contact with the left wall, two ticks after a jump
    along it. *)
Definition at_left_wall :=
  Eval vm_compute in
    match player_after to_left_wall with
    | Some p => p
    | None => Player.init 0 0 0 0
    end.

(** What the physics of [Player.update] integrates. *)
Definition kinematics (p : Player.t) : Q * Q * Z * Q * bool :=
  (Player.pos_x p, Player.pos_y p, Player.vy p, Player.vx p, Player.on_ground p).

(** Menu, then the left key held for eighty ticks. *)
Definition walk_left : list Frame := any_key :: repeat (hold key_a) 80.

(** A player in side view who, when grounded, stands on the floor line. *)
Definition on_floor (p : Player.t) : Prop :=
  Player.side_view p = true
  /\ (Player.on_ground p = true ->
      Player.pos_y p = qsub (ZtoQ MATRIX_HEIGHT) (Player.half_h p)).

(** Powers of the decay factor. *)
Fixpoint qpow (q : Q) (n : nat) : Q :=
  match n with
  | O => 1%Q
  | S n' => (q * qpow q n')%Q
  end.

(** ** The decay in the program's own arithmetic *)

From Stdlib Require PrimFloat.

(** [self.knockback_vx *= self.knockback_decay] on IEEE doubles, as Python
    computes it. *)
Module Doubles.

Import PrimFloat.

(** The double that Python reads from [0.95]. *)
Definition knockback_decay : float := 0x1.e666666666666p-1%float.

Definition decay (v : float) : float := (v * knockback_decay)%float.

Definition zero : float := 0%float.

(** The velocity of a hit at range to the right: [1 * 35]. *)
Definition ranged_hit : float := 35%float.

(** Nine times the least positive double. *)
Definition stalled : float := 0x9p-1074%float.

Definition positive (v : float) : bool := ltb zero v.

End Doubles.

(** ** Further parts of the program *)

(** *** The depth scale of the player's picture *)

Definition DEPTH_SCALE_FACTOR : Q := 1 # 2.

(** [Player.get_depth_scale()]. *)
Definition get_depth_scale (G : Globals) (p : Player.t) : Q :=
  if negb (enable_3d G) then 1%Q
  else
    let z := qmax MIN_DEPTH (qmin MAX_DEPTH (Player.pos_z p)) in
    let normalized := qdiv z MAX_DEPTH in
    qsub 1 (qmul normalized (qsub 1 DEPTH_SCALE_FACTOR)).

(** [Player.apply_depth_scale(frame)], as the size of the frame it
    returns for a frame of size [(w, h)]. *)
Definition apply_depth_scale (G : Globals) (p : Player.t) (size : Z * Z) : Z * Z :=
  if negb (enable_3d G) then size
  else
    let scale := get_depth_scale G p in
    if Qeq_bool scale 1 then size
    else
      let '(w, h) := size in
      (Z.max 1 (Qtrunc (qmul (ZtoQ w) scale)), Z.max 1 (Qtrunc (qmul (ZtoQ h) scale))).

(** *** class InGameConsole *)

(** The console keeps a log, a line of input and a buffer of lines that
    its commands read, edit and save.  The methods of [str] that it
    calls, and the answers of the file system, are inputs of the model;
    the key repeat that [toggle()] sets and the drawing are left out. *)

From Stdlib Require Ascii String.

Module InGameConsole.

Import Ascii String.

(** A Python string: the list of its code points. *)
Definition str : Type := list N.

(** A literal of the source. *)
Definition lit (s : string) : str := map N_of_ascii (list_ascii_of_string s).
Arguments lit s%_string.

Fixpoint str_eqb (a b : str) : bool :=
  match a, b with
  | [], [] => true
  | x :: a', y :: b' => N.eqb x y && str_eqb a' b'
  | _, _ => false
  end.

(** [sep.join(parts)]. *)
Fixpoint join (sep : str) (parts : list str) : str :=
  match parts with
  | [] => []
  | [s] => s
  | s :: rest => s ++ sep ++ join sep rest
  end.

(** The methods of [str] and the conversions that the console calls. *)
Record Text : Type := mkText {
  splitlines : str -> list str;
  split : str -> list str;
  strip : str -> str;
  lower : str -> str;
  parse_int : str -> Z + str;          (* [int(s)], or the text of its error *)
  str_of_int : Z -> str;               (* [str(n)] in an f-string *)
  format_4d : Z -> str                 (* [f"{n:4d}"] *)
}.

(** What the file system answers to one command: the lines of the file
    that [open] reads or the text of the error, and the error of the write
    of [save], if any. *)
Record Files : Type := mkFiles {
  read_result : list str + str;
  write_result : option str
}.

Inductive ConsoleKey : Type := K_BACKQUOTE | K_RETURN | K_BACKSPACE | K_character.

(** A pygame event as the console reads it: the key and the [unicode]
    attribute of a KEYDOWN (empty when the event has none). *)
Inductive ConsoleEvent : Type :=
| KeyDown (key : ConsoleKey) (unicode : str)
| OtherEvent.

Record t : Type := mk {
  active : bool;
  log : list str;
  input : str;
  buffer : list str;
  file_path : option str;
  written : list (str * str)          (* the files written, with their text *)
}.

Definition init : t :=
  {| active := false;
     log := [lit "In-game console ready. Type 'help' for commands."];
     input := [];
     buffer := [];
     file_path := None;
     written := [] |}.

Definition toggle (c : t) : t :=
  mk (negb (active c)) (log c) (input c) (buffer c) (file_path c) (written c).

Section WithText.

Variable T : Text.

(** [log[-200:]]. *)
Definition last_200 (l : list str) : list str :=
  skipn (List.length l - 200) l.

Definition append_log (text : str) (c : t) : t :=
  let log1 := log c ++ splitlines T text in
  mk (active c)
     (if (200 <? Z.of_nat (List.length log1)) then last_200 log1 else log1)
     (input c) (buffer c) (file_path c) (written c).

Definition set_buffer (b : list str) (path : option str) (c : t) : t :=
  mk (active c) (log c) (input c) b path (written c).

(** [range(lo, hi + 1)]. *)
Definition range_incl (lo hi : Z) : list Z :=
  map (fun k => lo + Z.of_nat k) (seq 0 (Z.to_nat (hi + 1 - lo))).

(** [buffer[idx] = new_text] for [0 <= idx < len(buffer)]. *)
Definition set_line (idx : Z) (new_text : str) (b : list str) : list str :=
  firstn (Z.to_nat idx) b ++ new_text :: skipn (S (Z.to_nat idx)) b.

Definition nth_part (n : nat) (parts : list str) : str := nth n parts [].

Definition execute (F : Files) (cmd : str) (c : t) : t :=
  let parts := split T cmd in
  match parts with
  | [] => c
  | part0 :: _ =>
      let op := lower T part0 in
      let n := Z.of_nat (List.length parts) in
      if str_eqb op (lit "help") then
        append_log
          (lit "Commands: help, open <path>, show [s e], edit <line> <text>, save, close, exit")
          c
      else if str_eqb op (lit "open") && (2 <=? n) then
        let path := join (lit " ") (skipn 1 parts) in
        match read_result F with
        | inl lines =>
            append_log
              (lit "Opened '" ++ path ++ lit "' ("
               ++ str_of_int T (Z.of_nat (List.length lines)) ++ lit " lines)")
              (set_buffer lines (Some path) c)
        | inr e =>
            append_log (lit "Error opening '" ++ path ++ lit "': " ++ e) c
        end
      else if str_eqb op (lit "show") then
        let start0 := 1 in
        let end0 := Z.min 20 (Z.of_nat (List.length (buffer c))) in
        let '(start, end_) :=
          if 3 <=? n then
            match parse_int T (nth_part 1 parts) with
            | inl s =>
                match parse_int T (nth_part 2 parts) with
                | inl e => (s, e)
                | inr _ => (s, end0)
                end
            | inr _ => (start0, end0)
            end
          else (start0, end0) in
        fold_left
          (fun c i =>
             append_log
               (format_4d T i ++ lit ": " ++ nth (Z.to_nat (i - 1)) (buffer c) [])
               c)
          (range_incl (Z.max 1 start) (Z.min end_ (Z.of_nat (List.length (buffer c)))))
          c
      else if str_eqb op (lit "edit") && (3 <=? n) then
        match parse_int T (nth_part 1 parts) with
        | inl k =>
            let idx := k - 1 in
            if (0 <=? idx) && (idx <? Z.of_nat (List.length (buffer c))) then
              let new_text := join (lit " ") (skipn 2 parts) in
              append_log
                (lit "Line " ++ str_of_int T (idx + 1) ++ lit " updated")
                (set_buffer (set_line idx new_text (buffer c)) (file_path c) c)
            else append_log (lit "Line index out of range") c
        | inr e => append_log (lit "Edit error: " ++ e) c
        end
      else if str_eqb op (lit "save") then
        match file_path c with
        | None => append_log (lit "No file open to save") c
        | Some [] => append_log (lit "No file open to save") c
        | Some path =>
            match write_result F with
            | None =>
                append_log
                  (lit "Saved '" ++ path ++ lit "'")
                  (mk (active c) (log c) (input c) (buffer c) (file_path c)
                      (written c ++ [(path, join [10%N] (buffer c))]))
            | Some e => append_log (lit "Save error: " ++ e) c
            end
        end
      else if str_eqb op (lit "close") then
        append_log (lit "Buffer closed") (set_buffer [] None c)
      else if str_eqb op (lit "exit") then toggle c
      else append_log (lit "Unknown command: " ++ op) c
  end.

Definition set_input (s : str) (c : t) : t :=
  mk (active c) (log c) s (buffer c) (file_path c) (written c).

(** [handle_event(event)]: the console after the event, and whether the
    event was handled. *)
Definition handle_event (F : Files) (ev : ConsoleEvent) (c : t) : t * bool :=
  match ev with
  | KeyDown K_BACKQUOTE _ => (toggle c, true)
  | KeyDown key unicode =>
      if negb (active c) then (c, false)
      else
        match key with
        | K_RETURN =>
            let cmd := strip T (input c) in
            let c := set_input [] c in
            (match cmd with
             | [] => c
             | _ => execute F cmd (append_log (lit "> " ++ cmd) c)
             end, true)
        | K_BACKSPACE => (set_input (removelast (input c)) c, true)
        | _ =>
            match unicode with
            | [] => (c, false)
            | _ => (set_input (input c ++ unicode) c, true)
            end
        end
  | OtherEvent => (c, false)
  end.

(** The console over the events it is given, each with the answer of the
    file system. *)
Definition handle_all (evs : list (ConsoleEvent * Files)) (c : t) : t :=
  fold_left (fun c '(ev, F) => fst (handle_event F ev c)) evs c.

End WithText.

End InGameConsole.

(** ** A text for the examples *)

From Stdlib Require DecimalString.

(** The string methods on ASCII text: words are separated by spaces,
    lines by line feeds, and integers are written in decimal. *)
Module AsciiText.

Import Ascii String.

Definition space : N := 32%N.
Definition line_feed : N := 10%N.

(** The pieces of [s] between the occurrences of [sep]; [cur] is the
    piece being read, reversed. *)
Fixpoint pieces (sep : N) (s : InGameConsole.str) (cur : InGameConsole.str)
  : list InGameConsole.str :=
  match s with
  | [] => [rev cur]
  | ch :: s' =>
      if N.eqb ch sep then rev cur :: pieces sep s' []
      else pieces sep s' (ch :: cur)
  end.

Definition nonempty (s : InGameConsole.str) : bool :=
  match s with [] => false | _ => true end.

Definition split (s : InGameConsole.str) : list InGameConsole.str :=
  filter nonempty (pieces space s []).

Definition splitlines (s : InGameConsole.str) : list InGameConsole.str :=
  match s with
  | [] => []
  | _ => pieces line_feed s []
  end.

Fixpoint lstrip (s : InGameConsole.str) : InGameConsole.str :=
  match s with
  | ch :: s' => if N.eqb ch space then lstrip s' else s
  | [] => []
  end.

Definition strip (s : InGameConsole.str) : InGameConsole.str :=
  rev (lstrip (rev (lstrip s))).

Definition lower_char (ch : N) : N :=
  if (N.leb 65 ch && N.leb ch 90)%bool then (ch + 32)%N else ch.

Definition lower (s : InGameConsole.str) : InGameConsole.str := map lower_char s.

Definition to_string (s : InGameConsole.str) : string :=
  string_of_list_ascii (map ascii_of_N s).

Definition parse_int (s : InGameConsole.str) : Z + InGameConsole.str :=
  match DecimalString.NilZero.int_of_string (to_string s) with
  | Some d => inl (Z.of_int d)
  | None => inr (InGameConsole.lit "invalid literal for int() with base 10: '"
                 ++ s ++ InGameConsole.lit "'")
  end.

Definition str_of_int (n : Z) : InGameConsole.str :=
  InGameConsole.lit (DecimalString.NilZero.string_of_int (Z.to_int n)).

Definition format_4d (n : Z) : InGameConsole.str :=
  let digits := str_of_int n in
  repeat space (4 - List.length digits) ++ digits.

Definition text : InGameConsole.Text :=
  InGameConsole.mkText splitlines split strip lower parse_int str_of_int format_4d.

(** A console with three lines in the buffer, and the command that
    replaces the second. *)
Definition three_lines : InGameConsole.t :=
  InGameConsole.mk true [] []
    [InGameConsole.lit "one"; InGameConsole.lit "two"; InGameConsole.lit "three"]
    (Some (InGameConsole.lit "notes.txt")) [].

Definition edit_second : InGameConsole.str := InGameConsole.lit "EDIT 2 second line".

Definition second_edited : list InGameConsole.str :=
  [InGameConsole.lit "one"; InGameConsole.lit "second line"; InGameConsole.lit "three"].

Definition no_files : InGameConsole.Files :=
  InGameConsole.mkFiles (inr (InGameConsole.lit "no such file")) None.

End AsciiText.

(** ** Notions used in the further statements *)

(** *** The session *)

Definition touches_character (p : Player.t) (c : MatrixCharacter.t) : bool :=
  colliderect (Player.rect p) (MatrixCharacter.rect c).

Definition points_of (cs : list MatrixCharacter.t) : Z :=
  fold_right (fun c acc => MatrixCharacter.point_value c + acc) 0 cs.

(** A collectible as [spawn_characters] makes it and [update] keeps it. *)
Definition character_ok (c : MatrixCharacter.t) : Prop :=
  MatrixCharacter.point_value c = 1
  /\ (2 <= MatrixCharacter.speed c)%Q
  /\ MatrixCharacter.alive c = true.

(** An enemy of the group: marked as hit exactly when knocked back. *)
Definition enemy_ok (e : Enemy.t) : Prop :=
  Enemy.knocked_back e = Enemy.was_hit_by_player e
  /\ (3 <= Enemy.speed e)%Q
  /\ Enemy.alive e = true.

Definition in_play (s : game_state) : bool :=
  match s with
  | STATE_PLAYING | STATE_ROUND_COMPLETE => true
  | _ => false
  end.

(** What every pass of the main loop keeps. *)
Record session_inv (g : Game.t) : Prop := mk_session_inv {
  inv_round : 1 <= Game.current_round g <= 3;
  inv_health : Game.health g <= 100 /\ (10 | Game.health g);
  inv_alive : in_play (Game.state g) = true -> 0 < Game.health g;
  inv_timer : 0 <= Game.spawn_timer g <= 20;
  inv_time : 0 <= Game.game_time g;
  inv_speed : (2 <= drop_speed (Game.globals g))%Q;
  inv_characters : Forall character_ok (Game.characters g);
  inv_enemies : Forall enemy_ok (Game.enemies g);
  inv_score : 0 <= Game.keys_collected g <= Game.score g
              /\ (10 | Game.score g - Game.keys_collected g);
  inv_later_rounds :
    Game.state g = STATE_ROUND_COMPLETE \/ 2 <= Game.current_round g ->
    200 <= Game.score g
}.

(** The first game after its three rounds, on the game-over screen. *)
Definition after_three_rounds :=
  Eval vm_compute in
    match Game.run placeholder_platform
                   (collecting 4253 ++ [confirm; idle; confirm; idle; confirm])
                   Game.init with
    | Some g => g
    | None => Game.init
    end.

(** The first game at the start of its second round. *)
Definition round_two :=
  Eval vm_compute in
    match Game.run placeholder_platform (collecting 4253 ++ [confirm]) Game.init with
    | Some g => g
    | None => Game.init
    end.

Definition stopped (g : Game.t) : Prop := Game.running g = false.

(** *** The player *)

(** A player in side view whose lower edge is not below the floor line. *)
Definition above_floor (p : Player.t) : Prop :=
  Player.side_view p = true
  /\ (Player.pos_y p + Player.half_h p <= ZtoQ MATRIX_HEIGHT)%Q.

(** The jump budget, full whenever the player is grounded. *)
Definition budget_ok (p : Player.t) : Prop :=
  0 <= Player.jumps_left p <= Player.max_jumps
  /\ (Player.on_ground p = true -> Player.jumps_left p = Player.max_jumps).

(** The vertical control that [handle_input] leaves untouched. *)
Definition control (p : Player.t) : Z * Q * bool * bool * Z :=
  (Player.vy p, Player.vx p, Player.on_ground p, Player.on_wall p,
   Player.jumps_left p).

(** A tick sampled while the 3D flag is off, so that the picture of the
    player, and with it the rectangle, keeps its size. *)
Definition two_d (i : PlayerInput) : Prop := enable_3d (fst (fst i)) = false.

(** The up control as [handle_input] reads it from the keys. *)
Definition up_held (G : Globals) (keys : Keys) : bool :=
  if enable_3d G && K_SPACE keys then true
  else if enable_3d G then false else K_w keys || K_SPACE keys.

(** A tick of flight: the mode "math", the up control held, no click. *)
Definition flying (i : PlayerInput) : Prop :=
  let '(G, keys, b) := i in
  enable_3d G = false
  /\ is_math (current_mode G) = true /\ up_held G keys = true /\ b = false.

(** A grounded player between the walls, with nothing pressed and nothing
    pending. *)
Definition at_rest (p : Player.t) : Prop :=
  Player.side_view p = true
  /\ Player.on_ground p = true
  /\ Player.vy p = 0
  /\ Player.vx p = 0%Q
  /\ Player.pos_y p = qsub (ZtoQ MATRIX_HEIGHT) (Player.half_h p)
  /\ (Player.half_w p <= Player.pos_x p <= ZtoQ SCREEN_WIDTH - Player.half_w p)%Q
  /\ Player.any_dir_pressed p = false
  /\ Player.prev_up_pressed p = false
  /\ Player.left_pressed p = false
  /\ Player.right_pressed p = false
  /\ Player.up_pressed p = false
  /\ Player.on_wall p = false
  /\ Player.wall_dir p = None
  /\ Player.is_jumping p = false
  /\ Player.jumps_left p = Player.max_jumps
  /\ Player.is_attacking p = false
  /\ Player.attack_cooldown p = 0.

(** A player in side view who is not attacking, with frames of width [w]. *)
Definition walking (w : Z) (p : Player.t) : Prop :=
  Player.side_view p = true
  /\ Player.is_attacking p = false
  /\ Player.rect_width p = w.

(** No click in the sampled input. *)
Definition no_click (i : PlayerInput) : Prop := snd i = false.

Definition between_walls (p : Player.t) : Prop :=
  (Player.half_w p <= Player.pos_x p <= ZtoQ SCREEN_WIDTH - Player.half_w p)%Q.

(** *** The actors and the collision passes *)

(** An enemy on screen in the sense of the test that ends a knocked-back
    one. *)
Definition on_screen (x y : Q) : Prop :=
  (-50 <= x <= ZtoQ (SCREEN_WIDTH + 50))%Q /\ (-50 <= y <= ZtoQ (SCREEN_HEIGHT + 50))%Q.

Definition touches_pill (p : Player.t) (c : Pill.t) : bool :=
  colliderect (Player.rect p) (Pill.rect c).

Definition is_blue (c : Pill.t) : bool :=
  match Pill.kind c with blue => true | red => false end.

(** *** The console *)

(** The bound that [append_log] keeps. *)
Definition log_ok (c : InGameConsole.t) : Prop :=
  (List.length (InGameConsole.log c) <= 200)%nat.

(** * Properties *)

(** ** The attack state machine *)

(** Name the components of a tuple that a [let] takes apart. *)
Ltac split_tuple :=
  repeat match goal with
         | |- context [match ?X with (_, _) => _ end] =>
             destruct X; cbv beta iota
         end.

Lemma handle_input_attack_fields (G : Globals) (keys : Keys) (p : Player.t) :
  Player.is_attacking (Player.handle_input G keys p) = Player.is_attacking p
  /\ Player.attack_timer (Player.handle_input G keys p) = Player.attack_timer p
  /\ Player.attack_cooldown (Player.handle_input G keys p) = Player.attack_cooldown p.
Proof.
  unfold Player.handle_input. split_tuple. cbn. auto.
Qed.

Lemma attack_state_handle_input (G : Globals) (keys : Keys) (p : Player.t) :
  attack_state_of (Player.handle_input G keys p) = attack_state_of p.
Proof.
  destruct (handle_input_attack_fields G keys p) as (Ha & _ & Hc).
  unfold attack_state_of. now rewrite Ha, Hc.
Qed.

(** The guard of [handle_mouse_attack]: outside [Idle] the click is ignored. *)
Lemma handle_mouse_attack_guard (b : bool) (p : Player.t) :
  attack_state_of p <> Idle -> Player.handle_mouse_attack b p = p.
Proof.
  unfold attack_state_of, Player.handle_mouse_attack. intros H.
  destruct (Player.is_attacking p); cbn.
  - now rewrite andb_false_r.
  - destruct (0 <? Player.attack_cooldown p) eqn:E; [|congruence].
    apply Z.ltb_lt in E.
    replace (Player.attack_cooldown p =? 0) with false
      by (symmetry; apply Z.eqb_neq; lia).
    now rewrite andb_false_r.
Qed.

Lemma update_attack_fields (G : Globals) (p : Player.t) :
  let p' := Player.update G p in
  let cooldown1 := if 0 <? Player.attack_cooldown p
                   then Player.attack_cooldown p - 1 else Player.attack_cooldown p in
  if Player.is_attacking p then
    let ended := Player.attack_duration <=? Player.attack_timer p + 1 in
    Player.is_attacking p' = negb ended
    /\ Player.attack_timer p' = (if ended then 0 else Player.attack_timer p + 1)
    /\ Player.attack_cooldown p' =
         (if ended then Player.attack_cooldown_duration else cooldown1)
  else
    Player.is_attacking p' = false
    /\ Player.attack_timer p' = Player.attack_timer p
    /\ Player.attack_cooldown p' = cooldown1.
Proof.
  unfold Player.update.
  destruct (Player.is_attacking p) eqn:Ea; cbv beta iota zeta.
  - repeat split.
  - destruct (Player.side_view p); cbv iota; repeat split.
Qed.

Lemma handle_mouse_attack_fields (b : bool) (p : Player.t) :
  let p' := Player.handle_mouse_attack b p in
  if b && negb (Player.is_attacking p) && (Player.attack_cooldown p =? 0) then
    Player.is_attacking p' = true /\ Player.attack_timer p' = 0
    /\ Player.attack_cooldown p' = Player.attack_cooldown p
  else p' = p.
Proof.
  unfold Player.handle_mouse_attack.
  destruct (b && negb (Player.is_attacking p) && (Player.attack_cooldown p =? 0));
    cbn; auto.
Qed.

Lemma attack_tick (G : Globals) (keys : Keys) (b : bool) (p : Player.t) :
  attack_ok p ->
  attack_ok (player_tick G keys b p) /\ attack_move p (player_tick G keys b p).
Proof.
  intros Hok. unfold player_tick.
  destruct (handle_input_attack_fields G keys p) as (Ha & Ht & Hc).
  remember (Player.handle_input G keys p) as p1 eqn:E1; clear E1.
  pose proof (handle_mouse_attack_fields b p1) as Hm.
  pose proof (update_attack_fields G (Player.handle_mouse_attack b p1)) as Hu.
  cbv zeta in Hm, Hu.
  remember (Player.handle_mouse_attack b p1) as p2 eqn:E2; clear E2.
  remember (Player.update G p2) as p3 eqn:E3; clear E3.
  rewrite Ha, Hc in Hm.
  unfold attack_ok, attack_move, attack_state_of in *.
  unfold Player.attack_duration, Player.attack_cooldown_duration in *.
  destruct (Player.is_attacking p) eqn:Ea.
  - (* Attacking *)
    rewrite andb_false_r in Hm. cbn in Hm. rewrite Hm, Ha, Ht, Hc in Hu.
    destruct Hok as (Hr & Hz). rewrite Hz in Hu. cbn in Hu.
    destruct (15 <=? Player.attack_timer p + 1) eqn:E;
      destruct Hu as (H1 & H2 & H3); rewrite H1, H2, H3; cbn.
    + apply Z.leb_le in E. split; [lia | split; [lia | reflexivity]].
    + apply Z.leb_gt in E. split; [lia | reflexivity].
  - destruct (0 <? Player.attack_cooldown p) eqn:Ec.
    + (* Cooldown *)
      apply Z.ltb_lt in Ec. destruct Hok as (Hz & Hr).
      replace (Player.attack_cooldown p =? 0) with false in Hm
        by (symmetry; apply Z.eqb_neq; lia).
      rewrite andb_false_r in Hm. rewrite Hm, Ha, Hc, Ht in Hu.
      replace (0 <? Player.attack_cooldown p) with true in Hu
        by (symmetry; apply Z.ltb_lt; lia).
      destruct Hu as (H1 & H2 & H3). rewrite H1, H2, H3.
      destruct (0 <? Player.attack_cooldown p - 1) eqn:E.
      * apply Z.ltb_lt in E. split; [lia | reflexivity].
      * apply Z.ltb_ge in E. split; [lia | lia].
    + (* Idle *)
      apply Z.ltb_ge in Ec. destruct Hok as (Hz & Hr).
      rewrite Hr in Hm. cbn in Hm. rewrite andb_true_r in Hm.
      destruct b; cbn in Hm.
      * destruct Hm as (M1 & M2 & M3). rewrite M1, M2, M3 in Hu. cbn in Hu.
        destruct Hu as (H1 & H2 & H3). rewrite H1, H2, H3. cbn.
        split; [lia | reflexivity].
      * rewrite Hm, Ha, Ht, Hc, Hr in Hu. cbn in Hu.
        destruct Hu as (H1 & H2 & H3). rewrite H1, H2, H3. cbn.
        split; [lia | exact I].
Qed.

Lemma attack_ok_init (x y w h : Z) : attack_ok (Player.init x y w h).
Proof. unfold attack_ok; cbn; lia. Qed.

Lemma attack_ok_run (inputs : list PlayerInput) (p : Player.t) :
  attack_ok p -> attack_ok (player_run inputs p).
Proof.
  revert p. induction inputs as [|[[G keys] b] inputs IH]; intros p Hok.
  - exact Hok.
  - cbn. apply IH. now apply attack_tick.
Qed.

Lemma attacking_lasts (more : list PlayerInput) (p : Player.t) :
  attack_ok p -> attack_state_of p = Attacking ->
  Z.of_nat (length more) = Player.attack_duration - Player.attack_timer p ->
  attack_state_of (player_run more p) = Cooldown.
Proof.
  revert p. induction more as [|[[G keys] b] more IH]; intros p Hok Hs Hlen.
  - unfold attack_ok in Hok. rewrite Hs in Hok.
    unfold Player.attack_duration in *. cbn [length] in Hlen. lia.
  - cbn [player_run fold_left].
    destruct (attack_tick G keys b p Hok) as (Hok' & Hmove).
    unfold attack_move in Hmove. rewrite Hs in Hmove.
    destruct (attack_state_of (player_tick G keys b p)) eqn:Hs'; try contradiction.
    + apply IH; auto. rewrite Hmove. cbn [length] in Hlen. lia.
    + destruct Hmove as (Hend & _).
      destruct more; [exact Hs' | cbn [length] in Hlen; lia].
Qed.

(** C10.  From a new player on, whatever the inputs: the attack counters
    stay in their ranges ([attack_timer] below the attack duration while
    attacking, [attack_cooldown] at most the cooldown length), every tick
    moves along Idle -> Attacking -> Cooldown -> Idle or stays, a click
    outside Idle starts nothing, and an attack ends in Cooldown exactly
    when its timer reaches the attack duration. *)
Theorem attack_cycle (x y w h : Z) (inputs : list PlayerInput)
        (G : Globals) (keys : Keys) (b : bool) :
  let p := player_run inputs (Player.init x y w h) in
  attack_ok p
  /\ attack_move p (player_tick G keys b p)
  /\ (attack_state_of p <> Idle ->
      Player.handle_mouse_attack b (Player.handle_input G keys p)
      = Player.handle_input G keys p)
  /\ (attack_state_of p = Attacking ->
      forall more : list PlayerInput,
        Z.of_nat (length more) = Player.attack_duration - Player.attack_timer p ->
        attack_state_of (player_run more p) = Cooldown).
Proof.
  intros p.
  assert (Hok : attack_ok p) by (apply attack_ok_run, attack_ok_init).
  split; [exact Hok|]. split; [now apply attack_tick|]. split.
  - intros H. apply handle_mouse_attack_guard.
    now rewrite attack_state_handle_input.
  - intros Hs more Hlen. now apply attacking_lasts.
Qed.

Lemma attack_cycle_witness :
  let click1 : PlayerInput := (initial_globals, no_keys, true) in
  let p := player_run [click1] (Player.init 500 400 48 48) in
  attack_state_of p = Attacking
  /\ Player.handle_mouse_attack true (Player.handle_input initial_globals no_keys p)
     = Player.handle_input initial_globals no_keys p
  /\ attack_state_of (player_run (repeat click1 14) p) = Cooldown.
Proof.
  intros click1 p.
  destruct (attack_cycle 500 400 48 48 [click1] initial_globals no_keys true)
    as (_ & _ & Hguard & Hlast).
  split; [reflexivity|]. split.
  - apply Hguard. discriminate.
  - apply Hlast; reflexivity.
Defined.

(** ** One tick of the session, pass by pass *)

Section Update.

Variable P : Platform.

Lemma update_not_playing (f : Frame) (g : Game.t) :
  Game.state g <> STATE_PLAYING -> Game.update P f g = Some g.
Proof.
  intros H. unfold Game.update.
  destruct (Game.state g); cbn; congruence.
Qed.

(** [update] with its intermediate values named by projections. *)
Lemma update_playing (f : Frame) (g : Game.t) (p0 : Player.t) :
  Game.state g = STATE_PLAYING -> Game.player g = Some p0 ->
  let G := Game.globals g in
  let p := player_tick G (keys f) (button0 f) p0 in
  let cs0 := filter MatrixCharacter.alive
                    (map MatrixCharacter.update (Game.characters g)) in
  let es0 := filter Enemy.alive (map Enemy.update (Game.enemies g)) in
  let ps0 := filter Pill.alive (map Pill.update (Game.pills g)) in
  let score1 := Game.score g + Game.award (Game.enemies g) in
  if 200 <=? score1 then
    Game.update P f g =
    Some (Game.mk (Game.running g) STATE_ROUND_COMPLETE (Some p) cs0 es0 ps0
                  score1 (Game.keys_collected g) (Game.health g)
                  (Game.spawn_timer g) (Game.game_time g)
                  (Game.current_round g) (Game.pill_offered g) G)
  else
    let offer := negb (Game.pill_offered g) && (999 <=? score1) in
    let ps1 := if offer then Game.spawn_pills G ps0 else ps0 in
    let spawn := 20 <? Game.spawn_timer g + 1 in
    let new := if spawn then Game.spawn_characters G (draws f) else ([], []) in
    let cc := Game.collect_characters p (cs0 ++ fst new) in
    let rc := Game.resolve_contacts P p (es0 ++ snd new) (Game.health g)
                                    STATE_PLAYING in
    let cp := Game.collect_pills p ps1 (enable_3d G) in
    Game.update P f g =
    Some (Game.mk (Game.running g)
                  (if snd (fst rc) <=? 0 then STATE_GAME_OVER else snd rc)
                  (Some (Game.set_pos_z (snd cp) p))
                  (fst (fst cc)) (Game.ranged_attack p (fst (fst rc)))
                  (fst (fst cp))
                  (score1 + snd (fst cc))
                  (Game.keys_collected g + snd cc)
                  (snd (fst rc))
                  (if spawn then 0 else Game.spawn_timer g + 1)
                  (Game.game_time g + 1)
                  (Game.current_round g)
                  (Game.pill_offered g || offer)
                  (mkGlobals (Game.ramp (Game.game_time g + 1) (drop_speed G))
                             (current_mode G) (snd (fst cp)))).
Proof.
  intros Hs Hp. cbv zeta. unfold Game.update, player_tick.
  rewrite Hs, Hp. cbn [game_state_eqb negb].
  destruct (200 <=? Game.score g + Game.award (Game.enemies g)); [reflexivity|].
  destruct (20 <? Game.spawn_timer g + 1);
    [destruct (Game.spawn_characters (Game.globals g) (draws f))|];
    cbn [fst snd]; split_tuple; reflexivity.
Qed.


Lemma resolve_contact_eq (p : Player.t) (done : list Enemy.t) (h : Z)
      (st : game_state) (e : Enemy.t) :
  Game.resolve_contact P p (done, h, st) e =
  (done ++ [contact_result P p e],
   h - 10 * misses p [e],
   if (0 <? misses p [e]) && (h - 10 * misses p [e] <=? 0)
   then STATE_GAME_OVER else st).
Proof.
  unfold Game.resolve_contact, contact_result, misses, touching, knocked.
  cbn [filter].
  destruct (colliderect (Player.rect p) (Enemy.rect e)).
  - destruct (Game.knock_direction P p e) as [kx ky]. cbn [fst snd].
    destruct (Game.parrying p); cbn [length Z.of_nat].
    + cbn. now rewrite Z.sub_0_r.
    + change (10 * Z.of_nat 1) with 10. cbn [Z.ltb Z.compare andb].
      reflexivity.
  - destruct (Game.parrying p); cbn; now rewrite Z.sub_0_r.
Qed.

Lemma misses_cons (p : Player.t) (e : Enemy.t) (es : list Enemy.t) :
  misses p (e :: es) = misses p [e] + misses p es.
Proof.
  unfold misses. destruct (Game.parrying p); [reflexivity|].
  cbn [filter]. destruct (touching p e); cbn [length]; lia.
Qed.

Lemma misses_nonneg (p : Player.t) (es : list Enemy.t) : 0 <= misses p es.
Proof. unfold misses. destruct (Game.parrying p); lia. Qed.

Lemma resolve_contacts_from (p : Player.t) (es done : list Enemy.t) (h : Z)
      (st : game_state) :
  fold_left (Game.resolve_contact P p) es (done, h, st) =
  (done ++ map (contact_result P p) es,
   h - 10 * misses p es,
   if (0 <? misses p es) && (h - 10 * misses p es <=? 0)
   then STATE_GAME_OVER else st).
Proof.
  revert done h st. induction es as [|e es IH]; intros done h st.
  - cbn [fold_left map]. rewrite app_nil_r.
    replace (misses p []) with 0 by (unfold misses; now destruct (Game.parrying p)).
    cbn. now rewrite Z.sub_0_r.
  - cbn [fold_left map]. rewrite resolve_contact_eq, IH, (misses_cons p e es).
    rewrite <- app_assoc. cbn [app].
    pose proof (misses_nonneg p [e]). pose proof (misses_nonneg p es).
    replace (h - 10 * misses p [e] - 10 * misses p es)
      with (h - 10 * (misses p [e] + misses p es)) by lia.
    f_equal.
    destruct (0 <? misses p [e]) eqn:E1; destruct (0 <? misses p es) eqn:E2;
      destruct (h - 10 * misses p [e] <=? 0) eqn:E3;
      destruct (0 <? misses p [e] + misses p es) eqn:E5;
      destruct (h - 10 * (misses p [e] + misses p es) <=? 0) eqn:E6;
      cbn [andb]; try reflexivity;
      repeat match goal with
             | H : (_ <? _) = true |- _ => apply Z.ltb_lt in H
             | H : (_ <? _) = false |- _ => apply Z.ltb_ge in H
             | H : (_ <=? _) = true |- _ => apply Z.leb_le in H
             | H : (_ <=? _) = false |- _ => apply Z.leb_gt in H
             end; lia.
Qed.

Lemma resolve_contacts_eq (p : Player.t) (es : list Enemy.t) (h : Z)
      (st : game_state) :
  Game.resolve_contacts P p es h st =
  (map (contact_result P p) es,
   h - 10 * misses p es,
   if (0 <? misses p es) && (h - 10 * misses p es <=? 0)
   then STATE_GAME_OVER else st).
Proof. unfold Game.resolve_contacts. now rewrite resolve_contacts_from. Qed.


Lemma award_nonneg (es : list Enemy.t) : 0 <= Game.award es.
Proof. unfold Game.award. lia. Qed.

Lemma update_without_player (f : Frame) (g : Game.t) :
  Game.state g = STATE_PLAYING -> Game.player g = None ->
  Game.update P f g = None.
Proof. intros Hs Hp. unfold Game.update. now rewrite Hs, Hp. Qed.

(** The pill pass leaves the group as it is or empties it. *)
Lemma collect_pills_group (p : Player.t) (ps : list Pill.t) (flag : bool) :
  fst (fst (Game.collect_pills p ps flag)) = ps
  /\ snd (fst (Game.collect_pills p ps flag)) = flag
  \/ fst (fst (Game.collect_pills p ps flag)) = [].
Proof.
  unfold Game.collect_pills.
  generalize (Player.pos_z p) as z.
  assert (H : forall l rest fl z,
             rest = ps /\ fl = flag \/ rest = [] ->
             let r := fold_left
                        (fun '(rest, flag, z) c =>
                           if colliderect (Player.rect p) (Pill.rect c) then
                             match Pill.kind c with
                             | red => ([], true, z)
                             | blue => ([], false, 0%Q)
                             end
                           else (rest, flag, z)) l (rest, fl, z) in
             fst (fst r) = ps /\ snd (fst r) = flag \/ fst (fst r) = []).
  { induction l as [|c l IH]; intros rest fl z0 Hr; cbn [fold_left].
    - exact Hr.
    - destruct (colliderect (Player.rect p) (Pill.rect c)).
      + destruct (Pill.kind c); apply IH; now right.
      + now apply IH. }
  intros z. apply H. now left.
Qed.

Lemma filter_update_incl (ps : list Pill.t) :
  incl (filter Pill.alive (map Pill.update ps)) (map Pill.update ps).
Proof. intros x Hx. now apply filter_In in Hx. Qed.

(** On no tick does [update] offer pills: the round-complete test on the
    same score comes first and returns. *)
Lemma update_never_offers (f : Frame) (g g' : Game.t) :
  Game.update P f g = Some g' ->
  Game.pill_offered g' = Game.pill_offered g
  /\ (Game.pills g' = Game.pills g
      \/ incl (Game.pills g') (map Pill.update (Game.pills g))).
Proof.
  intros Hu.
  destruct (game_state_eqb (Game.state g) STATE_PLAYING) eqn:Hs.
  - assert (Hs' : Game.state g = STATE_PLAYING)
      by (destruct (Game.state g); cbn in Hs; congruence).
    destruct (Game.player g) as [p0|] eqn:Hp;
      [|rewrite (update_without_player f g Hs' Hp) in Hu; discriminate].
    pose proof (update_playing f g p0 Hs' Hp) as Hspec. cbv zeta in Hspec.
    destruct (200 <=? Game.score g + Game.award (Game.enemies g)) eqn:E.
    + rewrite Hspec in Hu. injection Hu as <-. cbn.
      split; [reflexivity | right; apply filter_update_incl].
    + apply Z.leb_gt in E.
      replace (999 <=? Game.score g + Game.award (Game.enemies g)) with false
        in Hspec by (symmetry; apply Z.leb_gt; lia).
      rewrite andb_false_r in Hspec.
      rewrite Hspec in Hu. injection Hu as <-. cbn.
      split; [apply orb_false_r|]. right.
      match goal with
      | |- incl (fst (fst (Game.collect_pills ?p ?ps ?fl))) _ =>
          destruct (collect_pills_group p ps fl) as [[-> _] | ->]
      end.
      * apply filter_update_incl.
      * intros x [].
  - rewrite update_not_playing in Hu
      by (destruct (Game.state g); cbn in Hs; congruence).
    injection Hu as <-. auto.
Qed.


(** *** What holds of every session *)

Lemma fold_left_invariant {A B : Type} (I : A -> Prop) (f : A -> B -> A)
      (l : list B) (a : A) :
  (forall a x, I a -> I (f a x)) -> I a -> I (fold_left f l a).
Proof.
  intros Hf. revert a. induction l as [|x l IH]; intros a Ha; cbn; auto.
Qed.

Lemma no_pill_start_game (g : Game.t) :
  enable_3d (Game.globals g) = false -> no_pill (Game.start_game P g).
Proof. intros H. repeat split; auto. Qed.

Lemma no_pill_show_menu (evs : list Event) (g : Game.t) :
  no_pill g -> no_pill (Game.show_menu P evs g).
Proof.
  apply fold_left_invariant. intros a [|[]] Ha; try exact Ha;
    apply no_pill_start_game; apply Ha.
Qed.

Lemma menu_show_menu (evs : list Event) (g : Game.t) :
  (Game.state g <> STATE_MENU -> has_player g) ->
  Game.state (Game.show_menu P evs g) <> STATE_MENU ->
  has_player (Game.show_menu P evs g).
Proof.
  apply (fold_left_invariant
           (fun g => Game.state g <> STATE_MENU -> has_player g)).
  intros a [|[]] Ha; try exact Ha; intros _; discriminate.
Qed.

Lemma no_pill_handle_events (evs : list Event) (g : Game.t) :
  no_pill g -> no_pill (Game.handle_events evs g).
Proof. apply fold_left_invariant. intros a [|[]] Ha; exact Ha. Qed.

Lemma has_player_handle_events (evs : list Event) (g : Game.t) :
  has_player g -> has_player (Game.handle_events evs g).
Proof. apply fold_left_invariant. intros a [|[]] Ha; exact Ha. Qed.

Lemma no_pill_draw (evs : list Event) (g : Game.t) :
  no_pill g -> no_pill (Game.draw evs g).
Proof.
  unfold Game.draw. destruct (Game.state g); auto;
    apply fold_left_invariant; intros a [|[]] Ha; try exact Ha.
  unfold no_pill in *. destruct (3 <=? Game.current_round a); [exact Ha|].
  destruct Ha as (_ & H1 & H2). cbn. auto.
Qed.

Lemma has_player_draw (evs : list Event) (g : Game.t) :
  has_player g -> has_player (Game.draw evs g).
Proof.
  unfold Game.draw. destruct (Game.state g); auto;
    apply fold_left_invariant; intros a [|[]] Ha; try exact Ha.
  unfold has_player in *. destruct (3 <=? Game.current_round a); exact Ha.
Qed.

Lemma update_total (f : Frame) (g : Game.t) :
  has_player g ->
  exists g', Game.update P f g = Some g' /\ has_player g'.
Proof.
  intros Hh.
  destruct (game_state_eqb (Game.state g) STATE_PLAYING) eqn:Hs.
  - assert (Hs' : Game.state g = STATE_PLAYING)
      by (destruct (Game.state g); cbn in Hs; congruence).
    destruct (Game.player g) as [p0|] eqn:Hp0; [|now elim Hh].
    pose proof (update_playing f g p0 Hs' Hp0) as Hspec. cbv zeta in Hspec.
    destruct (200 <=? Game.score g + Game.award (Game.enemies g));
      eexists; (split; [exact Hspec | cbn; discriminate]).
  - exists g. split; [|exact Hh]. apply update_not_playing.
    destruct (Game.state g); cbn in Hs; congruence.
Qed.

Lemma no_pill_update (f : Frame) (g g' : Game.t) :
  no_pill g -> Game.update P f g = Some g' -> no_pill g'.
Proof.
  intros (Hps & Hoff & H3d) Hu.
  destruct (update_never_offers f g g' Hu) as (Ho & Hp).
  assert (Hps' : Game.pills g' = []).
  { rewrite Hps in Hp. destruct Hp as [Hp|Hp]; [exact Hp|].
    cbn in Hp. destruct (Game.pills g') as [|x l]; [reflexivity|].
    elim (Hp x). now left. }
  split; [exact Hps'|]. split; [congruence|].
  destruct (game_state_eqb (Game.state g) STATE_PLAYING) eqn:Hs.
  - assert (Hs' : Game.state g = STATE_PLAYING)
      by (destruct (Game.state g); cbn in Hs; congruence).
    destruct (Game.player g) as [p0|] eqn:Hp0;
      [|rewrite (update_without_player f g Hs' Hp0) in Hu; discriminate].
    pose proof (update_playing f g p0 Hs' Hp0) as Hspec. cbv zeta in Hspec.
    destruct (200 <=? Game.score g + Game.award (Game.enemies g)) eqn:E.
    + rewrite Hspec in Hu. injection Hu as <-. exact H3d.
    + apply Z.leb_gt in E.
      replace (999 <=? Game.score g + Game.award (Game.enemies g)) with false
        in Hspec by (symmetry; apply Z.leb_gt; lia).
      rewrite andb_false_r, Hps in Hspec. cbn in Hspec.
      rewrite Hspec in Hu. injection Hu as <-. exact H3d.
  - rewrite update_not_playing in Hu
      by (destruct (Game.state g); cbn in Hs; congruence).
    injection Hu as <-. exact H3d.
Qed.

Lemma session_ok_init : session_ok Game.init.
Proof. split; [repeat split | intros H; now elim H]. Qed.

Lemma session_ok_step (f : Frame) (g : Game.t) :
  session_ok g -> exists g', Game.step P f g = Some g' /\ session_ok g'.
Proof.
  intros (Hn & Hp). unfold Game.step.
  destruct (Game.state g) eqn:Hs.
  - eexists. split; [reflexivity|]. split.
    + now apply no_pill_show_menu.
    + apply menu_show_menu. now rewrite Hs.
  - assert (Hh : has_player (Game.handle_events (events f) g))
      by (apply has_player_handle_events, Hp; discriminate).
    destruct (update_total f _ Hh) as (g1 & Hu & Hh1).
    rewrite Hu. cbn [option_map]. eexists. split; [reflexivity|]. split.
    + apply no_pill_draw. eapply no_pill_update; [|exact Hu].
      now apply no_pill_handle_events.
    + intros _. now apply has_player_draw.
  - eexists. split; [reflexivity|]. split.
    + now apply no_pill_draw.
    + intros _. apply has_player_draw, Hp. discriminate.
  - eexists. split; [reflexivity|]. split.
    + now apply no_pill_draw.
    + intros _. apply has_player_draw, Hp. discriminate.
Qed.

Lemma session_ok_run (fs : list Frame) (g : Game.t) :
  session_ok g -> exists g', Game.run P fs g = Some g' /\ session_ok g'.
Proof.
  revert g. induction fs as [|f fs IH]; intros g Hok; cbn [Game.run].
  - now exists g.
  - destruct (Game.running g); [|now exists g].
    destruct (session_ok_step f g Hok) as (g1 & -> & Hok1). now apply IH.
Qed.

End Update.

(** ** Pills *)

(** C2.  [update] never reaches the pill spawn: on every tick, from any
    state, it leaves [pill_offered] as it was and adds no pill to the
    group (the round-complete test on the same score comes first and
    returns), whereas [spawn_pills] would always add pills.  Hence in
    every session, after any number of passes of the main loop, there is
    no pill, none has been offered and [enable_3d] is false; and the loop
    never fails. *)
Theorem pills_unreachable (P : Platform) :
  (forall (f : Frame) (g g' : Game.t),
      Game.update P f g = Some g' ->
      Game.pill_offered g' = Game.pill_offered g
      /\ (Game.pills g' = Game.pills g
          \/ incl (Game.pills g') (map Pill.update (Game.pills g))))
  /\ (forall (G : Globals) (ps : list Pill.t), Game.spawn_pills G ps <> [])
  /\ (forall fs : list Frame,
        exists g, Game.run P fs Game.init = Some g
                  /\ Game.pills g = []
                  /\ Game.pill_offered g = false
                  /\ enable_3d (Game.globals g) = false).
Proof.
  split; [apply update_never_offers|]. split.
  - intros G ps H. unfold Game.spawn_pills in H.
    now apply app_eq_nil in H as [_ H].
  - intros fs.
    destruct (session_ok_run P fs Game.init (session_ok_init)) as (g & Hr & Hn & _).
    exists g. split; [exact Hr | exact Hn].
Qed.

(** A tick at a score of 1000 completes the round and offers nothing;
    three hundred ticks of play under falling collectibles see no pill. *)
Lemma pills_unreachable_witness :
  (exists g', Game.update placeholder_platform idle (contact_state 1000 100) = Some g'
              /\ Game.state g' = STATE_ROUND_COMPLETE
              /\ Game.pill_offered g' = false /\ Game.pills g' = [])
  /\ exists g, Game.run placeholder_platform (collecting 300) Game.init = Some g
               /\ Game.state g = STATE_PLAYING
               /\ Game.pills g = [] /\ Game.pill_offered g = false
               /\ enable_3d (Game.globals g) = false.
Proof.
  destruct (pills_unreachable placeholder_platform) as (Hupdate & _ & Hrun).
  split.
  - destruct (Game.update placeholder_platform idle (contact_state 1000 100))
      as [g'|] eqn:E; [|vm_compute in E; discriminate].
    destruct (Hupdate _ _ _ E) as (Ho & Hp).
    exists g'. split; [reflexivity|].
    assert (Hs : Game.state g' = STATE_ROUND_COMPLETE)
      by (vm_compute in E; injection E as <-; reflexivity).
    split; [exact Hs|]. split; [exact Ho|].
    destruct Hp as [Hp|Hp]; [exact Hp|].
    destruct (Game.pills g') as [|x l]; [reflexivity|]. elim (Hp x). now left.
  - destruct (Hrun (collecting 300)) as (g & Hr & Hp & Ho & H3).
    exists g. split; [exact Hr|]. split; [|auto].
    assert (E : option_map Game.state
                  (Game.run placeholder_platform (collecting 300) Game.init)
                = Some STATE_PLAYING) by (vm_compute; reflexivity).
    rewrite Hr in E. now injection E.
Defined.

(** ** Health and score within one tick *)

(** C3.  A Playing tick that lowers the health (only missed parries do)
    to zero or below ends in GameOver, whatever the score is at the end of
    that tick. *)
Theorem health_zero_is_game_over (P : Platform) (f : Frame) (g g' : Game.t) :
  Game.state g = STATE_PLAYING ->
  Game.update P f g = Some g' ->
  Game.health g' < Game.health g ->
  Game.health g' <= 0 ->
  Game.state g' = STATE_GAME_OVER.
Proof.
  intros Hs Hu Hlt Hz.
  destruct (Game.player g) as [p0|] eqn:Hp;
    [|rewrite (update_without_player P f g Hs Hp) in Hu; discriminate].
  pose proof (update_playing P f g p0 Hs Hp) as Hspec. cbv zeta in Hspec.
  destruct (200 <=? Game.score g + Game.award (Game.enemies g)).
  - rewrite Hspec in Hu. injection Hu as <-. cbn in Hlt. lia.
  - rewrite Hspec in Hu. injection Hu as <-. cbn in Hz |- *.
    apply Z.leb_le in Hz. now rewrite Hz.
Qed.

(** The last ten points of health lost on the tick on which a pickup
    brings the score to 200: GameOver, not RoundComplete. *)
Lemma health_zero_is_game_over_witness :
  exists g', Game.update placeholder_platform idle last_stand = Some g'
             /\ 200 <= Game.score g' /\ Game.health g' = 0
             /\ Game.state g' = STATE_GAME_OVER.
Proof.
  destruct (Game.update placeholder_platform idle last_stand) as [g'|] eqn:E;
    [|vm_compute in E; discriminate].
  exists g'. split; [reflexivity|].
  pose proof E as E'. vm_compute in E'. injection E' as E'.
  assert (Hh : Game.health g' = 0) by (now rewrite <- E').
  assert (Hsc : Game.score g' = 200) by (now rewrite <- E').
  split; [lia|]. split; [exact Hh|].
  apply (health_zero_is_game_over placeholder_platform idle last_stand g');
    [reflexivity | exact E | rewrite Hh; cbn; lia | lia].
Defined.

(** C5, amended.  When the score with the awards for destroyed enemies
    is at least 200, the tick ends in RoundComplete.  Otherwise the tick
    does not end in RoundComplete: if pickups bring the score to 200 or
    more on it and health stays positive, the state is still Playing at
    its end, and the next tick ends in RoundComplete whatever its input. *)
Theorem round_completes (P : Platform) (f : Frame) (g g' : Game.t) :
  Game.state g = STATE_PLAYING ->
  Game.update P f g = Some g' ->
  (200 <= Game.score g + Game.award (Game.enemies g) ->
   Game.state g' = STATE_ROUND_COMPLETE
   /\ Game.score g' = Game.score g + Game.award (Game.enemies g))
  /\ (Game.score g + Game.award (Game.enemies g) < 200 ->
      Game.state g' <> STATE_ROUND_COMPLETE
      /\ (200 <= Game.score g' -> 0 < Game.health g' ->
          Game.state g' = STATE_PLAYING
          /\ forall f2 : Frame,
               exists g2, Game.update P f2 g' = Some g2
                          /\ Game.state g2 = STATE_ROUND_COMPLETE)).
Proof.
  intros Hs Hu.
  destruct (Game.player g) as [p0|] eqn:Hp;
    [|rewrite (update_without_player P f g Hs Hp) in Hu; discriminate].
  pose proof (update_playing P f g p0 Hs Hp) as Hspec. cbv zeta in Hspec.
  destruct (200 <=? Game.score g + Game.award (Game.enemies g)) eqn:E.
  - apply Z.leb_le in E. rewrite Hspec in Hu. injection Hu as <-.
    cbn [Game.state Game.score].
    split; [auto | intros H; lia].
  - apply Z.leb_gt in E. split; [intros H; lia|]. intros _.
    rewrite Hspec in Hu. clear Hspec.
    assert (Hst : Game.state g' <> STATE_ROUND_COMPLETE
                  /\ (0 < Game.health g' -> Game.state g' = STATE_PLAYING)
                  /\ has_player g').
    { injection Hu as <-. unfold has_player.
      cbn [Game.state Game.health Game.player].
      rewrite resolve_contacts_eq. cbn [fst snd].
      match goal with
      | |- context [if ?h1 <=? 0 then STATE_GAME_OVER else _] =>
          destruct (h1 <=? 0) eqn:Ec
      end; rewrite ?andb_false_r; cbv iota.
      - apply Z.leb_le in Ec.
        split; [discriminate|]. split; [intros H; lia | discriminate].
      - split; [discriminate|]. split; [reflexivity | discriminate]. }
    destruct Hst as (Hnrc & Hpl & Hh). split; [exact Hnrc|].
    intros Hsc Hhe. split; [auto|]. intros f2.
    destruct (Game.player g') as [p1|] eqn:Hp1; [|now elim Hh].
    pose proof (update_playing P f2 g' p1 (Hpl Hhe) Hp1) as Hspec2.
    cbv zeta in Hspec2.
    pose proof (award_nonneg (Game.enemies g')).
    replace (200 <=? Game.score g' + Game.award (Game.enemies g')) with true
      in Hspec2 by (symmetry; apply Z.leb_le; lia).
    eexists. split; [exact Hspec2 | reflexivity].
Qed.

Lemma before_200_reached :
  Game.run placeholder_platform (collecting 4251) Game.init = Some before_200.
Proof. vm_compute. reflexivity. Qed.

(** The tick on which the two-hundredth collectible is picked up. *)
Lemma round_completes_witness :
  exists g',
    Game.run placeholder_platform (collecting 4251) Game.init = Some before_200
    /\ Game.update placeholder_platform collect before_200 = Some g'
    /\ Game.score before_200 < 200 <= Game.score g'
    /\ Game.state g' = STATE_PLAYING
    /\ forall f2 : Frame,
         exists g2, Game.update placeholder_platform f2 g' = Some g2
                    /\ Game.state g2 = STATE_ROUND_COMPLETE.
Proof.
  destruct (Game.update placeholder_platform collect before_200) as [g'|] eqn:Eg';
    [|vm_compute in Eg'; discriminate].
  exists g'. split; [exact before_200_reached|]. split; [reflexivity|].
  assert (Hg' : Game.score g' = 200 /\ Game.health g' = 100).
  { pose proof Eg' as E. vm_compute in E. injection E as <-. split; reflexivity. }
  destruct Hg' as (Hsc' & Hh').
  destruct (round_completes placeholder_platform collect before_200 g'
                            eq_refl Eg') as (_ & H).
  destruct H as (_ & H); [vm_compute; reflexivity|].
  destruct H as (Hpl & Hnext); [lia | lia |].
  split; [|split; [exact Hpl | exact Hnext]].
  rewrite Hsc'. split; [vm_compute; reflexivity | lia].
Defined.

(** C5 as stated fails: from the menu, after 4251 ticks under the column
    of collectibles the score is 199; the next tick picks one up, the score
    is 200 with full health, and the state at the end of that tick is
    Playing. *)
Lemma pickup_reaches_200_still_playing :
  forallb frame_ok (collecting 4251 ++ [collect]) = true
  /\ match Game.run placeholder_platform (collecting 4251) Game.init with
     | Some g =>
         match Game.update placeholder_platform collect g with
         | Some g' =>
             Game.state g = STATE_PLAYING
             /\ Game.score g = 199 /\ Game.score g' = 200
             /\ Game.health g' = 100
             /\ Game.state g' = STATE_PLAYING
         | None => False
         end
     | None => False
     end.
Proof. vm_compute. repeat split. Qed.

(** ** Parry or miss *)




(** The health after a tick that reaches the contact pass. *)
Lemma update_health (P : Platform) (f : Frame) (g g' : Game.t) (p0 : Player.t) :
  Game.state g = STATE_PLAYING -> Game.player g = Some p0 ->
  Game.score g + Game.award (Game.enemies g) < 200 ->
  Game.update P f g = Some g' ->
  let p := player_tick (Game.globals g) (keys f) (button0 f) p0 in
  let es := filter Enemy.alive (map Enemy.update (Game.enemies g))
            ++ snd (if 20 <? Game.spawn_timer g + 1
                    then Game.spawn_characters (Game.globals g) (draws f)
                    else ([], [])) in
  Game.health g' = Game.health g - 10 * misses p es.
Proof.
  intros Hs Hp Hsc Hu.
  pose proof (update_playing P f g p0 Hs Hp) as Hspec. cbv zeta in Hspec.
  replace (200 <=? Game.score g + Game.award (Game.enemies g)) with false
    in Hspec by (symmetry; apply Z.leb_gt; lia).
  rewrite Hspec in Hu. injection Hu as <-. cbv zeta. cbn [Game.health].
  now rewrite resolve_contacts_eq.
Qed.


(** ** The wall jump *)

Lemma at_left_wall_reached : player_after to_left_wall = Some at_left_wall.
Proof. vm_compute. reflexivity. Qed.

Lemma handle_input_jump (G : Globals) (keys : Keys) (p : Player.t) :
  Player.side_view p = true ->
  is_math (current_mode G) = false ->
  Player.up_pressed (Player.handle_input G keys p) = true ->
  Player.prev_up_pressed p = false ->
  let p' := Player.handle_input G keys p in
  (Player.vy p', Player.vx p', Player.on_ground p', Player.on_wall p',
   Player.jumps_left p') = Player.jump p.
Proof.
  intros Hsv Hm Hup Hprev.
  assert (Hu : Player.up_pressed (Player.handle_input G keys p)
               = (if enable_3d G && K_SPACE keys then true
                  else if enable_3d G then false else K_w keys || K_SPACE keys)).
  { unfold Player.handle_input. split_tuple. reflexivity. }
  rewrite Hup in Hu.
  cbv zeta. unfold Player.handle_input.
  rewrite Hsv, Hm, Hprev, <- Hu. cbn [andb negb].
  destruct (Player.jump p) as [[[[a b] c] d] e]. reflexivity.
Qed.

Lemma handle_input_fly (G : Globals) (keys : Keys) (p : Player.t) :
  Player.side_view p = true ->
  is_math (current_mode G) = true ->
  Player.up_pressed (Player.handle_input G keys p) = true ->
  let p' := Player.handle_input G keys p in
  (Player.vy p', Player.vx p', Player.on_ground p', Player.on_wall p',
   Player.jumps_left p')
  = (-6, Player.vx p, false, Player.on_wall p, Player.jumps_left p).
Proof.
  intros Hsv Hm Hup.
  assert (Hu : Player.up_pressed (Player.handle_input G keys p)
               = (if enable_3d G && K_SPACE keys then true
                  else if enable_3d G then false else K_w keys || K_SPACE keys)).
  { unfold Player.handle_input. split_tuple. reflexivity. }
  rewrite Hup in Hu.
  cbv zeta. unfold Player.handle_input.
  rewrite Hsv, Hm, <- Hu. reflexivity.
Qed.

(** C7, amended.  On the rising edge of the up control in side view, an
    airborne player in wall contact gets, outside the mode "math", the
    vertical velocity [int(jump_strength * 0.9)], which is -14, and the
    horizontal impulse velocity 10 off a left wall, -10 off a right wall,
    and the wall contact ends.  In the mode "math" the same press is no
    wall jump: the vertical velocity is the thrust -6, and the impulse and
    the wall contact are as before. *)
Theorem wall_jump (G : Globals) (keys : Keys) (p : Player.t) :
  Player.side_view p = true ->
  Player.up_pressed (Player.handle_input G keys p) = true ->
  Player.prev_up_pressed p = false ->
  Player.on_ground p = false ->
  Player.on_wall p = true ->
  let p' := Player.handle_input G keys p in
  if is_math (current_mode G) then
    Player.vy p' = -6
    /\ Player.vx p' = Player.vx p
    /\ Player.on_wall p' = true
  else
    Player.vy p' = Qtrunc (ZtoQ Player.jump_strength * (9 # 10))
    /\ Player.vy p' = -14
    /\ (Player.wall_dir p = Some dir_left -> Player.vx p' = 10%Q)
    /\ (Player.wall_dir p = Some dir_right -> Player.vx p' = (-10)%Q)
    /\ Player.on_wall p' = false.
Proof.
  intros Hsv Hup Hprev Hg Hw p'.
  destruct (is_math (current_mode G)) eqn:Hm.
  - pose proof (handle_input_fly G keys p Hsv Hm Hup) as Hj.
    cbv zeta in Hj. fold p' in Hj. injection Hj as Hvy Hvx _ Hwall _.
    split; [exact Hvy|]. split; [exact Hvx | congruence].
  - pose proof (handle_input_jump G keys p Hsv Hm Hup Hprev) as Hj.
    cbv zeta in Hj. fold p' in Hj.
    unfold Player.jump in Hj. rewrite Hg, Hw in Hj.
    injection Hj as Hvy Hvx _ Hwall _.
    repeat split; try assumption.
    + intros Hd. now rewrite Hd in Hvx.
    + intros Hd. now rewrite Hd in Hvx.
Qed.

(** The wall jump of the player in contact with the left wall, and the
    same press in the mode "math". *)
Lemma wall_jump_witness :
  let p' := Player.handle_input initial_globals key_a_w at_left_wall in
  let p'' := Player.handle_input (mkGlobals 2 mode_math false) key_a_w at_left_wall in
  player_after to_left_wall = Some at_left_wall
  /\ Player.on_wall at_left_wall = true
  /\ Player.vy at_left_wall = -13
  /\ Player.vy p' = -14 /\ Player.vx p' = 10%Q
  /\ Player.vy p'' = -6 /\ Player.vx p'' = 0%Q /\ Player.on_wall p'' = true.
Proof.
  intros p' p''.
  pose proof (wall_jump initial_globals key_a_w at_left_wall
                        eq_refl eq_refl eq_refl eq_refl eq_refl) as H1.
  pose proof (wall_jump (mkGlobals 2 mode_math false) key_a_w at_left_wall
                        eq_refl eq_refl eq_refl eq_refl eq_refl) as H2.
  cbv zeta in H1, H2.
  change (is_math (current_mode initial_globals)) with false in H1.
  change (is_math (current_mode (mkGlobals 2 mode_math false))) with true in H2.
  cbv iota in H1, H2.
  destruct H1 as (_ & Hvy & Hvx & _). destruct H2 as (Hvy2 & Hvx2 & Hw2).
  split; [exact at_left_wall_reached|].
  split; [reflexivity|]. split; [reflexivity|]. split; [exact Hvy|].
  split; [apply Hvx; reflexivity|].
  split; [exact Hvy2|]. split; [exact Hvx2 | exact Hw2].
Defined.

(** C7 as stated fails: the wall jump of the player in contact with the
    left wall sets the vertical velocity to -14, and 90% of the jump strength
    is -14.4. *)
Lemma wall_jump_is_not_ninety_percent :
  match player_after to_left_wall with
  | Some p =>
      let p' := Player.handle_input initial_globals key_a_w p in
      Player.on_wall p = true /\ Player.on_ground p = false
      /\ Player.wall_dir p = Some dir_left
      /\ Player.prev_up_pressed p = false /\ Player.up_pressed p' = true
      /\ Player.vy p' = -14
      /\ ~ (ZtoQ (Player.vy p') == (9 # 10) * ZtoQ Player.jump_strength)%Q
  | None => False
  end.
Proof. vm_compute. repeat split. intros H. discriminate H. Qed.

(** ** Knockback decay *)

Lemma qmul_correct (a b : Q) : (qmul a b == a * b)%Q.
Proof. apply Qred_correct. Qed.

Lemma update_knocked_back (e : Enemy.t) :
  Enemy.knocked_back e = true ->
  Enemy.knocked_back (Enemy.update e) = true
  /\ (Enemy.knockback_vx (Enemy.update e) == Enemy.knockback_decay * Enemy.knockback_vx e)%Q
  /\ (Enemy.knockback_vy (Enemy.update e) == Enemy.knockback_decay * Enemy.knockback_vy e)%Q.
Proof.
  intros Hk. unfold Enemy.update. rewrite Hk.
  cbn [Enemy.knocked_back Enemy.knockback_vx Enemy.knockback_vy].
  rewrite !qmul_correct. repeat split; ring.
Qed.

Lemma iter_update_knocked_back (n : nat) (e : Enemy.t) :
  Enemy.knocked_back e = true ->
  Enemy.knocked_back (Nat.iter n Enemy.update e) = true
  /\ (Enemy.knockback_vx (Nat.iter n Enemy.update e)
      == qpow Enemy.knockback_decay n * Enemy.knockback_vx e)%Q
  /\ (Enemy.knockback_vy (Nat.iter n Enemy.update e)
      == qpow Enemy.knockback_decay n * Enemy.knockback_vy e)%Q.
Proof.
  intros Hk. induction n as [|n (IHk & IHx & IHy)]; cbn [Nat.iter nat_rect qpow].
  - split; [exact Hk|]. split; ring.
  - destruct (update_knocked_back _ IHk) as (Hk' & Hx & Hy).
    split; [exact Hk'|]. rewrite Hx, Hy, IHx, IHy. split; ring.
Qed.

(** C9, amended.  With the products taken exactly, each update of an
    enemy in knockback multiplies both components of its knockback
    velocity by 0.95, so after [n] updates by [0.95 ^ n]; the squared
    magnitude is multiplied by [0.95 * 0.95]: it strictly decreases when it
    is not zero and stays zero when it is.  The doubles of the program
    round each product, and at the bottom of their range the decrease
    ends: the velocity 35 of a hit at range is, after 14536 updates, nine
    times the least positive double, and every later update returns that
    same value, which is not zero. *)
Theorem knockback_decays (e : Enemy.t) :
  Enemy.knocked_back e = true ->
  (Enemy.knockback_speed2 (Enemy.update e)
   == Enemy.knockback_decay * Enemy.knockback_decay * Enemy.knockback_speed2 e)%Q
  /\ (~ (Enemy.knockback_speed2 e == 0)%Q ->
      (Enemy.knockback_speed2 (Enemy.update e) < Enemy.knockback_speed2 e)%Q)
  /\ ((Enemy.knockback_speed2 e == 0)%Q ->
      (Enemy.knockback_speed2 (Enemy.update e) == 0)%Q)
  /\ (forall n : nat,
      (Enemy.knockback_vx (Nat.iter n Enemy.update e)
       == qpow Enemy.knockback_decay n * Enemy.knockback_vx e)%Q
      /\ (Enemy.knockback_vy (Nat.iter n Enemy.update e)
          == qpow Enemy.knockback_decay n * Enemy.knockback_vy e)%Q)
  /\ (Nat.iter 14536 Doubles.decay Doubles.ranged_hit = Doubles.stalled
      /\ Doubles.decay Doubles.stalled = Doubles.stalled
      /\ Doubles.positive Doubles.stalled = true).
Proof.
  intros Hk. destruct (update_knocked_back e Hk) as (_ & Hx & Hy).
  assert (Hs : (Enemy.knockback_speed2 (Enemy.update e)
                == Enemy.knockback_decay * Enemy.knockback_decay
                   * Enemy.knockback_speed2 e)%Q).
  { unfold Enemy.knockback_speed2. rewrite Hx, Hy. ring. }
  split; [exact Hs|].
  assert (Hnn : (0 <= Enemy.knockback_speed2 e)%Q).
  { unfold Enemy.knockback_speed2.
    generalize (Enemy.knockback_vx e) (Enemy.knockback_vy e). intros a b. nra. }
  split; [|split; [|split]].
  - intros Hnz. rewrite Hs. unfold Enemy.knockback_decay.
    assert (Hpos : (0 < Enemy.knockback_speed2 e)%Q).
    { apply Qle_lteq in Hnn. destruct Hnn as [H|H]; [exact H|].
      elim Hnz. now symmetry. }
    lra.
  - intros Hz. rewrite Hs, Hz. ring.
  - intros n. apply (iter_update_knocked_back n e Hk).
  - repeat split; vm_compute; reflexivity.
Qed.

(** A hit at range to the right, with force 35. *)
Lemma knockback_decays_witness :
  let e := Enemy.apply_knockback 1 0 35 (Enemy.init initial_globals 600 300 14 28) in
  (Enemy.knockback_speed2 e == 1225)%Q
  /\ (Enemy.knockback_speed2 (Enemy.update e) < Enemy.knockback_speed2 e)%Q.
Proof.
  intros e. split; [reflexivity|].
  destruct (knockback_decays e eq_refl) as (_ & Hlt & _).
  apply Hlt. intros H. discriminate H.
Defined.

(** C9 as stated fails: an enemy drawn at the very position of the flying
    player touches it with direction (0, 0); it is in knockback with
    velocity zero, its next update leaves it on screen, and the magnitude
    does not decrease. *)
Lemma zero_knockback_does_not_decrease :
  forallb frame_ok enemy_on_player = true
  /\ match Game.run placeholder_platform enemy_on_player Game.init with
     | Some g =>
         match Game.enemies g with
         | [e] =>
             Enemy.knocked_back e = true
             /\ Enemy.alive (Enemy.update e) = true
             /\ ~ (Enemy.knockback_speed2 (Enemy.update e)
                   < Enemy.knockback_speed2 e)%Q
         | _ => False
         end
     | None => False
     end.
Proof. vm_compute. repeat split. intros H. discriminate H. Qed.

(** ** Physics on attacking ticks *)

Lemma Qltb_lt (a b : Q) : Qltb a b = true <-> (a < b)%Q.
Proof.
  unfold Qltb. rewrite negb_true_iff, <- not_true_iff_false, Qle_bool_iff.
  split; [apply Qnot_le_lt | apply Qlt_not_le].
Qed.

Lemma Qltb_ge (a b : Q) : Qltb a b = false <-> (b <= a)%Q.
Proof.
  unfold Qltb. rewrite negb_false_iff. apply Qle_bool_iff.
Qed.

Lemma update_while_attacking (G : Globals) (p : Player.t) :
  Player.is_attacking p = true ->
  kinematics (Player.update G p) = kinematics p.
Proof. intros Ha. unfold Player.update. now rewrite Ha. Qed.

(** The sibling path: off the attack, [update] integrates gravity and
    leaves the player between the walls. *)
Lemma update_while_not_attacking (G : Globals) (p : Player.t) :
  Player.is_attacking p = false ->
  Player.side_view p = true ->
  0 <= Player.rect_width p <= SCREEN_WIDTH ->
  let p' := Player.update G p in
  (Player.half_w p' <= Player.pos_x p' <= ZtoQ SCREEN_WIDTH - Player.half_w p')%Q
  /\ (Player.on_ground p' = true ->
      Player.pos_y p' = qsub (ZtoQ MATRIX_HEIGHT) (Player.half_h p'))
  /\ (Player.on_ground p' = false ->
      Player.on_wall p' = false ->
      is_math (current_mode G) && Player.up_pressed p = false ->
      Player.vy p' = Player.vy p + Player.gravity
      /\ (Player.pos_y p' == Player.pos_y p + ZtoQ (Player.vy p'))%Q).
Proof.
  intros Ha Hsv Hw. cbv zeta. unfold Player.update. rewrite Ha, Hsv.
  unfold Player.half_w, Player.half_h.
  cbn [Player.pos_x Player.pos_y Player.rect_width Player.rect_height
       Player.on_ground Player.on_wall Player.vy].
  set (hw := qdiv (ZtoQ (Player.rect_width p)) 2).
  assert (Hhw : (2 * hw == ZtoQ (Player.rect_width p))%Q)
    by (unfold hw, qdiv; rewrite Qred_correct; field).
  assert (H0 : (0 <= ZtoQ (Player.rect_width p))%Q)
    by (unfold ZtoQ; change 0%Q with (inject_Z 0); rewrite <- Zle_Qle; lia).
  assert (H1 : (ZtoQ (Player.rect_width p) <= ZtoQ SCREEN_WIDTH)%Q)
    by (unfold ZtoQ; rewrite <- Zle_Qle; lia).
  set (x1 := if Qltb (1 # 2) (Qabs (Player.vx p))
             then qadd (Player.pos_x p) (Player.vx p) else Player.pos_x p).
  split; [|split].
  - destruct (Qltb (qsub x1 hw) 0) eqn:Elow.
    + split; lra.
    + apply Qltb_ge in Elow. unfold qsub in Elow. rewrite Qred_correct in Elow.
      destruct (Qltb (ZtoQ SCREEN_WIDTH) (qadd x1 hw)) eqn:Ehigh.
      * unfold qsub. rewrite Qred_correct. split; lra.
      * apply Qltb_ge in Ehigh. unfold qadd in Ehigh.
        rewrite Qred_correct in Ehigh. split; lra.
  - intros Hl. now rewrite Hl.
  - intros Hl Hwall Hfly. rewrite Hl. rewrite Hwall, Hfly. cbn [negb].
    split; [reflexivity|]. unfold qadd. rewrite Qred_correct. reflexivity.
Qed.

(** The vertical half of the bounds: a grounded player stands on the floor
    line, on attacking ticks too. *)
Lemma handle_input_vertical (G : Globals) (keys : Keys) (p : Player.t) :
  let p' := Player.handle_input G keys p in
  Player.side_view p' = Player.side_view p
  /\ Player.rect_height p' = Player.rect_height p
  /\ (Player.side_view p = true -> Player.pos_y p' = Player.pos_y p)
  /\ (Player.on_ground p' = true -> Player.on_ground p = true).
Proof.
  cbv zeta. unfold Player.handle_input.
  match goal with
  | |- context [match ?X with (_, _) => _ end] =>
      destruct X as [[[[a b] c] d] e] eqn:EX
  end.
  cbn [Player.side_view Player.rect_height Player.pos_y Player.on_ground].
  split; [reflexivity|]. split; [reflexivity|]. split.
  - intros Hsv. now rewrite Hsv.
  - intros Hc. subst c. unfold Player.jump in EX.
    repeat match type of EX with
           | (if ?x then _ else _) = _ => destruct x eqn:?
           end; congruence.
Qed.

Lemma on_floor_tick (G : Globals) (keys : Keys) (b : bool) (p : Player.t) :
  on_floor p -> on_floor (player_tick G keys b p).
Proof.
  intros (Hsv & Hy). unfold player_tick.
  destruct (handle_input_vertical G keys p) as (Hsv1 & Hh1 & Hy1 & Hg1).
  remember (Player.handle_input G keys p) as p1 eqn:E1. clear E1.
  assert (H1 : on_floor p1).
  { split; [congruence|]. intros Hg. unfold Player.half_h.
    rewrite Hh1, (Hy1 Hsv). apply Hy. auto. }
  clear Hsv Hy Hsv1 Hh1 Hy1 Hg1 p.
  assert (H2 : on_floor (Player.handle_mouse_attack b p1)).
  { unfold Player.handle_mouse_attack.
    destruct (b && negb (Player.is_attacking p1) && (Player.attack_cooldown p1 =? 0));
      exact H1. }
  remember (Player.handle_mouse_attack b p1) as p2 eqn:E2. clear E2 H1 p1.
  destruct H2 as (Hsv & Hy). unfold on_floor, Player.update, Player.half_h.
  destruct (Player.is_attacking p2); [split; assumption|].
  rewrite Hsv.
  cbn [Player.side_view Player.on_ground Player.pos_y Player.rect_height].
  split; [reflexivity|]. intros Hl. now rewrite Hl.
Qed.

Lemma on_floor_run (inputs : list PlayerInput) (p : Player.t) :
  on_floor p -> on_floor (player_run inputs p).
Proof.
  revert p. induction inputs as [|[[G keys] b] inputs IH]; intros p Hp.
  - exact Hp.
  - cbn. apply IH. now apply on_floor_tick.
Qed.

(** C1, at the failing input.  A player jumps and clicks in the air:
    on the tick of the click and on the next one the position and the
    velocity stay (461, -15), although the player is airborne; the same
    tick without the click applies gravity and moves the player to
    (447, -14). *)
Theorem attack_freezes_physics :
  option_map kinematics (player_after [any_key; idle; hold key_w])
  = Some (500%Q, 461%Q, -15, 0%Q, false)
  /\ option_map kinematics (player_after [any_key; idle; hold key_w; idle])
     = Some (500%Q, 447%Q, -14, 0%Q, false)
  /\ option_map kinematics (player_after jump_then_click)
     = Some (500%Q, 461%Q, -15, 0%Q, false)
  /\ option_map kinematics (player_after (jump_then_click ++ [idle]))
     = Some (500%Q, 461%Q, -15, 0%Q, false)
  /\ option_map Player.is_attacking (player_after jump_then_click) = Some true.
Proof. vm_compute. repeat split. Qed.

(** C4, at the failing input.  Walking left for eighty ticks ends at the
    wall, x = 24 = half the width; with a click on the last tick the
    player ends that tick attacking at x = 20, left of the half width. *)
Theorem attack_skips_clamp :
  option_map kinematics (player_after walk_left)
  = Some (24%Q, 476%Q, 0, 0%Q, true)
  /\ match player_after walk_left_then_click with
     | Some p =>
         Player.is_attacking p = true
         /\ kinematics p = (20%Q, 476%Q, 0, 0%Q, true)
         /\ Player.half_w p = 24%Q
         /\ (Player.pos_x p < Player.half_w p)%Q
     | None => False
     end.
Proof. vm_compute. repeat split. Qed.

(** ** The difficulty speed *)

Lemma ramp_below_cap (t : Z) (s : Q) :
  (s <= 10)%Q -> (s <= Game.ramp t s)%Q.
Proof.
  intros Hs. unfold Game.ramp. destruct (t mod 300 =? 0); [|lra].
  unfold qmin, qadd. rewrite Qred_correct.
  apply Q.min_glb; [rewrite Qred_correct; lra | exact Hs].
Qed.

Lemma ramp_above_cap (t : Z) (s : Q) :
  t mod 300 = 0 -> (10 < s)%Q -> (Game.ramp t s == 10)%Q.
Proof.
  intros Ht Hs. unfold Game.ramp. rewrite Ht. cbn [Z.eqb].
  unfold qmin, qadd. rewrite Qred_correct.
  apply Q.min_r. rewrite Qred_correct. lra.
Qed.

(** C8, at the failing input.  A first game won in three rounds leaves
    [drop_speed] at 11; in the second game of the same session the ramp of
    tick 300 sets it to 10.  All draws are within their ranges. *)
Theorem ramp_lowers_drop_speed :
  forallb frame_ok (second_game 300) = true
  /\ option_map (fun g => (Game.state g, Game.game_time g, drop_speed (Game.globals g)))
                (Game.run placeholder_platform (second_game 299) Game.init)
     = Some (STATE_PLAYING, 299, 11%Q)
  /\ option_map (fun g => (Game.state g, Game.game_time g, drop_speed (Game.globals g)))
                (Game.run placeholder_platform (second_game 300) Game.init)
     = Some (STATE_PLAYING, 300, 10%Q).
Proof. vm_compute. repeat split. Qed.

(** * Further properties *)

(** ** The session *)

(** Reduce the projections of a session that a function has just built. *)
Ltac session_fields :=
  cbn [Game.running Game.state Game.player Game.characters Game.enemies
       Game.pills Game.score Game.keys_collected Game.health Game.spawn_timer
       Game.game_time Game.current_round Game.pill_offered Game.globals
       drop_speed current_mode enable_3d in_play].

Lemma collect_characters_from (p : Player.t) (cs rest : list MatrixCharacter.t)
      (points count : Z) :
  fold_left
    (fun '(rest, points, count) c =>
       if colliderect (Player.rect p) (MatrixCharacter.rect c)
       then (rest, points + MatrixCharacter.point_value c, count + 1)
       else (rest ++ [c], points, count))
    cs (rest, points, count)
  = (rest ++ filter (fun c => negb (touches_character p c)) cs,
     points + points_of (filter (touches_character p) cs),
     count + Z.of_nat (length (filter (touches_character p) cs))).
Proof.
  unfold touches_character. revert rest points count.
  induction cs as [|c cs IH]; intros rest points count; cbn [fold_left filter].
  - cbn. now rewrite app_nil_r, !Z.add_0_r.
  - destruct (colliderect (Player.rect p) (MatrixCharacter.rect c)) eqn:E;
      cbn [negb]; rewrite IH.
    + cbn [points_of fold_right length].
      f_equal; [f_equal|]; unfold points_of; lia.
    + rewrite <- app_assoc. reflexivity.
Qed.

Lemma collect_characters_eq (p : Player.t) (cs : list MatrixCharacter.t) :
  Game.collect_characters p cs
  = (filter (fun c => negb (touches_character p c)) cs,
     points_of (filter (touches_character p) cs),
     Z.of_nat (length (filter (touches_character p) cs))).
Proof.
  unfold Game.collect_characters. now rewrite collect_characters_from.
Qed.

Lemma points_of_ones (cs : list MatrixCharacter.t) :
  Forall character_ok cs -> points_of cs = Z.of_nat (length cs).
Proof.
  induction 1 as [|c cs (Hc & _) _ IH]; cbn [points_of fold_right length].
  - reflexivity.
  - fold (points_of cs). rewrite IH, Hc. lia.
Qed.

Lemma Forall_filter {A : Type} (Q : A -> Prop) (f : A -> bool) (l : list A) :
  Forall Q l -> Forall Q (filter f l).
Proof.
  intros H. apply Forall_forall. intros x Hx. apply filter_In in Hx.
  rewrite Forall_forall in H. apply H, Hx.
Qed.

Lemma characters_after_update (cs : list MatrixCharacter.t) :
  Forall character_ok cs ->
  Forall character_ok (filter MatrixCharacter.alive (map MatrixCharacter.update cs)).
Proof.
  intros H. apply Forall_forall. intros c Hc.
  apply filter_In in Hc as (Hin & Hal). apply in_map_iff in Hin as (c0 & <- & Hin0).
  rewrite Forall_forall in H. destruct (H c0 Hin0) as (Hp & Hs & _).
  repeat split; assumption.
Qed.

Lemma enemy_ok_update (e : Enemy.t) :
  enemy_ok e -> Enemy.alive (Enemy.update e) = true -> enemy_ok (Enemy.update e).
Proof.
  intros (Hk & Hs & _) Hal. unfold Enemy.update in *.
  destruct (Enemy.knocked_back e); repeat split; assumption.
Qed.

Lemma enemies_after_update (es : list Enemy.t) :
  Forall enemy_ok es ->
  Forall enemy_ok (filter Enemy.alive (map Enemy.update es)).
Proof.
  intros H. apply Forall_forall. intros e He.
  apply filter_In in He as (Hin & Hal). apply in_map_iff in Hin as (e0 & <- & Hin0).
  rewrite Forall_forall in H. now apply enemy_ok_update; [apply H|].
Qed.

Lemma enemy_ok_knockback (dx dy force : Q) (e : Enemy.t) :
  enemy_ok e -> enemy_ok (Enemy.apply_knockback dx dy force e).
Proof. intros (_ & Hs & Ha). repeat split; assumption. Qed.

Lemma enemy_ok_contact (P : Platform) (p : Player.t) (e : Enemy.t) :
  enemy_ok e -> enemy_ok (contact_result P p e).
Proof.
  intros H. unfold contact_result, knocked.
  destruct (touching p e); [now apply enemy_ok_knockback | exact H].
Qed.

Lemma enemies_after_ranged (p : Player.t) (es : list Enemy.t) :
  Forall enemy_ok es -> Forall enemy_ok (Game.ranged_attack p es).
Proof.
  intros H. unfold Game.ranged_attack.
  destruct (Player.is_attacking p); [|exact H].
  destruct (Player.get_attack_hitbox p) as [hb|]; [|exact H].
  apply Forall_forall. intros e He. apply in_map_iff in He as (e0 & <- & Hin).
  rewrite Forall_forall in H.
  destruct (colliderect hb (Enemy.rect e0)
            && negb (colliderect (Player.rect p) (Enemy.rect e0))); [|now apply H].
  destruct (Game.facing_direction p). now apply enemy_ok_knockback, H.
Qed.

Lemma spawned_ok (G : Globals) (d : Draws) :
  (2 <= drop_speed G)%Q ->
  Forall character_ok (fst (Game.spawn_characters G d))
  /\ Forall enemy_ok (snd (Game.spawn_characters G d)).
Proof.
  intros HG. unfold Game.spawn_characters. cbn [fst snd]. split.
  - apply Forall_forall. intros c Hc. apply in_map_iff in Hc as ([[[x y] w] h] & <- & _).
    repeat split. exact HG.
  - destruct (new_enemy d) as [[[[x y] w] h]|]; [|constructor].
    constructor; [|constructor]. repeat split. cbn [Enemy.speed Enemy.init].
    unfold qadd. rewrite Qred_correct. lra.
Qed.

Lemma ramp_at_least_2 (t : Z) (s : Q) : (2 <= s)%Q -> (2 <= Game.ramp t s)%Q.
Proof.
  intros Hs. unfold Game.ramp. destruct (t mod 300 =? 0); [|exact Hs].
  unfold qmin, qadd. rewrite Qred_correct.
  apply Q.min_glb; [rewrite Qred_correct; lra | lra].
Qed.

Lemma session_inv_update (P : Platform) (f : Frame) (g g' : Game.t) :
  session_inv g -> Game.update P f g = Some g' -> session_inv g'.
Proof.
  intros Hi Hu.
  destruct (game_state_eqb (Game.state g) STATE_PLAYING) eqn:Hs.
  2:{ rewrite update_not_playing in Hu
        by (destruct (Game.state g); cbn in Hs; congruence).
      now injection Hu as <-. }
  assert (Hs' : Game.state g = STATE_PLAYING)
    by (destruct (Game.state g); cbn in Hs; congruence).
  destruct (Game.player g) as [p0|] eqn:Hp;
    [|rewrite (update_without_player P f g Hs' Hp) in Hu; discriminate].
  pose proof (update_playing P f g p0 Hs' Hp) as Hspec. cbv zeta in Hspec.
  destruct Hi as [Hround Hhealth Halive Htimer Htime Hspeed Hcs Hes Hscore Hlater].
  pose proof (award_nonneg (Game.enemies g)) as Haw.
  assert (Haw10 : (10 | Game.award (Game.enemies g)))
    by (unfold Game.award; apply Z.divide_factor_l).
  assert (Hh0 : 0 < Game.health g) by (apply Halive; now rewrite Hs').
  destruct Hscore as (Hk & Hd).
  destruct (200 <=? Game.score g + Game.award (Game.enemies g)) eqn:E.
  - apply Z.leb_le in E. rewrite Hspec in Hu. injection Hu as <-.
    constructor; cbn [Game.current_round Game.health Game.state Game.spawn_timer
                      Game.game_time Game.globals Game.characters Game.enemies
                      Game.score Game.keys_collected in_play]; auto.
    + now apply characters_after_update.
    + now apply enemies_after_update.
    + split; [lia|].
      replace (Game.score g + Game.award (Game.enemies g) - Game.keys_collected g)
        with (Game.score g - Game.keys_collected g + Game.award (Game.enemies g))
        by lia.
      now apply Z.divide_add_r.
  - apply Z.leb_gt in E. rewrite Hspec in Hu. clear Hspec. injection Hu as <-.
    set (p := player_tick (Game.globals g) (keys f) (button0 f) p0).
    set (new := if 20 <? Game.spawn_timer g + 1
                then Game.spawn_characters (Game.globals g) (draws f)
                else ([], [])).
    assert (Hnew : Forall character_ok (fst new) /\ Forall enemy_ok (snd new)).
    { unfold new. destruct (20 <? Game.spawn_timer g + 1);
        [now apply spawned_ok | split; constructor]. }
    destruct Hnew as (Hnc & Hne).
    set (cs1 := filter MatrixCharacter.alive
                       (map MatrixCharacter.update (Game.characters g)) ++ fst new).
    set (es1 := filter Enemy.alive (map Enemy.update (Game.enemies g)) ++ snd new).
    assert (Hcs1 : Forall character_ok cs1)
      by (apply Forall_app; split; [now apply characters_after_update | exact Hnc]).
    assert (Hes1 : Forall enemy_ok es1)
      by (apply Forall_app; split; [now apply enemies_after_update | exact Hne]).
    rewrite collect_characters_eq, resolve_contacts_eq. cbn [fst snd].
    pose proof (misses_nonneg p es1) as Hm.
    assert (Hpts : points_of (filter (touches_character p) cs1)
                   = Z.of_nat (length (filter (touches_character p) cs1)))
      by (apply points_of_ones; now apply Forall_filter).
    constructor; cbn [Game.current_round Game.health Game.state Game.spawn_timer
                      Game.game_time Game.globals Game.characters Game.enemies
                      Game.score Game.keys_collected drop_speed].
    + exact Hround.
    + destruct Hhealth as (Hle & Hdiv). split; [lia|].
      apply Z.divide_sub_r; [exact Hdiv|]. apply Z.divide_factor_l.
    + destruct (Game.health g - 10 * misses p es1 <=? 0) eqn:Eh;
        [cbn; discriminate|]. intros _. apply Z.leb_gt in Eh. exact Eh.
    + destruct (20 <? Game.spawn_timer g + 1) eqn:Et; [lia|].
      apply Z.ltb_ge in Et. lia.
    + lia.
    + now apply ramp_at_least_2.
    + now apply Forall_filter.
    + apply enemies_after_ranged. apply Forall_forall. intros e He.
      apply in_map_iff in He as (e0 & <- & Hin). apply enemy_ok_contact.
      rewrite Forall_forall in Hes1. now apply Hes1.
    + rewrite Hpts. split; [lia|].
      replace (Game.score g + Game.award (Game.enemies g)
               + Z.of_nat (length (filter (touches_character p) cs1))
               - (Game.keys_collected g
                  + Z.of_nat (length (filter (touches_character p) cs1))))
        with (Game.score g - Game.keys_collected g + Game.award (Game.enemies g))
        by lia.
      now apply Z.divide_add_r.
    + intros [Hrc|Hr2].
      * destruct (Game.health g - 10 * misses p es1 <=? 0); [discriminate|].
        destruct ((0 <? misses p es1) && false); discriminate.
      * assert (200 <= Game.score g) by (apply Hlater; now right). lia.
Qed.

Lemma fresh_game_inv (running : bool) (p : option Player.t) (G : Globals) :
  (2 <= drop_speed G)%Q ->
  session_inv (Game.mk running STATE_PLAYING p [] [] [] 0 0 100 0 0 1 false G).
Proof.
  intros HG. constructor; session_fields.
  - lia.
  - split; [lia | exists 10; reflexivity].
  - lia.
  - lia.
  - lia.
  - exact HG.
  - constructor.
  - constructor.
  - split; [lia | exists 0; reflexivity].
  - intros [H|H]; [discriminate | lia].
Qed.

Lemma session_inv_init : session_inv Game.init.
Proof.
  constructor; cbn.
  - lia.
  - split; [lia | exists 10; reflexivity].
  - discriminate.
  - lia.
  - lia.
  - lra.
  - constructor.
  - constructor.
  - split; [lia | exists 0; reflexivity].
  - intros [H|H]; [discriminate | lia].
Qed.

Lemma session_inv_start_game (P : Platform) (g : Game.t) :
  session_inv g -> session_inv (Game.start_game P g).
Proof. intros Hi. apply fresh_game_inv, Hi. Qed.

Lemma session_inv_set_running (b : bool) (g : Game.t) :
  session_inv g -> session_inv (Game.set_running b g).
Proof. intros []. constructor; assumption. Qed.

Lemma session_inv_set_mode (m : mode) (g : Game.t) :
  session_inv g -> session_inv (Game.set_mode m g).
Proof. intros []. constructor; assumption. Qed.

Lemma session_inv_to_menu (g : Game.t) :
  session_inv g -> session_inv (Game.to_menu g).
Proof.
  intros [H1 H2 H3 H4 H5 H6 H7 H8 H9 H10].
  constructor; unfold Game.to_menu; session_fields; try assumption;
    try constructor.
  - discriminate.
  - intros [H|H]; [discriminate|]. apply H10. now right.
Qed.

Lemma session_inv_show_menu (P : Platform) (evs : list Event) (g : Game.t) :
  session_inv g -> session_inv (Game.show_menu P evs g).
Proof.
  apply fold_left_invariant. intros a [|[]] Ha;
    try (now apply session_inv_set_running); now apply session_inv_start_game.
Qed.

Lemma session_inv_handle_events (evs : list Event) (g : Game.t) :
  session_inv g -> session_inv (Game.handle_events evs g).
Proof.
  apply fold_left_invariant. intros a [|[]] Ha; cbn [Game.handle_event];
    try exact Ha.
  - now apply session_inv_set_running.
  - now apply session_inv_to_menu.
  - now apply session_inv_set_mode.
Qed.

Lemma session_inv_game_over (g : Game.t) :
  session_inv g -> session_inv (Game.set_state STATE_GAME_OVER g).
Proof.
  intros [H1 H2 H3 H4 H5 H6 H7 H8 H9 H10].
  constructor; unfold Game.set_state; session_fields; try assumption.
  - discriminate.
  - intros [H|H]; [discriminate|]. apply H10. now right.
Qed.

Lemma session_inv_next_round (g : Game.t) :
  session_inv g -> 200 <= Game.score g -> Game.current_round g < 3 ->
  session_inv (Game.start_next_round g).
Proof.
  intros [H1 H2 H3 H4 H5 H6 H7 H8 H9 H10] Hsc Hr.
  constructor; unfold Game.start_next_round; session_fields.
  - lia.
  - split; [lia | exists 10; reflexivity].
  - lia.
  - lia.
  - exact H5.
  - unfold qadd. rewrite Qred_correct. lra.
  - constructor.
  - constructor.
  - exact H9.
  - intros _. exact Hsc.
Qed.

Lemma session_inv_draw (evs : list Event) (g : Game.t) :
  session_inv g -> session_inv (Game.draw evs g).
Proof.
  intros Hi. unfold Game.draw. destruct (Game.state g) eqn:Hs; try exact Hi.
  - (* game over *)
    revert Hi. apply fold_left_invariant. intros a [|[]] Ha; try exact Ha.
    + now apply session_inv_set_running.
    + now apply session_inv_to_menu.
  - (* round complete: the score is at least 200 throughout the loop *)
    assert (H200 : 200 <= Game.score g)
      by (apply (inv_later_rounds g Hi); now left).
    assert (H : session_inv g /\ 200 <= Game.score g) by (split; assumption).
    revert H. unfold Game.draw_round_complete.
    apply (fold_left_invariant (fun g => session_inv g /\ 200 <= Game.score g)).
    intros a [|[]] (Ha & Hsc); try (split; [exact Ha | exact Hsc]).
    + split; [now apply session_inv_set_running | exact Hsc].
    + destruct (3 <=? Game.current_round a) eqn:E.
      * split; [now apply session_inv_game_over | exact Hsc].
      * apply Z.leb_gt in E.
        split; [now apply session_inv_next_round | exact Hsc].
Qed.

Lemma session_inv_step (P : Platform) (f : Frame) (g g' : Game.t) :
  session_inv g -> Game.step P f g = Some g' -> session_inv g'.
Proof.
  intros Hi Hst. unfold Game.step in Hst. destruct (Game.state g).
  - injection Hst as <-. now apply session_inv_show_menu.
  - destruct (Game.update P f (Game.handle_events (events f) g)) as [g1|] eqn:Hu;
      [|discriminate].
    injection Hst as <-. apply session_inv_draw.
    eapply session_inv_update; [|exact Hu]. now apply session_inv_handle_events.
  - injection Hst as <-. now apply session_inv_draw.
  - injection Hst as <-. now apply session_inv_draw.
Qed.

Lemma session_inv_run (P : Platform) (fs : list Frame) (g g' : Game.t) :
  session_inv g -> Game.run P fs g = Some g' -> session_inv g'.
Proof.
  revert g. induction fs as [|f fs IH]; intros g Hi Hr; cbn [Game.run] in Hr.
  - now injection Hr as <-.
  - destruct (Game.running g); [|now injection Hr as <-].
    destruct (Game.step P f g) as [g1|] eqn:Hs; [|discriminate].
    apply (IH g1); [|exact Hr]. eapply session_inv_step; eassumption.
Qed.

(** Every session reaches a state, and the state has the invariant. *)
Lemma session_reached (P : Platform) (fs : list Frame) :
  exists g, Game.run P fs Game.init = Some g /\ session_ok g /\ session_inv g.
Proof.
  destruct (session_ok_run P fs Game.init session_ok_init) as (g & Hr & Hok).
  exists g. split; [exact Hr|]. split; [exact Hok|].
  eapply session_inv_run; [apply session_inv_init | exact Hr].
Qed.

(** X1.  In every state that the main loop reaches from a new game, the
    round number is 1, 2 or 3: the round-complete screen starts a next
    round only below round 3. *)
Theorem round_at_most_three (P : Platform) (fs : list Frame) (g : Game.t) :
  Game.run P fs Game.init = Some g ->
  1 <= Game.current_round g <= 3.
Proof.
  intros Hr. apply (inv_round g).
  eapply session_inv_run; [apply session_inv_init | exact Hr].
Qed.

Lemma after_three_rounds_reached :
  Game.run placeholder_platform
           (collecting 4253 ++ [confirm; idle; confirm; idle; confirm]) Game.init
  = Some after_three_rounds.
Proof. vm_compute. reflexivity. Qed.

(** The bound is reached: a game played through its three rounds. *)
Lemma round_at_most_three_witness :
  Game.current_round after_three_rounds = 3
  /\ Game.state after_three_rounds = STATE_GAME_OVER
  /\ 1 <= Game.current_round after_three_rounds <= 3.
Proof.
  split; [reflexivity|]. split; [reflexivity|].
  exact (round_at_most_three placeholder_platform _ after_three_rounds
                             after_three_rounds_reached).
Defined.

(** X2.  In every state that a session reaches the health is a multiple
    of ten and at most 100, and it is positive while the state is Playing
    or RoundComplete: a tick that brings it to zero or below ends in
    GameOver. *)
Theorem health_in_play (P : Platform) (fs : list Frame) :
  exists g, Game.run P fs Game.init = Some g
            /\ Game.health g <= 100
            /\ (10 | Game.health g)
            /\ (Game.state g = STATE_PLAYING \/ Game.state g = STATE_ROUND_COMPLETE ->
                0 < Game.health g).
Proof.
  destruct (session_reached P fs) as (g & Hr & _ & Hi).
  exists g. split; [exact Hr|]. destruct (inv_health g Hi) as (H1 & H2).
  split; [exact H1|]. split; [exact H2|].
  intros Hs. apply (inv_alive g Hi). destruct Hs as [-> | ->]; reflexivity.
Qed.

(** X3.  In every state that a session reaches the score is the number
    of collectibles picked up plus ten for each enemy destroyed:
    [keys_collected] is between 0 and the score, their difference is a
    multiple of ten, and every collectible on the field is worth one
    point. *)
Theorem score_accounting (P : Platform) (fs : list Frame) :
  exists g, Game.run P fs Game.init = Some g
            /\ 0 <= Game.keys_collected g <= Game.score g
            /\ (10 | Game.score g - Game.keys_collected g)
            /\ Forall (fun c => MatrixCharacter.point_value c = 1)
                      (Game.characters g).
Proof.
  destruct (session_reached P fs) as (g & Hr & _ & Hi).
  exists g. split; [exact Hr|]. destruct (inv_score g Hi) as (H1 & H2).
  split; [exact H1|]. split; [exact H2|].
  eapply Forall_impl; [|apply (inv_characters g Hi)]. intros c Hc. apply Hc.
Qed.

(** X4.  In every state that a session reaches [drop_speed] is at least
    its initial value 2, every collectible on the field falls at a speed
    of at least 2 and every enemy at a speed of at least 3. *)
Theorem speeds_at_least_initial (P : Platform) (fs : list Frame) :
  exists g, Game.run P fs Game.init = Some g
            /\ (2 <= drop_speed (Game.globals g))%Q
            /\ Forall (fun c => (2 <= MatrixCharacter.speed c)%Q) (Game.characters g)
            /\ Forall (fun e => (3 <= Enemy.speed e)%Q) (Game.enemies g).
Proof.
  destruct (session_reached P fs) as (g & Hr & _ & Hi).
  exists g. split; [exact Hr|]. split; [apply Hi|]. split.
  - eapply Forall_impl; [|apply (inv_characters g Hi)]. intros c Hc. apply Hc.
  - eapply Forall_impl; [|apply (inv_enemies g Hi)]. intros c Hc. apply Hc.
Qed.

(** X5.  In every state that a session reaches an enemy carries the mark
    [was_hit_by_player] exactly when it is knocked back.  So an enemy
    that falls off the field without having been knocked back is not
    counted as destroyed, and the award of the next tick is ten times
    the number of knocked-back enemies that its update removes. *)
Theorem falling_enemy_scores_nothing (P : Platform) (fs : list Frame) :
  exists g, Game.run P fs Game.init = Some g
            /\ (forall e, In e (Game.enemies g) ->
                          Enemy.knocked_back e = false ->
                          Game.destroyed_by_player e = false)
            /\ Game.award (Game.enemies g)
               = 10 * Z.of_nat (length (filter
                   (fun e => Enemy.knocked_back e
                             && negb (Enemy.alive (Enemy.update e)))
                   (Game.enemies g))).
Proof.
  destruct (session_reached P fs) as (g & Hr & _ & Hi).
  exists g. split; [exact Hr|]. pose proof (inv_enemies g Hi) as He.
  rewrite Forall_forall in He. split.
  - intros e Hin Hk. destruct (He e Hin) as (Heq & _).
    unfold Game.destroyed_by_player. rewrite <- Heq, Hk. apply andb_false_r.
  - unfold Game.award. do 3 f_equal. apply filter_ext_in. intros e Hin.
    destruct (He e Hin) as (Heq & _). unfold Game.destroyed_by_player.
    rewrite <- Heq. apply andb_comm.
Qed.

(** X6.  A session in play in round 2 or 3 has kept its score of 200 or
    more, so its next [update] sets RoundComplete at once, before the
    spawn, the collisions and the clock: health, [game_time],
    [spawn_timer] and the globals are as before. *)
Theorem later_rounds_end_on_first_tick (P : Platform) (fs : list Frame) (f : Frame)
        (g : Game.t) :
  Game.run P fs Game.init = Some g ->
  Game.state g = STATE_PLAYING -> 2 <= Game.current_round g ->
  exists g', Game.update P f g = Some g'
             /\ Game.state g' = STATE_ROUND_COMPLETE
             /\ Game.health g' = Game.health g
             /\ Game.game_time g' = Game.game_time g
             /\ Game.spawn_timer g' = Game.spawn_timer g
             /\ Game.globals g' = Game.globals g.
Proof.
  intros Hrun Hs Hr2.
  destruct (session_reached P fs) as (g0 & Hr & (_ & Hpl) & Hi).
  rewrite Hrun in Hr. injection Hr as <-.
  assert (Hsc : 200 <= Game.score g) by (apply (inv_later_rounds g Hi); now right).
  destruct (Game.player g) as [p0|] eqn:Hp;
    [|elim Hpl; [rewrite Hs; discriminate | exact Hp]].
  pose proof (update_playing P f g p0 Hs Hp) as Hspec. cbv zeta in Hspec.
  pose proof (award_nonneg (Game.enemies g)).
  replace (200 <=? Game.score g + Game.award (Game.enemies g)) with true
    in Hspec by (symmetry; apply Z.leb_le; lia).
  eexists. split; [exact Hspec|]. repeat split.
Qed.

(** The play that reaches [round_two]. *)
Lemma round_two_reached :
  Game.run placeholder_platform (collecting 4253 ++ [confirm]) Game.init
  = Some round_two.
Proof. vm_compute. reflexivity. Qed.

Lemma later_rounds_end_on_first_tick_witness :
  Game.current_round round_two = 2
  /\ Game.score round_two = 200
  /\ exists g', Game.update placeholder_platform idle round_two = Some g'
                /\ Game.state g' = STATE_ROUND_COMPLETE
                /\ Game.health g' = Game.health round_two
                /\ Game.game_time g' = Game.game_time round_two
                /\ Game.spawn_timer g' = Game.spawn_timer round_two
                /\ Game.globals g' = Game.globals round_two.
Proof.
  split; [reflexivity|]. split; [reflexivity|].
  apply (later_rounds_end_on_first_tick placeholder_platform
           (collecting 4253 ++ [confirm]) idle round_two);
    [exact round_two_reached | reflexivity | vm_compute; discriminate].
Defined.

(** X7.  When [update] returns from a state that a session has reached,
    neither the score nor [keys_collected] is lower after it than
    before. *)
Theorem score_never_decreases (P : Platform) (fs : list Frame) (f : Frame)
        (g g' : Game.t) :
  Game.run P fs Game.init = Some g ->
  Game.update P f g = Some g' ->
  Game.score g <= Game.score g'
  /\ Game.keys_collected g <= Game.keys_collected g'.
Proof.
  intros Hr Hu.
  assert (Hi : session_inv g)
    by (eapply session_inv_run; [apply session_inv_init | exact Hr]).
  destruct (game_state_eqb (Game.state g) STATE_PLAYING) eqn:Hs.
  - assert (Hs' : Game.state g = STATE_PLAYING)
      by (destruct (Game.state g); cbn in Hs; congruence).
    destruct (Game.player g) as [p0|] eqn:Hp;
      [|rewrite (update_without_player P f g Hs' Hp) in Hu; discriminate].
    pose proof (update_playing P f g p0 Hs' Hp) as Hspec. cbv zeta in Hspec.
    pose proof (award_nonneg (Game.enemies g)).
    destruct (200 <=? Game.score g + Game.award (Game.enemies g)).
    + rewrite Hspec in Hu. injection Hu as <-. session_fields. lia.
    + rewrite Hspec in Hu. injection Hu as <-.
      session_fields. rewrite collect_characters_eq. cbn [fst snd].
      rewrite points_of_ones.
      * lia.
      * apply Forall_filter, Forall_app. split.
        -- apply characters_after_update, Hi.
        -- destruct (20 <? Game.spawn_timer g + 1);
             [apply spawned_ok, Hi | constructor].
  - rewrite update_not_playing in Hu
      by (destruct (Game.state g); cbn in Hs; congruence).
    injection Hu as <-. lia.
Qed.

(** The tick on which the two-hundredth collectible is picked up. *)
Lemma score_never_decreases_witness :
  exists g',
    Game.update placeholder_platform collect before_200 = Some g'
    /\ Game.score before_200 = 199
    /\ Game.score before_200 <= Game.score g'
    /\ Game.keys_collected before_200 <= Game.keys_collected g'.
Proof.
  destruct (Game.update placeholder_platform collect before_200) as [g'|] eqn:Eg';
    [|vm_compute in Eg'; discriminate].
  exists g'. split; [reflexivity|]. split; [reflexivity|].
  exact (score_never_decreases placeholder_platform (collecting 4251) collect
                               before_200 g' before_200_reached Eg').
Defined.

(** ** Quitting *)

Lemma fold_quit (h : Game.t -> Event -> Game.t) (evs : list Event) (g : Game.t) :
  (forall g ev, stopped g -> stopped (h g ev)) ->
  (forall g, stopped (h g QUIT)) ->
  In QUIT evs -> stopped (fold_left h evs g).
Proof.
  intros Hkeep Hquit. revert g.
  induction evs as [|ev evs IH]; intros g Hin; [elim Hin|].
  cbn [fold_left]. destruct Hin as [-> | Hin]; [|now apply IH].
  apply fold_left_invariant; [intros; now apply Hkeep | apply Hquit].
Qed.

Lemma show_menu_step_stopped (P : Platform) (g : Game.t) (ev : Event) :
  stopped g ->
  stopped (match ev with
           | QUIT => Game.set_running false g
           | KEYDOWN K_ESCAPE => Game.set_running false g
           | KEYDOWN _ => Game.start_game P g
           end).
Proof. intros H. destruct ev as [|[]]; try reflexivity; exact H. Qed.

Lemma show_menu_quit (P : Platform) (evs : list Event) (g : Game.t) :
  In QUIT evs -> stopped (Game.show_menu P evs g).
Proof.
  unfold Game.show_menu. apply fold_quit.
  - intros g0 ev. apply show_menu_step_stopped.
  - reflexivity.
Qed.

Lemma handle_event_stopped (g : Game.t) (ev : Event) :
  stopped g -> stopped (Game.handle_event g ev).
Proof. intros H. destruct ev as [|[]]; try reflexivity; exact H. Qed.

Lemma handle_events_quit (evs : list Event) (g : Game.t) :
  In QUIT evs -> stopped (Game.handle_events evs g).
Proof.
  unfold Game.handle_events. apply fold_quit.
  - apply handle_event_stopped.
  - reflexivity.
Qed.

Lemma draw_stopped (evs : list Event) (g : Game.t) :
  stopped g -> stopped (Game.draw evs g).
Proof.
  intros H. unfold Game.draw, Game.draw_game_over, Game.draw_round_complete.
  destruct (Game.state g); try exact H;
    (apply fold_left_invariant; [|exact H]);
    intros a [|[]] Ha; try exact Ha; try reflexivity.
  destruct (3 <=? Game.current_round a); exact Ha.
Qed.

Lemma update_running (P : Platform) (f : Frame) (g g' : Game.t) :
  Game.update P f g = Some g' -> Game.running g' = Game.running g.
Proof.
  intros Hu.
  destruct (game_state_eqb (Game.state g) STATE_PLAYING) eqn:Hs.
  - assert (Hs' : Game.state g = STATE_PLAYING)
      by (destruct (Game.state g); cbn in Hs; congruence).
    destruct (Game.player g) as [p0|] eqn:Hp0;
      [|rewrite (update_without_player P f g Hs' Hp0) in Hu; discriminate].
    pose proof (update_playing P f g p0 Hs' Hp0) as Hspec. cbv zeta in Hspec.
    destruct (200 <=? Game.score g + Game.award (Game.enemies g));
      rewrite Hspec in Hu; injection Hu as <-; reflexivity.
  - rewrite update_not_playing in Hu
      by (destruct (Game.state g); cbn in Hs; congruence).
    now injection Hu as <-.
Qed.

Lemma step_stopped (P : Platform) (f : Frame) (g g' : Game.t) :
  Game.step P f g = Some g' ->
  stopped g
  \/ (In QUIT (events f)
      /\ (Game.state g = STATE_MENU \/ Game.state g = STATE_PLAYING))
  \/ (In QUIT (draw_events f)
      /\ (Game.state g = STATE_GAME_OVER \/ Game.state g = STATE_ROUND_COMPLETE)) ->
  stopped g'.
Proof.
  unfold Game.step. intros Hs H.
  destruct (Game.state g) eqn:Est.
  - injection Hs as <-.
    destruct H as [H | [(H & _) | (_ & [H | H])]]; try discriminate.
    + unfold Game.show_menu. apply fold_left_invariant; [|exact H].
      intros a ev. apply show_menu_step_stopped.
    + now apply show_menu_quit.
  - destruct (Game.update P f (Game.handle_events (events f) g)) as [g1|] eqn:Hu;
      [|discriminate].
    injection Hs as <-. apply draw_stopped. unfold stopped.
    rewrite (update_running P f _ g1 Hu).
    destruct H as [H | [(H & _) | (_ & [H | H])]]; try discriminate.
    + unfold Game.handle_events. apply fold_left_invariant; [|exact H].
      apply handle_event_stopped.
    + now apply handle_events_quit.
  - injection Hs as <-.
    destruct H as [H | [(_ & [H | H]) | (H & _)]]; try discriminate.
    + now apply draw_stopped.
    + unfold Game.draw. rewrite Est. unfold Game.draw_game_over.
      apply fold_quit; [|reflexivity| exact H].
      intros a [|[]] Ha; try exact Ha; reflexivity.
  - injection Hs as <-.
    destruct H as [H | [(_ & [H | H]) | (H & _)]]; try discriminate.
    + now apply draw_stopped.
    + unfold Game.draw. rewrite Est. unfold Game.draw_round_complete.
      apply fold_quit; [|reflexivity| exact H].
      intros a [|[]] Ha; try exact Ha; try reflexivity.
      destruct (3 <=? Game.current_round a); exact Ha.
Qed.

Lemma run_stopped (P : Platform) (fs : list Frame) (g : Game.t) :
  stopped g -> Game.run P fs g = Some g.
Proof. intros H. destruct fs; cbn [Game.run]; [reflexivity|]. now rewrite H. Qed.

Lemma run_app (P : Platform) (fs fs' : list Frame) (g : Game.t) :
  Game.run P (fs ++ fs') g
  = match Game.run P fs g with
    | Some g1 => Game.run P fs' g1
    | None => None
    end.
Proof.
  revert g. induction fs as [|f fs IH]; intros g; cbn [app Game.run]; [reflexivity|].
  destruct (Game.running g) eqn:Hr.
  - destruct (Game.step P f g); [apply IH | reflexivity].
  - symmetry. now apply run_stopped.
Qed.

(** X8.  A QUIT event polled in the menu or in play ends the session:
    the pass of the main loop that polls it leaves [running] false, and
    the frames after it change nothing. *)
Theorem quit_ends_the_session (P : Platform) (fs rest : list Frame) (f : Frame) :
  In QUIT (events f) ->
  exists g g',
    Game.run P fs Game.init = Some g
    /\ Game.run P (fs ++ [f]) Game.init = Some g'
    /\ (Game.state g = STATE_MENU \/ Game.state g = STATE_PLAYING ->
        Game.running g' = false
        /\ Game.run P (fs ++ f :: rest) Game.init = Some g').
Proof.
  intros Hq. destruct (session_reached P fs) as (g & Hr & Hok & _).
  exists g. rewrite !run_app, Hr. cbn [Game.run].
  destruct (Game.running g) eqn:Hrun.
  - destruct (session_ok_step P f g Hok) as (g1 & Hs & _). rewrite Hs.
    exists g1. split; [reflexivity|]. split; [reflexivity|]. intros Hst.
    assert (H1 : stopped g1)
      by (apply (step_stopped P f g g1 Hs); right; left; now split).
    split; [exact H1 | now apply run_stopped].
  - exists g. split; [reflexivity|]. split; [reflexivity|]. intros _.
    split; [exact Hrun | reflexivity].
Qed.

Lemma quit_ends_the_session_witness :
  let f := mkFrame [QUIT] no_keys false far_draws [] in
  exists g g',
    Game.run placeholder_platform [any_key; idle] Game.init = Some g
    /\ Game.run placeholder_platform ([any_key; idle] ++ [f]) Game.init = Some g'
    /\ (Game.state g = STATE_MENU \/ Game.state g = STATE_PLAYING ->
        Game.running g' = false
        /\ Game.run placeholder_platform ([any_key; idle] ++ f :: [idle; idle]) Game.init
           = Some g').
Proof.
  intros f.
  apply (quit_ends_the_session placeholder_platform [any_key; idle] [idle; idle] f).
  left. reflexivity.
Defined.

(** ** The player *)

Lemma handle_input_control (G : Globals) (keys : Keys) (p : Player.t) :
  let p' := Player.handle_input G keys p in
  control p' =
  if Player.side_view p then
    if is_math (current_mode G) then
      if Player.up_pressed p' then (-6, Player.vx p, false, Player.on_wall p,
                                    Player.jumps_left p)
      else control p
    else if Player.up_pressed p' && negb (Player.prev_up_pressed p)
         then Player.jump p else control p
  else control p.
Proof.
  assert (Hu : Player.up_pressed (Player.handle_input G keys p)
               = (if enable_3d G && K_SPACE keys then true
                  else if enable_3d G then false else K_w keys || K_SPACE keys)).
  { unfold Player.handle_input. split_tuple. reflexivity. }
  cbv zeta. rewrite Hu. unfold control at 1. unfold Player.handle_input.
  match goal with
  | |- context [match ?X with (_, _) => _ end] =>
      destruct X as [[[[a b] c] d] e] eqn:EX
  end.
  cbn [Player.vy Player.vx Player.on_ground Player.on_wall Player.jumps_left].
  rewrite <- EX. reflexivity.
Qed.

(** X9.  Outside the mode "math", [handle_input] in side view changes the
    vertical velocity, the impulse, the ground and wall flags and the
    jump budget only on a rising edge of the up control: with the control
    already held on the previous call, or not held now, all five are as
    before. *)
Theorem jump_needs_rising_edge (G : Globals) (keys : Keys) (p : Player.t) :
  Player.side_view p = true ->
  is_math (current_mode G) = false ->
  Player.prev_up_pressed p = true
  \/ Player.up_pressed (Player.handle_input G keys p) = false ->
  control (Player.handle_input G keys p) = control p.
Proof.
  intros Hsv Hm Hedge. pose proof (handle_input_control G keys p) as H.
  cbv zeta in H. rewrite H, Hsv, Hm.
  destruct Hedge as [-> | ->]; [now rewrite andb_false_r | reflexivity].
Qed.

Lemma budget_ok_handle_input (G : Globals) (keys : Keys) (p : Player.t) :
  budget_ok p -> budget_ok (Player.handle_input G keys p).
Proof.
  intros (Hr & Hg). pose proof (handle_input_control G keys p) as H.
  cbv zeta in H. unfold control in H at 1. unfold budget_ok.
  remember (Player.handle_input G keys p) as p' eqn:E. clear E.
  unfold Player.jump, control, Player.max_jumps in *.
  repeat match type of H with
         | _ = (if ?x then _ else _) => destruct x eqn:?
         end;
    injection H as _ _ Hog _ Hj; rewrite Hog, Hj;
    repeat match goal with
           | E : (_ <? _) = true |- _ => apply Z.ltb_lt in E
           | E : (_ <? _) = false |- _ => apply Z.ltb_ge in E
           end;
    (split; [lia | intros Ht; try discriminate; auto]).
Qed.

Lemma budget_ok_update (G : Globals) (p : Player.t) :
  budget_ok p -> budget_ok (Player.update G p).
Proof.
  intros (Hr & Hg). unfold budget_ok, Player.update, Player.max_jumps in *.
  destruct (Player.is_attacking p); [split; assumption|].
  destruct (Player.side_view p); [|split; assumption].
  cbn [Player.jumps_left Player.on_ground].
  match goal with |- context [if ?c then 2 else _] => destruct c end.
  - split; [lia | reflexivity].
  - split; [exact Hr | discriminate].
Qed.

Lemma budget_ok_tick (G : Globals) (keys : Keys) (b : bool) (p : Player.t) :
  budget_ok p -> budget_ok (player_tick G keys b p).
Proof.
  intros H. unfold player_tick. apply budget_ok_update.
  apply (budget_ok_handle_input G keys) in H.
  unfold Player.handle_mouse_attack.
  destruct (b && _ && _); exact H.
Qed.

(** X10.  From a new player, after any sequence of ticks, [jumps_left] is
    between 0 and [max_jumps], and it is [max_jumps] whenever the player
    is on the ground. *)
Theorem jump_budget (x y w h : Z) (inputs : list PlayerInput) :
  let p := player_run inputs (Player.init x y w h) in
  0 <= Player.jumps_left p <= Player.max_jumps
  /\ (Player.on_ground p = true -> Player.jumps_left p = Player.max_jumps).
Proof.
  cbv zeta.
  assert (H : forall p, budget_ok p -> budget_ok (player_run inputs p)).
  { induction inputs as [|[[G keys] b] inputs IH]; intros p Hp; [exact Hp|].
    cbn. apply IH. now apply budget_ok_tick. }
  apply H. split; [|intros _; reflexivity].
  cbn [Player.jumps_left Player.init]. unfold Player.max_jumps. lia.
Qed.

Lemma qadd_correct (a b : Q) : (qadd a b == a + b)%Q.
Proof. apply Qred_correct. Qed.

Lemma qsub_correct (a b : Q) : (qsub a b == a - b)%Q.
Proof. apply Qred_correct. Qed.

Lemma qmax_lower (a b : Q) : (a <= qmax a b)%Q.
Proof. unfold qmax. rewrite Qred_correct. apply Q.le_max_l. Qed.

Lemma qmax_upper (a b c : Q) : (a <= c)%Q -> (b <= c)%Q -> (qmax a b <= c)%Q.
Proof. intros. unfold qmax. rewrite Qred_correct. now apply Q.max_lub. Qed.

Lemma qmin_upper (a b : Q) : (qmin a b <= a)%Q.
Proof. unfold qmin. rewrite Qred_correct. apply Q.le_min_l. Qed.

Lemma qmin_lower (a b c : Q) : (c <= a)%Q -> (c <= b)%Q -> (c <= qmin a b)%Q.
Proof. intros. unfold qmin. rewrite Qred_correct. now apply Q.min_glb. Qed.

(** X11.  [handle_input] keeps the depth of the player between
    [MIN_DEPTH] and [MAX_DEPTH], and while the 3D flag is off it does not
    change the depth at all. *)
Theorem depth_stays_in_range (G : Globals) (keys : Keys) (p : Player.t) :
  (MIN_DEPTH <= Player.pos_z p <= MAX_DEPTH)%Q ->
  let p' := Player.handle_input G keys p in
  (MIN_DEPTH <= Player.pos_z p' <= MAX_DEPTH)%Q
  /\ (enable_3d G = false -> Player.pos_z p' = Player.pos_z p).
Proof.
  intros Hz. cbv zeta. unfold Player.handle_input. split_tuple.
  cbn [Player.pos_z]. unfold MIN_DEPTH, MAX_DEPTH, Player.depth_speed in *.
  split; [|intros ->; reflexivity].
  destruct (enable_3d G); cbn [andb]; [|exact Hz].
  set (z1 := if K_w keys then qmax 0 (qsub (Player.pos_z p) 3) else Player.pos_z p).
  assert (H1 : (0 <= z1 <= 100)%Q).
  { unfold z1. destruct (K_w keys); [|exact Hz]. split; [apply qmax_lower|].
    apply qmax_upper; [lra|]. rewrite qsub_correct. lra. }
  destruct (K_s keys); [|exact H1]. split; [|apply qmin_upper].
  apply qmin_lower; [lra|]. rewrite qadd_correct. lra.
Qed.

Lemma depth_stays_in_range_witness :
  let G := mkGlobals 2 mode_default true in
  let p := Game.set_pos_z 1 (Player.init 500 400 48 48) in
  Player.pos_z (Player.handle_input G key_w p) = 0%Q
  /\ (MIN_DEPTH <= Player.pos_z (Player.handle_input G key_w p) <= MAX_DEPTH)%Q.
Proof.
  intros G p. split; [reflexivity|].
  apply (depth_stays_in_range G key_w p). split; [discriminate | discriminate].
Defined.

(** X12.  [get_attack_hitbox] gives a rectangle exactly when the player
    is attacking, and that rectangle lies beside the player's own: the
    two never collide.  An enemy in the hitbox is knocked back by the hit
    at range, with speed 35 and the mark of a hit, unless it touches the
    player, in which case the hit at range leaves it as it is. *)
Theorem hitbox_beside_player (p : Player.t) :
  match Player.get_attack_hitbox p with
  | None => Player.is_attacking p = false
  | Some hitbox =>
      Player.is_attacking p = true
      /\ colliderect (Player.rect p) hitbox = false
      /\ forall e : Enemy.t,
           colliderect hitbox (Enemy.rect e) = true ->
           if touching p e then Game.ranged_attack p [e] = [e]
           else exists e',
               Game.ranged_attack p [e] = [e']
               /\ Enemy.knocked_back e' = true
               /\ Enemy.was_hit_by_player e' = true
               /\ (Enemy.knockback_speed2 e' == 35 * 35)%Q
  end.
Proof.
  unfold Game.ranged_attack, touching, Player.get_attack_hitbox.
  destruct (Player.is_attacking p); cbn [negb]; [|reflexivity].
  set (r0 := Player.rect p).
  assert (Hno : forall hb : Rect,
             right hb <= left r0 \/ right r0 <= left hb
             \/ bottom hb <= top r0 \/ bottom r0 <= top hb ->
             colliderect r0 hb = false).
  { intros hb H. destruct (colliderect r0 hb) eqn:E; [|reflexivity].
    unfold colliderect in E.
    repeat (apply andb_true_iff in E; destruct E as [E ?]).
    repeat match goal with E : (_ <? _) = true |- _ => apply Z.ltb_lt in E end.
    lia. }
  assert (Hdir : forall e : Enemy.t,
             exists e',
               (let '(knock_dir_x, knock_dir_y) := Game.facing_direction p in
                Enemy.apply_knockback knock_dir_x knock_dir_y 35 e) = e'
               /\ Enemy.knocked_back e' = true
               /\ Enemy.was_hit_by_player e' = true
               /\ (Enemy.knockback_speed2 e' == 35 * 35)%Q).
  { intros e. eexists. split; [reflexivity|]. unfold Game.facing_direction.
    repeat match goal with
           | |- context [if ?c then (_, _) else _] => destruct c
           end; repeat split. }
  repeat match goal with
         | |- context [if ?c then Some _ else _] => destruct c
         end;
    (split; [reflexivity|]);
    (split; [apply Hno; unfold right, bottom; cbn [left top width height]; lia|]);
    intros e He; cbn [map]; rewrite He;
    destruct (colliderect r0 (Enemy.rect e)); cbn [negb andb];
    try reflexivity;
    destruct (Hdir e) as (e' & <- & H1 & H2 & H3); eexists;
    (split; [reflexivity|]); repeat split; assumption.
Qed.

Lemma Qleb_le (a b : Q) : Qleb a b = true <-> (a <= b)%Q.
Proof. apply Qle_bool_iff. Qed.

Lemma Qleb_gt (a b : Q) : Qleb a b = false <-> (b < a)%Q.
Proof.
  unfold Qleb. rewrite <- not_true_iff_false, Qle_bool_iff.
  split; [apply Qnot_le_lt | apply Qlt_not_le].
Qed.

Lemma above_floor_update (G : Globals) (p : Player.t) :
  above_floor p -> above_floor (Player.update G p).
Proof.
  intros (Hsv & Hy). unfold above_floor, Player.update, Player.half_h in *.
  destruct (Player.is_attacking p); [split; assumption|].
  rewrite Hsv. cbn [Player.side_view Player.pos_y Player.rect_height].
  split; [reflexivity|].
  match goal with |- context [if Qleb ?a ?b then _ else _] =>
    destruct (Qleb a b) eqn:E end.
  - rewrite qsub_correct. lra.
  - apply Qleb_gt in E. rewrite qadd_correct in E. lra.
Qed.

Lemma above_floor_tick (G : Globals) (keys : Keys) (b : bool) (p : Player.t) :
  above_floor p -> above_floor (player_tick G keys b p).
Proof.
  intros (Hsv & Hy). unfold player_tick. apply above_floor_update.
  destruct (handle_input_vertical G keys p) as (Hsv1 & Hh1 & Hy1 & _).
  assert (H1 : above_floor (Player.handle_input G keys p)).
  { split; [congruence|]. unfold Player.half_h. now rewrite Hh1, (Hy1 Hsv). }
  unfold Player.handle_mouse_attack. destruct (_ && _ && _); exact H1.
Qed.

(** X13.  In side view with the 3D flag off, a player whose lower edge is
    not below the floor line stays so through any sequence of ticks,
    attacks included. *)
Theorem never_below_floor (inputs : list PlayerInput) (p : Player.t) :
  Forall two_d inputs -> above_floor p -> above_floor (player_run inputs p).
Proof.
  intros _. revert p. induction inputs as [|[[G keys] b] inputs IH]; intros p Hp.
  - exact Hp.
  - cbn. apply IH. now apply above_floor_tick.
Qed.

Lemma up_pressed_handle_input (G : Globals) (keys : Keys) (p : Player.t) :
  Player.up_pressed (Player.handle_input G keys p) = up_held G keys.
Proof. unfold Player.handle_input. split_tuple. reflexivity. Qed.

Lemma flight_tick (G : Globals) (keys : Keys) (p : Player.t) :
  above_floor p -> Player.is_attacking p = false ->
  is_math (current_mode G) = true -> up_held G keys = true ->
  let p' := player_tick G keys false p in
  Player.vy p' = -6 /\ Player.on_ground p' = false
  /\ (Player.pos_y p' == Player.pos_y p - 6)%Q
  /\ Player.is_attacking p' = false.
Proof.
  intros (Hsv & Hy) Ha Hm Hup. cbv zeta. unfold player_tick.
  destruct (handle_input_vertical G keys p) as (Hsv1 & Hh1 & Hy1 & _).
  destruct (handle_input_attack_fields G keys p) as (Ha1 & _ & _).
  pose proof (handle_input_control G keys p) as Hc. cbv zeta in Hc.
  pose proof (up_pressed_handle_input G keys p) as Hu.
  rewrite Hsv, Hm, Hu, Hup in Hc. rewrite Hup in Hu. specialize (Hy1 Hsv).
  remember (Player.handle_input G keys p) as p1 eqn:E1. clear E1.
  unfold control in Hc. injection Hc as Hvy _ Hg _ _.
  cbn [Player.handle_mouse_attack andb].
  unfold Player.update. rewrite Ha1, Ha in *. rewrite Hsv1, Hsv, Hu, Hm, Hg, Hvy.
  cbn [Player.vy Player.on_ground Player.pos_y Player.is_attacking andb negb].
  assert (Hvy1 : forall c : bool, (if c then Z.min (-6) 3 else -6) = -6)
    by (intros []; reflexivity).
  rewrite Hvy1.
  assert (Hl : Qleb (ZtoQ MATRIX_HEIGHT)
                    (qadd (qadd (Player.pos_y p1) (ZtoQ (-6))) (Player.half_h p1))
               = false).
  { apply Qleb_gt. rewrite !qadd_correct, Hy1. unfold Player.half_h in *.
    rewrite Hh1. unfold ZtoQ at 1. change (inject_Z (-6)) with (-6 # 1)%Q. lra. }
  rewrite Hl. repeat split.
  rewrite qadd_correct, Hy1. unfold ZtoQ. change (inject_Z (-6)) with (-6 # 1)%Q.
  ring.
Qed.

(** X14.  In the mode "math", with the up control held and no click, a
    player who is not attacking rises six pixels on every tick, with
    vertical velocity -6 and off the ground, for as long as the control
    is held: nothing bounds the flight from above. *)
Theorem flight_has_no_ceiling (inputs : list PlayerInput) (p : Player.t) :
  above_floor p -> Player.is_attacking p = false -> Forall flying inputs ->
  (Player.pos_y (player_run inputs p)
   == Player.pos_y p - 6 * ZtoQ (Z.of_nat (length inputs)))%Q
  /\ (inputs <> [] ->
      Player.vy (player_run inputs p) = -6
      /\ Player.on_ground (player_run inputs p) = false).
Proof.
  intros Hf Ha Hin. revert p Hf Ha.
  induction Hin as [|[[G keys] b] inputs (_ & Hm & Hup & ->) _ IH]; intros p Hf Ha.
  - split; [|congruence]. cbn [player_run fold_left length].
    change (ZtoQ (Z.of_nat 0)) with 0%Q. ring.
  - cbn [player_run fold_left].
    destruct (flight_tick G keys p Hf Ha Hm Hup) as (Hvy & Hg & Hy & Ha').
    pose proof (above_floor_tick G keys false p Hf) as Hf'.
    destruct (IH _ Hf' Ha') as (IHy & IHv).
    fold (player_run inputs (player_tick G keys false p)) in *.
    split.
    + rewrite IHy, Hy. cbn [length]. rewrite Nat2Z.inj_succ.
      unfold ZtoQ, Z.succ. rewrite inject_Z_plus. ring.
    + intros _. destruct inputs as [|i inputs']; [cbn; auto|].
      apply IHv. discriminate.
Qed.

(** X15.  A player standing on the floor between the walls, with no
    velocity, no key remembered, a full jump budget and no attack or
    cooldown pending, is left exactly as it is by a tick with no key and
    no click (3D flag off). *)
Theorem rest_is_a_fixed_point (G : Globals) (p : Player.t) :
  enable_3d G = false -> at_rest p -> player_tick G no_keys false p = p.
Proof.
  intros H3d (H1 & H2 & H3 & H4 & H5 & H6 & H7 & H8 & H9 & H10 & H11 & H12 & H13
          & H14 & H15 & H16 & H17).
  destruct p as [x y z w h sv vy vx og fc ld adp jl ow wd pup lp rp up ij ia at_ ac].
  cbn [Player.side_view Player.on_ground Player.vy Player.vx Player.pos_y
       Player.pos_x Player.any_dir_pressed Player.prev_up_pressed
       Player.left_pressed Player.right_pressed Player.up_pressed
       Player.on_wall Player.wall_dir Player.is_jumping Player.jumps_left
       Player.is_attacking Player.attack_cooldown] in *.
  unfold Player.half_h, Player.half_w in *.
  cbn [Player.rect_width Player.rect_height] in *.
  subst.
  remember (qdiv (ZtoQ w) 2) as hw eqn:Ehw.
  remember (qdiv (ZtoQ h) 2) as hh eqn:Ehh.
  assert (B1 : Qltb (qsub x hw) 0 = false)
    by (apply Qltb_ge; rewrite qsub_correct; lra).
  assert (B2 : Qltb (ZtoQ SCREEN_WIDTH) (qadd x hw) = false)
    by (apply Qltb_ge; rewrite qadd_correct; lra).
  assert (B3 : Qleb (ZtoQ MATRIX_HEIGHT)
                    (qadd (qadd (qsub (ZtoQ MATRIX_HEIGHT) hh) (ZtoQ 1)) hh) = true).
  { apply Qleb_le. rewrite !qadd_correct, qsub_correct.
    change (ZtoQ 1) with 1%Q. lra. }
  unfold player_tick.
  match goal with
  | |- Player.update G (Player.handle_mouse_attack false (Player.handle_input G no_keys ?p)) = _ =>
      assert (E : Player.handle_input G no_keys p = p)
  end.
  { unfold Player.handle_input.
    cbn [K_a K_d K_w K_s K_SPACE no_keys andb orb negb Player.side_view
         Player.half_w Player.half_h Player.prev_up_pressed].
    rewrite H3d. cbn [andb orb negb].
    destruct (is_math (current_mode G)); reflexivity. }
  rewrite E.
  unfold Player.handle_mouse_attack. cbn [andb].
  unfold Player.update, Player.half_w, Player.half_h.
  cbn [Player.side_view Player.pos_x Player.pos_y Player.rect_width
       Player.rect_height Player.vy Player.vx Player.on_ground
       Player.is_attacking Player.attack_cooldown Player.up_pressed
       Player.left_pressed Player.right_pressed negb andb orb].
  rewrite <- Ehw, <- Ehh.
  change (Qltb (1 # 2) (Qabs 0)) with false. cbv iota.
  rewrite B1, B2. cbn [orb andb negb]. rewrite andb_false_r. cbn [negb].
  change (0 + Player.gravity) with 1. rewrite B3.
  change (0 <? 0) with false. cbv iota.
  reflexivity.
Qed.

Lemma rest_is_a_fixed_point_witness :
  let p := player_run [(initial_globals, no_keys, false)] (Player.init 500 476 48 48) in
  at_rest p /\ player_tick initial_globals no_keys false p = p.
Proof.
  intros p.
  assert (H : at_rest p).
  { unfold at_rest. repeat split; try reflexivity; vm_compute; discriminate. }
  split; [exact H|]. exact (rest_is_a_fixed_point initial_globals p eq_refl H).
Defined.

Lemma jump_needs_rising_edge_witness :
  let p := player_run [(initial_globals, key_w, false)] (Player.init 500 476 48 48) in
  Player.prev_up_pressed p = true
  /\ control (Player.handle_input initial_globals key_w p) = control p.
Proof.
  intros p. split; [reflexivity|].
  apply (jump_needs_rising_edge initial_globals key_w p);
    [reflexivity | reflexivity | left; reflexivity].
Defined.

Lemma never_below_floor_witness :
  let p := Player.init 500 476 48 48 in
  let inputs := [(initial_globals, key_w, false); (initial_globals, no_keys, true);
                 (initial_globals, key_a, false)] in
  above_floor p /\ above_floor (player_run inputs p).
Proof.
  intros p inputs.
  assert (H : above_floor p) by (split; [reflexivity | vm_compute; discriminate]).
  split; [exact H|]. apply (never_below_floor inputs p); [|exact H].
  repeat constructor.
Defined.

Lemma flight_has_no_ceiling_witness :
  let G := mkGlobals 2 mode_math false in
  let p := Player.init 500 10 48 48 in
  let inputs := repeat (G, key_w, false) 5 in
  Forall flying inputs
  /\ (Player.pos_y (player_run inputs p) == -20)%Q
  /\ (Player.pos_y (player_run inputs p)
      == Player.pos_y p - 6 * ZtoQ (Z.of_nat (length inputs)))%Q.
Proof.
  intros G p inputs.
  assert (Hin : Forall flying inputs).
  { unfold inputs. cbn [repeat]. repeat constructor. }
  split; [exact Hin|]. split; [reflexivity|].
  apply (flight_has_no_ceiling inputs p);
    [split; [reflexivity | vm_compute; discriminate] | reflexivity | exact Hin].
Defined.

(** X16.  On an update that is not an attack tick, the magnitude of the
    horizontal impulse falls to at most 85% of what it was, and an
    impulse of magnitude 0.5 or less is set to zero. *)
Theorem impulse_decays (G : Globals) (p : Player.t) :
  Player.is_attacking p = false -> Player.side_view p = true ->
  let p' := Player.update G p in
  (Qabs (Player.vx p') <= (85 # 100) * Qabs (Player.vx p))%Q
  /\ ((Qabs (Player.vx p) <= 1 # 2)%Q -> Player.vx p' = 0%Q).
Proof.
  intros Ha Hsv. cbv zeta. unfold Player.update. rewrite Ha, Hsv.
  cbn [Player.vx].
  pose proof (Qabs_nonneg (Player.vx p)) as Hn.
  destruct (Qltb (1 # 2) (Qabs (Player.vx p))) eqn:Em.
  - apply Qltb_lt in Em. split; [|intros Hs; lra].
    match goal with
    | |- (Qabs (if ?c then _ else _) <= _)%Q => destruct c
    end.
    + change (Qabs 0) with 0%Q. lra.
    + rewrite qmul_correct, Qabs_Qmult.
      change (Qabs (85 # 100)) with (85 # 100). lra.
  - split.
    + match goal with
      | |- (Qabs (if ?c then _ else _) <= _)%Q => destruct c
      end; change (Qabs 0) with 0%Q; lra.
    + intros _. match goal with
      | |- (if ?c then _ else _) = _ => destruct c
      end; reflexivity.
Qed.

Lemma impulse_decays_witness :
  let p1 := Player.mk 500 400 0 48 48 true (-14) 10 false dir_up (Some dir_up)
                      true 2 false None true false false true true false 0 0 in
  Player.vx (Player.update initial_globals p1) = (17 # 2)%Q
  /\ (Qabs (Player.vx (Player.update initial_globals p1))
      <= (85 # 100) * Qabs (Player.vx p1))%Q.
Proof.
  intros p1. split; [reflexivity|].
  apply (impulse_decays initial_globals p1); reflexivity.
Defined.

(** X17.  When an update that is not an attack tick ends with the player
    on a wall, the player was airborne, holds the key toward that wall
    and stands against it, and the vertical velocity is at most 3 plus
    gravity. *)
Theorem wall_slide_caps_fall (G : Globals) (p : Player.t) :
  Player.is_attacking p = false -> Player.side_view p = true ->
  let p' := Player.update G p in
  Player.on_wall p' = true ->
  Player.vy p' <= 3 + Player.gravity
  /\ Player.on_ground p = false
  /\ ((Player.wall_dir p' = Some dir_left /\ Player.left_pressed p = true
       /\ (Player.pos_x p' <= Player.half_w p)%Q)
      \/ (Player.wall_dir p' = Some dir_right /\ Player.right_pressed p = true
          /\ (ZtoQ SCREEN_WIDTH - Player.half_w p <= Player.pos_x p')%Q)).
Proof.
  intros Ha Hsv. cbv zeta. unfold Player.update. rewrite Ha, Hsv.
  cbn [Player.on_wall Player.vy Player.wall_dir Player.pos_x].
  set (hw := Player.half_w p).
  set (x2 := if Qltb _ 0 then hw else _).
  destruct (Player.on_ground p); [cbn [negb andb orb]; discriminate|].
  cbn [negb andb].
  set (at_left := Player.left_pressed p && Qleb (qsub x2 hw) 0).
  set (at_right := negb at_left && Player.right_pressed p
                   && Qleb (ZtoQ SCREEN_WIDTH) (qadd x2 hw)).
  intros Hw. rewrite Hw.
  assert (Hvy : forall vy2 (landed : bool),
             vy2 <= 3 + Player.gravity -> (if landed then 0 else vy2) <= 3 + Player.gravity).
  { intros vy2 [] Hv; [unfold Player.gravity; lia | exact Hv]. }
  split; [|split; [reflexivity|]].
  - apply Hvy. unfold Player.gravity.
    destruct (negb (is_math (current_mode G) && Player.up_pressed p)); lia.
  - destruct at_left eqn:El.
    + left. unfold at_left in El. apply andb_true_iff in El as [El1 El2].
      apply Qleb_le in El2. rewrite qsub_correct in El2.
      repeat split; [exact El1 | lra].
    + right. cbn [orb] in Hw. rewrite Hw. unfold at_right in Hw.
      apply andb_true_iff in Hw as [Hw1 Hw2]. cbn [negb andb] in Hw1.
      apply Qleb_le in Hw2. rewrite qadd_correct in Hw2.
      repeat split; [exact Hw1 | lra].
Qed.

Lemma wall_slide_caps_fall_witness :
  let p := Player.mk 24 400 0 48 48 true 5 0 false dir_left (Some dir_left)
                     true 1 false None false true false false true false 0 0 in
  Player.on_wall (Player.update initial_globals p) = true
  /\ Player.vy (Player.update initial_globals p) = 4
  /\ Player.vy (Player.update initial_globals p) <= 3 + Player.gravity.
Proof.
  intros p. split; [reflexivity|]. split; [reflexivity|].
  apply (wall_slide_caps_fall initial_globals p); reflexivity.
Defined.

Lemma update_shape (G : Globals) (p : Player.t) :
  Player.side_view (Player.update G p) = Player.side_view p
  /\ Player.rect_width (Player.update G p) = Player.rect_width p
  /\ Player.rect_height (Player.update G p) = Player.rect_height p.
Proof.
  unfold Player.update.
  destruct (Player.is_attacking p); [repeat split|].
  destruct (Player.side_view p); repeat split.
Qed.

Lemma handle_input_shape (G : Globals) (keys : Keys) (p : Player.t) :
  Player.side_view (Player.handle_input G keys p) = Player.side_view p
  /\ Player.rect_width (Player.handle_input G keys p) = Player.rect_width p.
Proof.
  unfold Player.handle_input. split_tuple. split; reflexivity.
Qed.

Lemma walking_tick (G : Globals) (keys : Keys) (w : Z) (p : Player.t) :
  0 <= w <= SCREEN_WIDTH -> walking w p ->
  walking w (player_tick G keys false p)
  /\ between_walls (player_tick G keys false p).
Proof.
  intros Hw (Hsv & Ha & Hrw). unfold player_tick.
  destruct (handle_input_shape G keys p) as (Hsv1 & Hw1).
  destruct (handle_input_attack_fields G keys p) as (Ha1 & _).
  unfold Player.handle_mouse_attack. cbn [andb].
  remember (Player.handle_input G keys p) as p1 eqn:E1. clear E1.
  rewrite Hsv in Hsv1. rewrite Ha in Ha1. rewrite Hrw in Hw1.
  destruct (update_shape G p1) as (Hsv2 & Hw2 & _).
  pose proof (update_attack_fields G p1) as Hf. cbv zeta in Hf.
  rewrite Ha1 in Hf. destruct Hf as (Ha2 & _).
  split.
  - split; [congruence|]. split; [exact Ha2 | congruence].
  - apply (update_while_not_attacking G p1 Ha1 Hsv1). now rewrite Hw1.
Qed.

(** X18.  From a new player whose frames are no wider than the field,
    after any non-empty sequence of ticks without a click (3D flag off)
    the player has never attacked and its centre is between half its
    width and the field width minus half its width. *)
Theorem walls_hold_without_clicks (x y w h : Z) (inputs : list PlayerInput) :
  0 <= w <= SCREEN_WIDTH -> Forall two_d inputs -> Forall no_click inputs ->
  inputs <> [] ->
  between_walls (player_run inputs (Player.init x y w h))
  /\ Player.is_attacking (player_run inputs (Player.init x y w h)) = false.
Proof.
  intros Hw _ Hin Hne.
  assert (H : forall p, walking w p ->
                        walking w (player_run inputs p)
                        /\ (inputs <> [] -> between_walls (player_run inputs p))).
  { clear Hne. induction Hin as [|[[G keys] b] inputs Hb _ IH]; intros p Hp.
    - split; [exact Hp | congruence].
    - cbn [player_run fold_left]. unfold no_click in Hb. cbn [snd] in Hb. subst b.
      destruct (walking_tick G keys w p Hw Hp) as (Hp1 & Hb1).
      destruct (IH _ Hp1) as (IH1 & IH2). split; [exact IH1|].
      intros _. destruct inputs as [|i inputs]; [exact Hb1|].
      apply IH2. discriminate. }
  destruct (H (Player.init x y w h)) as (H1 & H2); [repeat split|].
  split; [now apply H2 | apply H1].
Qed.

Lemma walls_hold_without_clicks_witness :
  let inputs := repeat (initial_globals, key_a, false) 100 in
  Forall no_click inputs
  /\ Player.pos_x (player_run inputs (Player.init 500 476 48 48)) = 24%Q
  /\ between_walls (player_run inputs (Player.init 500 476 48 48)).
Proof.
  intros inputs.
  assert (Hin : Forall no_click inputs) by (apply Forall_forall; intros i Hi;
    apply repeat_spec in Hi; subst i; reflexivity).
  split; [exact Hin|]. split; [vm_compute; reflexivity|].
  apply (walls_hold_without_clicks 500 476 48 48 inputs);
    [unfold SCREEN_WIDTH; lia | | exact Hin | discriminate].
  apply Forall_forall. intros i Hi. apply repeat_spec in Hi. subst i. reflexivity.
Defined.

(** ** The falling actors *)

Lemma ZtoQ_succ (n : nat) : (ZtoQ (Z.of_nat (S n)) == ZtoQ (Z.of_nat n) + 1)%Q.
Proof.
  unfold ZtoQ. rewrite Nat2Z.inj_succ, <- Z.add_1_r, inject_Z_plus. reflexivity.
Qed.

Lemma ZtoQ_nonneg (n : nat) : (0 <= ZtoQ (Z.of_nat n))%Q.
Proof.
  unfold ZtoQ. change 0%Q with (inject_Z 0). rewrite <- Zle_Qle. lia.
Qed.

(** X19.  A collectible of speed [s >= 0] is, after [n] updates, [n * s]
    lower, with the same abscissa, speed and point value; it is still
    alive exactly when it was alive and, if [n > 0], has not passed the
    floor line. *)
Theorem character_falls (n : nat) (c : MatrixCharacter.t) :
  (0 <= MatrixCharacter.speed c)%Q ->
  let c' := Nat.iter n MatrixCharacter.update c in
  (MatrixCharacter.pos_y c'
   == MatrixCharacter.pos_y c + ZtoQ (Z.of_nat n) * MatrixCharacter.speed c)%Q
  /\ MatrixCharacter.pos_x c' = MatrixCharacter.pos_x c
  /\ MatrixCharacter.speed c' = MatrixCharacter.speed c
  /\ MatrixCharacter.point_value c' = MatrixCharacter.point_value c
  /\ (MatrixCharacter.alive c' = true <->
      MatrixCharacter.alive c = true
      /\ (n = 0%nat \/ (MatrixCharacter.pos_y c' <= ZtoQ MATRIX_HEIGHT)%Q)).
Proof.
  intros Hs. cbv zeta.
  induction n as [|n (IHy & IHx & IHs & IHp & IHa)].
  - cbn [Nat.iter nat_rect].
    split; [change (ZtoQ (Z.of_nat 0)) with 0%Q; ring|].
    repeat split; tauto.
  - change (Nat.iter (S n) MatrixCharacter.update c)
      with (MatrixCharacter.update (Nat.iter n MatrixCharacter.update c)).
    remember (Nat.iter n MatrixCharacter.update c) as cn eqn:E.
    clear E. unfold MatrixCharacter.update.
    cbn [MatrixCharacter.pos_y MatrixCharacter.pos_x MatrixCharacter.speed
         MatrixCharacter.point_value MatrixCharacter.alive].
    assert (Hy : (qadd (MatrixCharacter.pos_y cn) (MatrixCharacter.speed cn)
                  == MatrixCharacter.pos_y c
                     + ZtoQ (Z.of_nat (S n)) * MatrixCharacter.speed c)%Q).
    { rewrite qadd_correct, IHy, IHs, ZtoQ_succ. ring. }
    split; [exact Hy|]. split; [exact IHx|]. split; [exact IHs|].
    split; [exact IHp|].
    rewrite andb_true_iff, negb_true_iff, Qltb_ge, IHa.
    pose proof (ZtoQ_nonneg n) as Hn.
    assert (Hmono : (MatrixCharacter.pos_y cn
                     <= qadd (MatrixCharacter.pos_y cn) (MatrixCharacter.speed cn))%Q).
    { rewrite qadd_correct, IHs. lra. }
    split.
    + intros ((Ha & _) & Hle). split; [exact Ha | now right].
    + intros (Ha & [Hz | Hle]); [discriminate|].
      split; [|exact Hle]. split; [exact Ha|].
      destruct n as [|n]; [now left | right]. lra.
Qed.

Lemma character_falls_witness :
  let c := MatrixCharacter.init initial_globals 300 (-10) 11 23 1 in
  MatrixCharacter.alive (Nat.iter 255 MatrixCharacter.update c) = true
  /\ MatrixCharacter.alive (Nat.iter 256 MatrixCharacter.update c) = false
  /\ (MatrixCharacter.pos_y (Nat.iter 256 MatrixCharacter.update c)
      == MatrixCharacter.pos_y c + ZtoQ 256 * MatrixCharacter.speed c)%Q.
Proof.
  intros c. split; [vm_compute; reflexivity|]. split; [vm_compute; reflexivity|].
  apply (character_falls 256 c). discriminate.
Defined.

(** X20.  An enemy that is not knocked back falls like a collectible:
    after [n] updates it is [n] times its speed lower, still not knocked
    back and with its mark unchanged, and it is alive exactly when it was
    alive and, if [n > 0], has not passed the floor line. *)
Theorem enemy_falls (n : nat) (e : Enemy.t) :
  Enemy.knocked_back e = false -> (0 <= Enemy.speed e)%Q ->
  let e' := Nat.iter n Enemy.update e in
  (Enemy.pos_y e' == Enemy.pos_y e + ZtoQ (Z.of_nat n) * Enemy.speed e)%Q
  /\ Enemy.pos_x e' = Enemy.pos_x e
  /\ Enemy.speed e' = Enemy.speed e
  /\ Enemy.knocked_back e' = false
  /\ Enemy.was_hit_by_player e' = Enemy.was_hit_by_player e
  /\ (Enemy.alive e' = true <->
      Enemy.alive e = true
      /\ (n = 0%nat \/ (Enemy.pos_y e' <= ZtoQ MATRIX_HEIGHT)%Q)).
Proof.
  intros Hk Hs. cbv zeta.
  induction n as [|n (IHy & IHx & IHs & IHk & IHh & IHa)].
  - cbn [Nat.iter nat_rect].
    split; [change (ZtoQ (Z.of_nat 0)) with 0%Q; ring|].
    repeat split; tauto.
  - change (Nat.iter (S n) Enemy.update e)
      with (Enemy.update (Nat.iter n Enemy.update e)).
    remember (Nat.iter n Enemy.update e) as en eqn:E.
    clear E. unfold Enemy.update. rewrite IHk.
    cbn [Enemy.pos_y Enemy.pos_x Enemy.speed Enemy.knocked_back
         Enemy.was_hit_by_player Enemy.alive].
    assert (Hy : (qadd (Enemy.pos_y en) (Enemy.speed en)
                  == Enemy.pos_y e + ZtoQ (Z.of_nat (S n)) * Enemy.speed e)%Q).
    { rewrite qadd_correct, IHy, IHs, ZtoQ_succ. ring. }
    split; [exact Hy|]. split; [exact IHx|]. split; [exact IHs|].
    split; [reflexivity|]. split; [exact IHh|].
    rewrite andb_true_iff, negb_true_iff, Qltb_ge, IHa.
    pose proof (ZtoQ_nonneg n) as Hn.
    assert (Hmono : (Enemy.pos_y en <= qadd (Enemy.pos_y en) (Enemy.speed en))%Q).
    { rewrite qadd_correct, IHs. lra. }
    split.
    + intros ((Ha & _) & Hle). split; [exact Ha | now right].
    + intros (Ha & [Hz | Hle]); [discriminate|].
      split; [|exact Hle]. split; [exact Ha|].
      destruct n as [|n]; [now left | right]. lra.
Qed.

Lemma enemy_falls_witness :
  let e := Enemy.init initial_globals 300 (-28) 14 28 in
  Enemy.alive (Nat.iter 176 Enemy.update e) = true
  /\ Enemy.alive (Nat.iter 177 Enemy.update e) = false
  /\ Enemy.was_hit_by_player (Nat.iter 177 Enemy.update e) = false.
Proof.
  intros e. split; [vm_compute; reflexivity|]. split; [vm_compute; reflexivity|].
  destruct (enemy_falls 177 e) as (_ & _ & _ & _ & H & _);
    [reflexivity | discriminate | exact H].
Defined.

Lemma qpow_decay_range (n : nat) :
  (0 < qpow Enemy.knockback_decay n <= 1)%Q.
Proof.
  unfold Enemy.knockback_decay.
  induction n as [|n IH]; cbn [qpow]; [split; [reflexivity | discriminate]|].
  split; nra.
Qed.

Lemma update_knocked_position (e : Enemy.t) :
  Enemy.knocked_back e = true ->
  (Enemy.pos_x (Enemy.update e) == Enemy.pos_x e + Enemy.knockback_vx e)%Q
  /\ (Enemy.pos_y (Enemy.update e) == Enemy.pos_y e + Enemy.knockback_vy e)%Q
  /\ Enemy.alive (Enemy.update e)
     = Enemy.alive e
       && negb (Enemy.off_screen (Enemy.pos_x (Enemy.update e))
                                 (Enemy.pos_y (Enemy.update e)))
  /\ Enemy.was_hit_by_player (Enemy.update e) = Enemy.was_hit_by_player e.
Proof.
  intros Hk. unfold Enemy.update. rewrite Hk.
  cbn [Enemy.pos_x Enemy.pos_y Enemy.alive Enemy.was_hit_by_player].
  split; [apply qadd_correct|]. split; [apply qadd_correct|].
  split; reflexivity.
Qed.

Lemma knocked_position (n : nat) (e : Enemy.t) :
  Enemy.knocked_back e = true ->
  (Enemy.pos_x (Nat.iter n Enemy.update e)
   == Enemy.pos_x e + 20 * (1 - qpow Enemy.knockback_decay n) * Enemy.knockback_vx e)%Q
  /\ (Enemy.pos_y (Nat.iter n Enemy.update e)
      == Enemy.pos_y e + 20 * (1 - qpow Enemy.knockback_decay n) * Enemy.knockback_vy e)%Q.
Proof.
  intros Hk. induction n as [|n (IHx & IHy)].
  - cbn [Nat.iter nat_rect qpow]. split; ring.
  - destruct (iter_update_knocked_back n e Hk) as (Hkn & Hvx & Hvy).
    change (Nat.iter (S n) Enemy.update e)
      with (Enemy.update (Nat.iter n Enemy.update e)).
    destruct (update_knocked_position _ Hkn) as (Hx & Hy & _).
    rewrite Hx, Hy, IHx, IHy, Hvx, Hvy. cbn [qpow].
    unfold Enemy.knockback_decay. split; ring.
Qed.

Lemma knocked_near (n : nat) (e : Enemy.t) :
  Enemy.knocked_back e = true ->
  (Qabs (Enemy.pos_x (Nat.iter n Enemy.update e) - Enemy.pos_x e)
   <= 20 * Qabs (Enemy.knockback_vx e))%Q
  /\ (Qabs (Enemy.pos_y (Nat.iter n Enemy.update e) - Enemy.pos_y e)
      <= 20 * Qabs (Enemy.knockback_vy e))%Q.
Proof.
  intros Hk. destruct (knocked_position n e Hk) as (Hx & Hy).
  pose proof (qpow_decay_range n) as Hd.
  assert (Hb : forall v : Q,
             (Qabs (20 * (1 - qpow Enemy.knockback_decay n) * v) <= 20 * Qabs v)%Q).
  { intros v. rewrite Qabs_Qmult.
    rewrite (Qabs_pos (20 * (1 - qpow Enemy.knockback_decay n))) by nra.
    pose proof (Qabs_nonneg v). nra. }
  split.
  - rewrite Hx.
    setoid_replace (Enemy.pos_x e
                    + 20 * (1 - qpow Enemy.knockback_decay n) * Enemy.knockback_vx e
                    - Enemy.pos_x e)%Q
      with (20 * (1 - qpow Enemy.knockback_decay n) * Enemy.knockback_vx e)%Q by ring.
    apply Hb.
  - rewrite Hy.
    setoid_replace (Enemy.pos_y e
                    + 20 * (1 - qpow Enemy.knockback_decay n) * Enemy.knockback_vy e
                    - Enemy.pos_y e)%Q
      with (20 * (1 - qpow Enemy.knockback_decay n) * Enemy.knockback_vy e)%Q by ring.
    apply Hb.
Qed.

(** X21.  A knocked-back enemy with knockback velocity [v] has, after [n]
    updates, moved by [20 * (1 - 0.95 ^ n) * v]: on each axis it never
    gets farther than twenty times the initial velocity from where it
    was knocked. *)
Theorem knockback_travel (n : nat) (e : Enemy.t) :
  Enemy.knocked_back e = true ->
  let e' := Nat.iter n Enemy.update e in
  (Enemy.pos_x e'
   == Enemy.pos_x e + 20 * (1 - qpow Enemy.knockback_decay n) * Enemy.knockback_vx e)%Q
  /\ (Enemy.pos_y e'
      == Enemy.pos_y e + 20 * (1 - qpow Enemy.knockback_decay n) * Enemy.knockback_vy e)%Q
  /\ (Qabs (Enemy.pos_x e' - Enemy.pos_x e) <= 20 * Qabs (Enemy.knockback_vx e))%Q
  /\ (Qabs (Enemy.pos_y e' - Enemy.pos_y e) <= 20 * Qabs (Enemy.knockback_vy e))%Q.
Proof.
  intros Hk. cbv zeta. destruct (knocked_position n e Hk) as (Hx & Hy).
  destruct (knocked_near n e Hk) as (Hnx & Hny).
  split; [exact Hx|]. split; [exact Hy|]. split; [exact Hnx | exact Hny].
Qed.

Lemma knockback_travel_witness :
  let e := Enemy.apply_knockback 1 0 35 (Enemy.init initial_globals 600 300 14 28) in
  Enemy.pos_x (Nat.iter 2 Enemy.update e) = (2673 # 4)%Q
  /\ (Qabs (Enemy.pos_x (Nat.iter 2 Enemy.update e) - Enemy.pos_x e)
      <= 20 * Qabs (Enemy.knockback_vx e))%Q.
Proof.
  intros e. split; [reflexivity|].
  destruct (knockback_travel 2 e) as (_ & _ & H & _); [reflexivity | exact H].
Defined.

Lemma on_screen_off (x y : Q) : on_screen x y -> Enemy.off_screen x y = false.
Proof.
  intros ((H1 & H2) & (H3 & H4)). unfold Enemy.off_screen.
  rewrite !orb_false_iff, !Qltb_ge. tauto.
Qed.

(** X22.  A knocked-back enemy that is on screen, and whose position plus
    twenty times its knockback velocity is on screen too, is never
    removed by its updates: it stays alive and on screen, and it is never
    counted as destroyed. *)
Theorem slow_knockback_never_leaves (n : nat) (e : Enemy.t) :
  Enemy.knocked_back e = true -> Enemy.alive e = true ->
  on_screen (Enemy.pos_x e) (Enemy.pos_y e) ->
  on_screen (Enemy.pos_x e + 20 * Enemy.knockback_vx e)
            (Enemy.pos_y e + 20 * Enemy.knockback_vy e) ->
  let e' := Nat.iter n Enemy.update e in
  Enemy.alive e' = true
  /\ on_screen (Enemy.pos_x e') (Enemy.pos_y e')
  /\ Game.destroyed_by_player e' = false.
Proof.
  intros Hk Ha ((H1 & H2) & (H3 & H4)) ((H5 & H6) & (H7 & H8)). cbv zeta.
  assert (Hon : forall m, on_screen (Enemy.pos_x (Nat.iter m Enemy.update e))
                                    (Enemy.pos_y (Nat.iter m Enemy.update e))).
  { intros m. destruct (knocked_position m e Hk) as (Hx & Hy).
    pose proof (qpow_decay_range m) as Hd.
    remember (qpow Enemy.knockback_decay m) as d eqn:E. clear E.
    unfold on_screen. rewrite Hx, Hy.
    remember (ZtoQ (SCREEN_WIDTH + 50)) as W eqn:E. clear E.
    remember (ZtoQ (SCREEN_HEIGHT + 50)) as H eqn:E. clear E.
    remember (Enemy.pos_x e) as x0 eqn:E. clear E.
    remember (Enemy.pos_y e) as y0 eqn:E. clear E.
    remember (Enemy.knockback_vx e) as vx eqn:E. clear E.
    remember (Enemy.knockback_vy e) as vy eqn:E. clear E.
    repeat split; nra. }
  assert (Hal : forall m, Enemy.alive (Nat.iter m Enemy.update e) = true).
  { induction m as [|m IH]; [exact Ha|].
    destruct (iter_update_knocked_back m e Hk) as (Hkm & _).
    pose proof (Hon (S m)) as Hs.
    change (Nat.iter (S m) Enemy.update e)
      with (Enemy.update (Nat.iter m Enemy.update e)) in *.
    destruct (update_knocked_position _ Hkm) as (_ & _ & Hal & _).
    rewrite Hal, IH, (on_screen_off _ _ Hs). reflexivity. }
  split; [apply Hal|]. split; [apply Hon|].
  unfold Game.destroyed_by_player.
  change (Enemy.update (Nat.iter n Enemy.update e))
    with (Nat.iter (S n) Enemy.update e).
  now rewrite Hal.
Qed.

Lemma slow_knockback_never_leaves_witness :
  let e := Enemy.apply_knockback (3 # 5) (-4 # 5) 30
             (Enemy.init initial_globals 500 450 14 28) in
  Enemy.knockback_vx e = 18%Q
  /\ Enemy.knockback_vy e = (-24)%Q
  /\ Enemy.alive (Nat.iter 1000 Enemy.update e) = true.
Proof.
  intros e. split; [reflexivity|]. split; [reflexivity|].
  apply (slow_knockback_never_leaves 1000 e);
    [reflexivity | reflexivity
     | repeat split; discriminate | repeat split; discriminate].
Defined.

(** ** The collision passes and the depth scale *)

(** X23.  The collision pass over the collectibles keeps, in order, those
    that do not touch the player, adds the point values of those that do
    to the score and counts them: the kept and the counted make up the
    group, and when every point value is one the points equal the
    count. *)
Theorem collecting_partitions (p : Player.t) (cs : list MatrixCharacter.t) :
  let '(rest, points, count) := Game.collect_characters p cs in
  rest = filter (fun c => negb (touches_character p c)) cs
  /\ points = points_of (filter (touches_character p) cs)
  /\ count = Z.of_nat (length (filter (touches_character p) cs))
  /\ Z.of_nat (length rest) + count = Z.of_nat (length cs)
  /\ (Forall (fun c => MatrixCharacter.point_value c = 1) cs -> points = count).
Proof.
  rewrite collect_characters_eq.
  split; [reflexivity|]. split; [reflexivity|]. split; [reflexivity|]. split.
  - rewrite <- Nat2Z.inj_add. f_equal.
    induction cs as [|c cs IH]; [reflexivity|]. cbn [filter length].
    destruct (touches_character p c); cbn [negb length]; lia.
  - intros H. induction H as [|c l Hc _ IH]; cbn [filter]; [reflexivity|].
    destruct (touches_character p c); [|exact IH].
    cbn [points_of fold_right length].
    fold (points_of (filter (touches_character p) l)). rewrite IH, Hc. lia.
Qed.

Lemma collect_pills_from (p : Player.t) (ps r0 : list Pill.t) (flag : bool) (z0 : Q) :
  fold_left
    (fun '(rest, flag, z) c =>
       if colliderect (Player.rect p) (Pill.rect c) then
         match Pill.kind c with
         | red => ([], true, z)
         | blue => ([], false, 0%Q)
         end
       else (rest, flag, z))
    ps (r0, flag, z0)
  = match rev (filter (touches_pill p) ps) with
    | [] => (r0, flag, z0)
    | c :: _ => ([], negb (is_blue c),
                 if existsb is_blue (filter (touches_pill p) ps) then 0%Q else z0)
    end.
Proof.
  induction ps as [|c l IH] using rev_ind; [reflexivity|].
  rewrite fold_left_app, IH, filter_app, existsb_app, rev_app_distr.
  cbn [filter]. remember (filter (touches_pill p) l) as t eqn:Et. clear Et.
  unfold touches_pill.
  destruct (rev t) as [|c' l'] eqn:E;
    [apply (f_equal (@rev _)) in E; rewrite rev_involutive in E; subst t|];
    cbn [fold_left]; cbv beta iota;
    destruct (colliderect (Player.rect p) (Pill.rect c));
    cbn [rev app existsb]; unfold is_blue;
    destruct (Pill.kind c); cbn [negb];
    rewrite ?orb_true_r, ?orb_false_r; reflexivity.
Qed.

(** X24.  The collision pass over the pills: when no pill touches the
    player nothing changes; otherwise the group is emptied, the 3D flag is
    set by the last pill touched (on for red, off for blue), and the depth
    of the player is reset to zero when a blue pill is among those
    touched. *)
Theorem last_pill_decides (p : Player.t) (ps : list Pill.t) (flag : bool) :
  let touched := filter (touches_pill p) ps in
  Game.collect_pills p ps flag
  = match rev touched with
    | [] => (ps, flag, Player.pos_z p)
    | c :: _ => ([], negb (is_blue c),
                 if existsb is_blue touched then 0%Q else Player.pos_z p)
    end.
Proof.
  cbv zeta. unfold Game.collect_pills. apply collect_pills_from.
Qed.

Lemma qdiv_correct (a b : Q) : (qdiv a b == a / b)%Q.
Proof. apply Qred_correct. Qed.

Lemma qmax_correct (a b : Q) : (qmax a b == Qmax a b)%Q.
Proof. apply Qred_correct. Qed.

Lemma qmin_correct (a b : Q) : (qmin a b == Qmin a b)%Q.
Proof. apply Qred_correct. Qed.

Lemma depth_scale_3d (G : Globals) (p : Player.t) :
  enable_3d G = true ->
  (get_depth_scale G p
   == 1 - (1 # 200) * Qmax 0 (Qmin 100 (Player.pos_z p)))%Q.
Proof.
  intros H. unfold get_depth_scale. rewrite H. cbn [negb].
  unfold MIN_DEPTH, MAX_DEPTH, DEPTH_SCALE_FACTOR.
  rewrite qsub_correct, qmul_correct, qdiv_correct, qsub_correct.
  assert (E : (qmax 0 (qmin 100 (Player.pos_z p))
               == Qmax 0 (Qmin 100 (Player.pos_z p)))%Q).
  { rewrite qmax_correct. apply Q.max_compat; [reflexivity | apply qmin_correct]. }
  rewrite E. field.
Qed.

Lemma Qtrunc_range (q : Q) :
  (0 <= q)%Q -> 0 <= Qtrunc q /\ (ZtoQ (Qtrunc q) <= q)%Q.
Proof.
  intros Hq. destruct q as [n d]. unfold Qtrunc, Qle, ZtoQ in *.
  cbn [Qnum Qden inject_Z] in *. rewrite Z.mul_1_r in *.
  rewrite Z.quot_div_nonneg by lia.
  split; [apply Z.div_pos; lia|].
  rewrite Z.mul_comm. apply Z.mul_div_le. lia.
Qed.

Lemma depth_scale_clamped (z : Q) : (0 <= Qmax 0 (Qmin 100 z) <= 100)%Q.
Proof.
  split; [apply Q.le_max_l|].
  apply Q.max_lub; [discriminate | apply Q.le_min_l].
Qed.

Lemma depth_scale_bounds (G : Globals) (p : Player.t) :
  (DEPTH_SCALE_FACTOR <= get_depth_scale G p <= 1)%Q.
Proof.
  unfold DEPTH_SCALE_FACTOR. destruct (enable_3d G) eqn:E3.
  - pose proof (depth_scale_3d G p E3) as Ep.
    pose proof (depth_scale_clamped (Player.pos_z p)) as Hp. split; lra.
  - unfold get_depth_scale. rewrite E3. cbn [negb]. split; discriminate.
Qed.

(** X25.  [get_depth_scale] is between [DEPTH_SCALE_FACTOR] and 1; it is 1
    while the 3D flag is off and at depth [MIN_DEPTH] or less, it is
    [DEPTH_SCALE_FACTOR] at depth [MAX_DEPTH] or more in 3D, and a deeper
    player never has a larger scale. *)
Theorem depth_scale_range (G : Globals) (p q : Player.t) :
  (DEPTH_SCALE_FACTOR <= get_depth_scale G p <= 1)%Q
  /\ (enable_3d G = false -> get_depth_scale G p = 1%Q)
  /\ ((Player.pos_z p <= Player.pos_z q)%Q ->
      (get_depth_scale G q <= get_depth_scale G p)%Q)
  /\ ((Player.pos_z p <= MIN_DEPTH)%Q -> (get_depth_scale G p == 1)%Q)
  /\ ((MAX_DEPTH <= Player.pos_z p)%Q -> enable_3d G = true ->
      (get_depth_scale G p == DEPTH_SCALE_FACTOR)%Q).
Proof.
  split; [apply depth_scale_bounds|].
  unfold DEPTH_SCALE_FACTOR, MIN_DEPTH, MAX_DEPTH.
  destruct (enable_3d G) eqn:E3.
  - pose proof (depth_scale_3d G p E3) as Ep.
    pose proof (depth_scale_3d G q E3) as Eq.
    pose proof (depth_scale_clamped (Player.pos_z p)) as Hp.
    split; [discriminate|]. split; [|split].
    + intros Hle.
      assert (Hm : (Qmax 0 (Qmin 100 (Player.pos_z p))
                    <= Qmax 0 (Qmin 100 (Player.pos_z q)))%Q).
      { apply Q.max_le_compat_l, Q.min_le_compat_l, Hle. }
      lra.
    + intros Hz.
      assert (Hm : (Qmax 0 (Qmin 100 (Player.pos_z p)) == 0)%Q).
      { apply Q.max_l. apply Qle_trans with (Player.pos_z p);
          [apply Q.le_min_r | exact Hz]. }
      lra.
    + intros Hz _.
      assert (Hm : (Qmax 0 (Qmin 100 (Player.pos_z p)) == 100)%Q).
      { rewrite (Q.min_l _ _ Hz). apply Q.max_r. discriminate. }
      lra.
  - unfold get_depth_scale. rewrite E3. cbn [negb].
    split; [reflexivity|].
    split; [intros _; discriminate|]. split; [reflexivity | discriminate].
Qed.

(** X26.  [apply_depth_scale] returns a frame that is no wider and no
    higher than the larger of the frame given and one pixel, either the
    frame given itself or one of at least one pixel each way; while the 3D
    flag is off it returns the frame given. *)
Theorem scaled_frame_size (G : Globals) (p : Player.t) (w h : Z) :
  0 <= w -> 0 <= h ->
  let '(w', h') := apply_depth_scale G p (w, h) in
  (w' = w \/ 1 <= w') /\ w' <= Z.max 1 w
  /\ (h' = h \/ 1 <= h') /\ h' <= Z.max 1 h
  /\ (enable_3d G = false -> (w', h') = (w, h)).
Proof.
  intros Hw Hh. unfold apply_depth_scale.
  destruct (enable_3d G) eqn:E3; cbn [negb];
    [|repeat split; try (now left); lia].
  destruct (Qeq_bool (get_depth_scale G p) 1);
    [repeat split; try (now left); try lia; discriminate|].
  destruct (depth_scale_bounds G p) as (Hlo & Hhi).
  unfold DEPTH_SCALE_FACTOR in Hlo.
  assert (Hb : forall n : Z, 0 <= n ->
             1 <= Z.max 1 (Qtrunc (qmul (ZtoQ n) (get_depth_scale G p)))
             /\ Z.max 1 (Qtrunc (qmul (ZtoQ n) (get_depth_scale G p))) <= Z.max 1 n).
  { intros n Hn. split; [lia|].
    assert (H0 : (0 <= ZtoQ n)%Q)
      by (unfold ZtoQ; change 0%Q with (inject_Z 0); rewrite <- Zle_Qle; lia).
    pose proof (qmul_correct (ZtoQ n) (get_depth_scale G p)) as Hm.
    remember (qmul (ZtoQ n) (get_depth_scale G p)) as m eqn:Em. clear Em.
    destruct (Qtrunc_range m) as (_ & Ht); [nra|].
    assert (Hle : (ZtoQ (Qtrunc m) <= ZtoQ n)%Q) by nra.
    unfold ZtoQ in Hle. rewrite <- Zle_Qle in Hle. lia. }
  destruct (Hb w Hw) as (H1 & H2). destruct (Hb h Hh) as (H3 & H4).
  split; [now right|]. split; [exact H2|]. split; [now right|].
  split; [exact H4 | discriminate].
Qed.

Lemma scaled_frame_size_witness :
  let G := mkGlobals 2 mode_default true in
  let p := Game.set_pos_z 97 (Player.init 500 400 48 48) in
  apply_depth_scale G p (48, 48) = (24, 24)
  /\ (let '(w', h') := apply_depth_scale G p (48, 48) in w' <= Z.max 1 48).
Proof.
  intros G p. split; [reflexivity|].
  pose proof (scaled_frame_size G p 48 48) as H.
  destruct (apply_depth_scale G p (48, 48)) as [w' h'].
  apply H; lia.
Defined.

(** ** The console *)

Section Console.

Import String.

Variable T : InGameConsole.Text.

Lemma append_log_ok (text : InGameConsole.str) (c : InGameConsole.t) :
  log_ok (InGameConsole.append_log T text c).
Proof.
  unfold log_ok, InGameConsole.append_log. cbn [InGameConsole.log].
  destruct (200 <? _) eqn:E.
  - unfold InGameConsole.last_200. rewrite length_skipn.
    apply Z.ltb_lt in E. lia.
  - apply Z.ltb_ge in E. lia.
Qed.

Lemma execute_ok (F : InGameConsole.Files) (cmd : InGameConsole.str)
      (c : InGameConsole.t) :
  log_ok c -> log_ok (InGameConsole.execute T F cmd c).
Proof.
  intros Hc. unfold InGameConsole.execute.
  destruct (InGameConsole.split T cmd) as [|part0 rest]; [exact Hc|].
  repeat match goal with
         | |- log_ok (if ?b then _ else _) => destruct b
         | |- log_ok (match ?x with inl _ => _ | inr _ => _ end) => destruct x
         | |- log_ok (InGameConsole.append_log _ _ _) => apply append_log_ok
         end.
  - match goal with
    | |- log_ok (let '(_, _) := ?x in _) => destruct x as [start end_]
    end.
    apply fold_left_invariant; [|exact Hc]. intros; apply append_log_ok.
  - destruct (InGameConsole.file_path c) as [[|ch path]|];
      [apply append_log_ok | | apply append_log_ok].
    destruct (InGameConsole.write_result F); apply append_log_ok.
  - exact Hc.
Qed.

Lemma handle_event_ok (F : InGameConsole.Files) (ev : InGameConsole.ConsoleEvent)
      (c : InGameConsole.t) :
  log_ok c -> log_ok (fst (InGameConsole.handle_event T F ev c)).
Proof.
  intros Hc. unfold InGameConsole.handle_event.
  destruct ev as [key unicode|]; [|exact Hc].
  destruct key; cbn [fst]; try exact Hc;
    destruct (negb (InGameConsole.active c)); cbn [fst]; try exact Hc.
  - destruct (InGameConsole.strip T (InGameConsole.input c)); [exact Hc|].
    apply execute_ok, append_log_ok.
  - destruct unicode; exact Hc.
Qed.

(** X27.  Whatever events a new console is given, and whatever the file
    system answers, its log never holds more than 200 lines. *)
Theorem log_never_exceeds_200
        (evs : list (InGameConsole.ConsoleEvent * InGameConsole.Files)) :
  (List.length (InGameConsole.log (InGameConsole.handle_all T evs InGameConsole.init))
   <= 200)%nat.
Proof.
  unfold InGameConsole.handle_all.
  apply (fold_left_invariant log_ok).
  - intros c [ev F] Hc. now apply handle_event_ok.
  - unfold log_ok. cbn. lia.
Qed.

Lemma set_line_length (n : nat) (x : InGameConsole.str) (b : list InGameConsole.str) :
  (n < List.length b)%nat ->
  List.length (firstn n b ++ x :: skipn (S n) b) = List.length b.
Proof.
  intros H. rewrite length_app, length_firstn. cbn [List.length].
  rewrite length_skipn. lia.
Qed.

Lemma set_line_nth (n : nat) (x d : InGameConsole.str) (b : list InGameConsole.str)
      (i : nat) :
  (n < List.length b)%nat ->
  nth i (firstn n b ++ x :: skipn (S n) b) d
  = if Nat.eqb i n then x else nth i b d.
Proof.
  revert b i. induction n as [|n IH]; intros [|y b] i H; cbn [List.length] in H;
    try lia.
  - destruct i; reflexivity.
  - destruct i as [|i]; [reflexivity|].
    cbn [firstn skipn app nth Nat.eqb]. apply IH. lia.
Qed.

(** X28.  The command [edit <line> <text>] with a line number that [int]
    accepts replaces that line of the buffer by the words of the text
    joined with single spaces when the number is between 1 and the length
    of the buffer, and leaves the buffer as it is otherwise; the length of
    the buffer, the file path, the input line, the open flag and the files
    written are unchanged. *)
Theorem edit_replaces_one_line (F : InGameConsole.Files) (cmd : InGameConsole.str)
        (c : InGameConsole.t) (k : Z) :
  let parts := InGameConsole.split T cmd in
  InGameConsole.lower T (InGameConsole.nth_part 0 parts) = InGameConsole.lit "edit" ->
  (3 <= List.length parts)%nat ->
  InGameConsole.parse_int T (InGameConsole.nth_part 1 parts) = inl k ->
  let c' := InGameConsole.execute T F cmd c in
  let new_text := InGameConsole.join (InGameConsole.lit " ") (skipn 2 parts) in
  let hit := (1 <=? k) && (k <=? Z.of_nat (List.length (InGameConsole.buffer c))) in
  List.length (InGameConsole.buffer c') = List.length (InGameConsole.buffer c)
  /\ (forall i : nat,
         nth i (InGameConsole.buffer c') []
         = if hit && (Z.of_nat i =? k - 1) then new_text
           else nth i (InGameConsole.buffer c) [])
  /\ InGameConsole.file_path c' = InGameConsole.file_path c
  /\ InGameConsole.active c' = InGameConsole.active c
  /\ InGameConsole.input c' = InGameConsole.input c
  /\ InGameConsole.written c' = InGameConsole.written c.
Proof.
  cbv zeta. unfold InGameConsole.execute.
  remember (InGameConsole.split T cmd) as parts0 eqn:Es. clear Es.
  destruct parts0 as [|part0 rest]; intros Hop Hlen Hk; [cbn in Hlen; lia|].
  cbv iota. remember (part0 :: rest) as parts eqn:Ep.
  assert (Hp0 : InGameConsole.nth_part 0 parts = part0) by (subst parts; reflexivity).
  rewrite Hp0 in Hop. clear Hp0 Ep. rewrite Hop.
  change (InGameConsole.str_eqb (InGameConsole.lit "edit") (InGameConsole.lit "help"))
    with false.
  change (InGameConsole.str_eqb (InGameConsole.lit "edit") (InGameConsole.lit "open"))
    with false.
  change (InGameConsole.str_eqb (InGameConsole.lit "edit") (InGameConsole.lit "show"))
    with false.
  change (InGameConsole.str_eqb (InGameConsole.lit "edit") (InGameConsole.lit "edit"))
    with true.
  cbn [andb]. cbv iota.
  replace (3 <=? Z.of_nat (List.length parts)) with true
    by (symmetry; apply Z.leb_le; lia).
  rewrite Hk.
  remember (InGameConsole.buffer c) as b eqn:Eb.
  destruct (0 <=? k - 1) eqn:E1; destruct (k - 1 <? Z.of_nat (List.length b)) eqn:E2;
    cbn [andb];
    try (replace ((1 <=? k) && (k <=? Z.of_nat (List.length b))) with false
          by (symmetry; apply andb_false_iff;
              rewrite Z.leb_gt, Z.leb_gt;
              try apply Z.leb_gt in E1; try apply Z.ltb_ge in E2; lia);
         cbn [andb InGameConsole.append_log InGameConsole.buffer
              InGameConsole.file_path InGameConsole.active InGameConsole.input
              InGameConsole.written];
         rewrite <- Eb; repeat split).
  apply Z.leb_le in E1. apply Z.ltb_lt in E2.
  replace ((1 <=? k) && (k <=? Z.of_nat (List.length b))) with true
    by (symmetry; apply andb_true_iff; rewrite !Z.leb_le; lia).
  cbn [andb InGameConsole.append_log InGameConsole.set_buffer InGameConsole.buffer
       InGameConsole.file_path InGameConsole.active InGameConsole.input
       InGameConsole.written].
  unfold InGameConsole.set_line.
  split; [apply set_line_length; lia|]. split; [|repeat split].
  intros i. rewrite set_line_nth by lia.
  destruct (Nat.eqb i (Z.to_nat (k - 1))) eqn:Ei.
  - apply Nat.eqb_eq in Ei. subst i.
    replace (Z.of_nat (Z.to_nat (k - 1)) =? k - 1) with true
      by (symmetry; apply Z.eqb_eq; lia).
    reflexivity.
  - apply Nat.eqb_neq in Ei.
    replace (Z.of_nat i =? k - 1) with false
      by (symmetry; apply Z.eqb_neq; lia).
    reflexivity.
Qed.

(** X29.  In the open console a key that carries one character is
    handled and appends it to the input line, and a backspace after it is
    handled and gives back the console as it was. *)
Theorem backspace_undoes_a_character (F F' : InGameConsole.Files) (ch : N)
        (c : InGameConsole.t) :
  InGameConsole.active c = true ->
  let '(c1, handled1) :=
    InGameConsole.handle_event T F (InGameConsole.KeyDown InGameConsole.K_character [ch]) c in
  let '(c2, handled2) :=
    InGameConsole.handle_event T F' (InGameConsole.KeyDown InGameConsole.K_BACKSPACE []) c1 in
  handled1 = true /\ handled2 = true
  /\ InGameConsole.input c1 = InGameConsole.input c ++ [ch]
  /\ c2 = c.
Proof.
  intros Ha. destruct c as [a l i b fp w]. cbn [InGameConsole.active] in Ha. subst a.
  cbn [InGameConsole.handle_event InGameConsole.active negb InGameConsole.set_input
       InGameConsole.input InGameConsole.log InGameConsole.buffer
       InGameConsole.file_path InGameConsole.written].
  rewrite removelast_last. repeat split.
Qed.

End Console.

Lemma edit_replaces_one_line_witness :
  let c' := InGameConsole.execute AsciiText.text AsciiText.no_files
              AsciiText.edit_second AsciiText.three_lines in
  InGameConsole.buffer c' = AsciiText.second_edited
  /\ List.length (InGameConsole.buffer c')
     = List.length (InGameConsole.buffer AsciiText.three_lines).
Proof.
  intros c'. split; [reflexivity|].
  apply (edit_replaces_one_line AsciiText.text AsciiText.no_files
           AsciiText.edit_second AsciiText.three_lines 2);
    [reflexivity | cbn; lia | reflexivity].
Defined.

Lemma backspace_undoes_a_character_witness :
  fst (InGameConsole.handle_event AsciiText.text AsciiText.no_files
         (InGameConsole.KeyDown InGameConsole.K_BACKSPACE [])
         (fst (InGameConsole.handle_event AsciiText.text AsciiText.no_files
                 (InGameConsole.KeyDown InGameConsole.K_character [104%N])
                 AsciiText.three_lines)))
  = AsciiText.three_lines.
Proof.
  pose proof (backspace_undoes_a_character AsciiText.text AsciiText.no_files
                AsciiText.no_files 104%N AsciiText.three_lines eq_refl) as H.
  destruct (InGameConsole.handle_event AsciiText.text AsciiText.no_files
              (InGameConsole.KeyDown InGameConsole.K_character [104%N])
              AsciiText.three_lines) as [c1 h1].
  cbn [fst].
  destruct (InGameConsole.handle_event AsciiText.text AsciiText.no_files
              (InGameConsole.KeyDown InGameConsole.K_BACKSPACE []) c1) as [c2 h2].
  cbn [fst]. apply H.
Defined.
